(** * Page Shot server: credential codec, ownership gates and request handlers

    A shallow embedding of [server/src/server.js] and of
    [server/src/pages/leave-screenshots/server.js].

    Conventions of the embedding.
    - A JavaScript string is a [string]: a sequence of 8-bit units.  Header
      values reach the server as Latin-1 units; text that goes through
      [new Buffer(s)] is taken in its UTF-8 form, so that the conversion
      between a string and its bytes is the identity.
    - A JavaScript object used as a record or a map is an association list in
      enumeration order, with pairwise different keys.
    - A Number is held by the decimal numeral that prints it; see [Number].
    - A call that may throw returns a [completion]. *)

From Stdlib Require Import Bool Arith NArith ZArith Lia List Ascii String.
Import ListNotations.

Local Open Scope list_scope.
Local Open Scope string_scope.
Local Open Scope nat_scope.

(** ** Completions: a value returned or an exception thrown *)

Inductive exn : Type :=
| TypeError (msg : string)
| SyntaxError (msg : string)
| Error (msg : string).

Inductive completion (A : Type) : Type :=
| Returned (a : A)
| Threw (e : exn).

Arguments Returned {A} a.
Arguments Threw {A} e.

Definition bindc {A B : Type} (c : completion A) (k : A -> completion B)
  : completion B :=
  match c with
  | Returned a => k a
  | Threw e => Threw e
  end.

Notation "'let*' x ':=' c 'in' k" := (bindc c (fun x => k))
  (at level 10, x name, c at level 100, k at level 200).

(** ** Strings *)

Module Str.

(** Every unit of the string satisfies the test. *)
Fixpoint all (p : ascii -> bool) (s : string) : bool :=
  match s with
  | EmptyString => true
  | String c r => p c && all p r
  end.

Definition nonempty (s : string) : bool :=
  match s with EmptyString => false | String _ _ => true end.

(** [break p s] cuts [s] before its first unit satisfying [p]. *)
Fixpoint break (p : ascii -> bool) (s : string) : string * string :=
  match s with
  | EmptyString => (EmptyString, EmptyString)
  | String c r =>
      if p c then (EmptyString, s)
      else let '(a, b) := break p r in (String c a, b)
  end.

(** [strip_prefix p s] is the rest of [s] after the literal [p], if [s]
    starts with it. *)
Fixpoint strip_prefix (p s : string) : option string :=
  match p, s with
  | EmptyString, _ => Some s
  | String a p', String b s' =>
      if Ascii.eqb a b then strip_prefix p' s' else None
  | String _ _, EmptyString => None
  end.

(** The units of [s] in reverse order, before [acc]. *)
Fixpoint rev_append (s acc : string) : string :=
  match s with
  | EmptyString => acc
  | String c r => rev_append r (String c acc)
  end.

Definition rev (s : string) : string := rev_append s EmptyString.

(** The first [n] units of [s], and the others. *)
Fixpoint take (n : nat) (s : string) : string :=
  match n, s with
  | S k, String c r => String c (take k r)
  | _, _ => EmptyString
  end.

Fixpoint drop (n : nat) (s : string) : string :=
  match n, s with
  | S k, String _ r => drop k r
  | _, _ => s
  end.

End Str.


(** ** Base64, as [Buffer] writes and reads it

    [buf.toString("base64")] writes the standard alphabet with [=] padding.
    [new Buffer(s, "base64")] reads leniently: it stops at the first [=],
    skips every unit outside the alphabet, takes [-] and [_] for [+] and [/],
    and never throws. *)

Module Base64.

(** Six bits, most significant first. *)
Definition sextet : Type := (bool * bool * bool * bool * bool * bool)%type.

Definition alphabet : string :=
  "ABCDEFGHIJKLMNOPQRSTUVWXYZabcdefghijklmnopqrstuvwxyz0123456789+/".

Definition bit (b : bool) : nat := if b then 1 else 0.

Definition index (s : sextet) : nat :=
  let '(b5, b4, b3, b2, b1, b0) := s in
  32 * bit b5 + 16 * bit b4 + 8 * bit b3 + 4 * bit b2 + 2 * bit b1 + bit b0.

Definition of_index (n : nat) : sextet :=
  (Nat.testbit n 5, Nat.testbit n 4, Nat.testbit n 3,
   Nat.testbit n 2, Nat.testbit n 1, Nat.testbit n 0).

Definition char (s : sextet) : ascii :=
  match String.get (index s) alphabet with
  | Some c => c
  | None => "="%char
  end.

Definition between (lo hi n : nat) : bool := (lo <=? n) && (n <=? hi).

(** The value of a unit of the text, for the standard and the URL-safe
    alphabet alike. *)
Definition unchar (c : ascii) : option sextet :=
  let n := nat_of_ascii c in
  if between 65 90 n then Some (of_index (n - 65))
  else if between 97 122 n then Some (of_index (n - 97 + 26))
  else if between 48 57 n then Some (of_index (n - 48 + 52))
  else if (n =? 43) || (n =? 45) then Some (of_index 62)
  else if (n =? 47) || (n =? 95) then Some (of_index 63)
  else None.

(** Three bytes make four sextets; one or two bytes left at the end make
    two or three, the missing bits being zero. *)
Fixpoint sextets_of_bytes (s : string) : list sextet :=
  match s with
  | String (Ascii a0 a1 a2 a3 a4 a5 a6 a7)
      (String (Ascii b0 b1 b2 b3 b4 b5 b6 b7)
         (String (Ascii c0 c1 c2 c3 c4 c5 c6 c7) r)) =>
      (a7, a6, a5, a4, a3, a2) :: (a1, a0, b7, b6, b5, b4)
      :: (b3, b2, b1, b0, c7, c6) :: (c5, c4, c3, c2, c1, c0)
      :: sextets_of_bytes r
  | String (Ascii a0 a1 a2 a3 a4 a5 a6 a7)
      (String (Ascii b0 b1 b2 b3 b4 b5 b6 b7) EmptyString) =>
      [(a7, a6, a5, a4, a3, a2); (a1, a0, b7, b6, b5, b4);
       (b3, b2, b1, b0, false, false)]
  | String (Ascii a0 a1 a2 a3 a4 a5 a6 a7) EmptyString =>
      [(a7, a6, a5, a4, a3, a2); (a1, a0, false, false, false, false)]
  | EmptyString => []
  end.

Fixpoint chars (l : list sextet) : string :=
  match l with
  | [] => EmptyString
  | x :: r => String (char x) (chars r)
  end.

Definition padding (n : nat) : string :=
  match n mod 3 with
  | 1 => "=="
  | 2 => "="
  | _ => ""
  end.

(** [buf.toString("base64")] *)
Definition encode (s : string) : string :=
  chars (sextets_of_bytes s) ++ padding (String.length s).

(** The sextets a text holds, up to its first [=]. *)
Fixpoint sextets_of_text (t : string) : list sextet :=
  match t with
  | EmptyString => []
  | String c r =>
      if Ascii.eqb c "=" then []
      else match unchar c with
           | Some x => x :: sextets_of_text r
           | None => sextets_of_text r
           end
  end.

Fixpoint bytes_of_sextets (l : list sextet) : string :=
  match l with
  | (a7, a6, a5, a4, a3, a2) :: (a1, a0, b7, b6, b5, b4)
      :: (b3, b2, b1, b0, c7, c6) :: (c5, c4, c3, c2, c1, c0) :: r =>
      String (Ascii a0 a1 a2 a3 a4 a5 a6 a7)
        (String (Ascii b0 b1 b2 b3 b4 b5 b6 b7)
           (String (Ascii c0 c1 c2 c3 c4 c5 c6 c7) (bytes_of_sextets r)))
  | [(a7, a6, a5, a4, a3, a2); (a1, a0, b7, b6, b5, b4);
     (b3, b2, b1, b0, _, _)] =>
      String (Ascii a0 a1 a2 a3 a4 a5 a6 a7)
        (String (Ascii b0 b1 b2 b3 b4 b5 b6 b7) EmptyString)
  | [(a7, a6, a5, a4, a3, a2); (a1, a0, _, _, _, _)] =>
      String (Ascii a0 a1 a2 a3 a4 a5 a6 a7) EmptyString
  | _ => EmptyString
  end.

(** [new Buffer(t, "base64")] *)
Definition decode (t : string) : string :=
  bytes_of_sextets (sextets_of_text t).

End Base64.



(** ** Numbers

    A Number is an IEEE 754 double.  The embedding holds a finite one by the
    decimal numeral that [Number::toString] prints for it: the shortest
    [s * 10^e] that rounds to the double and, among those, the one nearest to
    it.  [s] is not a multiple of ten; zero is [Num false 0 0], and the two
    zeros of the format are not told apart. *)

Module Number.

Inductive t : Type :=
| NaN
| Infinity (neg : bool)
| Num (neg : bool) (s : N) (e : Z).

Definition eqb (x y : t) : bool :=
  match x, y with
  | NaN, NaN => true
  | Infinity a, Infinity b => Bool.eqb a b
  | Num a s e, Num b s' e' => Bool.eqb a b && (s =? s')%N && (e =? e')%Z
  | _, _ => false
  end.

Definition zero : t := Num false 0 0.
Definition one : t := Num false 1 0.

(** *** Decimal digits *)

Definition digit_char (d : N) : ascii := ascii_of_N (48 + d).

Definition digit_val (c : ascii) : option N :=
  let n := nat_of_ascii c in
  if (48 <=? n) && (n <=? 57) then Some (N.of_nat (n - 48)) else None.

Definition is_digit (c : ascii) : bool :=
  match digit_val c with Some _ => true | None => false end.

(** The decimal digits of [n] before [acc]; [fuel] bounds the number of
    digits. *)
Fixpoint digits_acc (fuel : nat) (n : N) (acc : string) : string :=
  match fuel with
  | 0 => acc
  | S f =>
      let acc' := String (digit_char (n mod 10)) acc in
      if (n <? 10)%N then acc' else digits_acc f (n / 10) acc'
  end.

Definition digits (n : N) : string :=
  digits_acc (S (N.to_nat (N.log2 n))) n "".

(** The value of a run of digits read after [acc]. *)
Fixpoint digits_value (acc : N) (s : string) : N :=
  match s with
  | EmptyString => acc
  | String c r =>
      match digit_val c with
      | Some d => digits_value (10 * acc + d) r
      | None => acc
      end
  end.

Fixpoint zeros (n : nat) : string :=
  match n with
  | 0 => ""
  | S k => String "0" (zeros k)
  end.

(** *** Rounding a decimal numeral to the nearest double *)

(** [s * 10^e] without the zeros [s] ends with. *)
Fixpoint strip (fuel : nat) (s : N) (e : Z) : N * Z :=
  match fuel with
  | 0 => (s, e)
  | S f =>
      if (s mod 10 =? 0)%N then strip f (s / 10)%N (e + 1)%Z else (s, e)
  end.

Definition normalise (s : N) (e : Z) : N * Z :=
  if (s =? 0)%N then (0%N, 0%Z) else strip (N.to_nat (N.size s)) s e.

(** The magnitude of a double: [m * 2^e] with [m < 2^53] and
    [-1074 <= e <= 971], where [m < 2^52] only at the least exponent; or
    what lies beyond the greatest of them. *)
Inductive binary : Type :=
| BInf
| BFin (m : N) (e : Z).

Definition binary_eqb (a b : binary) : bool :=
  match a, b with
  | BInf, BInf => true
  | BFin m e, BFin m' e' => (m =? m')%N && (e =? e')%Z
  | _, _ => false
  end.

Definition pow2 (e : Z) : N := (2 ^ Z.to_N e)%N.
Definition pow10 (e : Z) : N := (10 ^ Z.to_N e)%N.

(** [num / (den * 2^e)] as a quotient, a remainder and the divisor. *)
Definition scaled (num den : N) (e : Z) : N * N * N :=
  if (e <? 0)%Z then
    let n' := (num * pow2 (- e))%N in ((n' / den)%N, (n' mod den)%N, den)
  else
    let d' := (den * pow2 e)%N in ((num / d')%N, (num mod d')%N, d').

(** To the nearest, a tie to the even one. *)
Definition nearest (q r d : N) : N :=
  if (2 * r <? d)%N then q
  else if (d <? 2 * r)%N then (q + 1)%N
  else if N.even q then q else (q + 1)%N.

(** The double nearest to [num / den], where [0 < num] and [0 < den]. *)
Definition round_ratio (num den : N) : binary :=
  let e0 := (Z.of_N (N.log2 num) - Z.of_N (N.log2 den) - 53)%Z in
  let '(q0, _, _) := scaled num den e0 in
  let e1 := if (q0 <? 2 ^ 53)%N then e0 else (e0 + 1)%Z in
  let e := Z.max e1 (-1074) in
  let '(q, r, d) := scaled num den e in
  let m := nearest q r d in
  let '(m, e) := if (m =? 2 ^ 53)%N then ((2 ^ 52)%N, (e + 1)%Z) else (m, e) in
  if (971 <? e)%Z then BInf else BFin m e.

(** The number of decimal digits of [n], for [0 < n]. *)
Definition size10 (n : N) : Z := Z.of_nat (String.length (digits n)).

(** The double nearest to [s * 10^e], where [0 < s].  A numeral beyond the
    range of the doubles on either side is settled by its length. *)
Definition round (s : N) (e : Z) : binary :=
  if (310 <? size10 s + e)%Z then BInf
  else if (size10 s + e <? -330)%Z then BFin 0 (-1074)
  else if (e <? 0)%Z then round_ratio s (pow10 (- e))
  else round_ratio (s * pow10 e) 1.

(** *** The shortest numeral of a double *)

(** [m * 2^e] as a ratio. *)
Definition ratio (m : N) (e : Z) : N * N :=
  if (e <? 0)%Z then (m, pow2 (- e)) else ((m * pow2 e)%N, 1%N).

(** [num / den < 10^n] *)
Definition below_pow10 (num den : N) (n : Z) : bool :=
  if (n <? 0)%Z then (num * pow10 (- n) <? den)%N
  else (num <? den * pow10 n)%N.

(** The [n] with [10^(n-1) <= num / den < 10^n], looked for from [n]
    upwards and downwards. *)
Fixpoint magnitude_up (fuel : nat) (num den : N) (n : Z) : Z :=
  match fuel with
  | 0 => n
  | S f =>
      if below_pow10 num den n then n else magnitude_up f num den (n + 1)
  end.

Fixpoint magnitude_down (fuel : nat) (num den : N) (n : Z) : Z :=
  match fuel with
  | 0 => n
  | S f =>
      if below_pow10 num den (n - 1) then magnitude_down f num den (n - 1)
      else n
  end.

Definition magnitude (num den : N) : Z :=
  let guess :=
    ((Z.of_N (N.log2 num) - Z.of_N (N.log2 den)) * 30103 / 100000)%Z in
  magnitude_up 4 num den (magnitude_down 4 num den guess).

(** [s * 10^e] is a numeral in lowest terms, not zero, that rounds to the
    double [b]. *)
Definition numeral_of (b : binary) (s : N) (e : Z) : Prop :=
  normalise s e = (s, e) /\ s <> 0%N /\ round s e = b.

(** [s * 10^e] is not zero and rounds to the double [b]. *)
Definition rounds_to (b : binary) (s : N) (e : Z) : bool :=
  let '(s', e') := normalise s e in
  negb (s' =? 0)%N && binary_eqb (round s' e') b.

(** [num / (den * 10^e)] as a quotient, a remainder and the divisor. *)
Definition scaled10 (num den : N) (e : Z) : N * N * N :=
  if (e <? 0)%Z then
    let n' := (num * pow10 (- e))%N in ((n' / den)%N, (n' mod den)%N, den)
  else
    let d' := (den * pow10 e)%N in ((num / d')%N, (num mod d')%N, d').

(** The numeral of [k] digits for the double [b], whose value [num / den]
    has the magnitude [n]: of the two numerals of [k] digits around the
    value, one that rounds to [b]; the nearer one if both do, the even one of
    two equally near. *)
Definition numeral (b : binary) (num den : N) (n : Z) (k : Z)
  : option (N * Z) :=
  let e := (n - k)%Z in
  let '(lo, r, d) := scaled10 num den e in
  let hi := (lo + 1)%N in
  match rounds_to b lo e, rounds_to b hi e with
  | true, true => Some (normalise (nearest lo r d) e)
  | true, false => Some (normalise lo e)
  | false, true => Some (normalise hi e)
  | false, false => None
  end.

Fixpoint shortest_from (fuel : nat) (b : binary) (num den : N) (n : Z) (k : Z)
  : option (N * Z) :=
  match fuel with
  | 0 => None
  | S f =>
      match numeral b num den n k with
      | Some c => Some c
      | None => shortest_from f b num den n (k + 1)
      end
  end.

(** The shortest numeral that rounds to the double: seventeen digits always
    do. *)
Definition shortest (b : binary) : option (N * Z) :=
  match b with
  | BInf => None
  | BFin m e =>
      let '(num, den) := ratio m e in
      shortest_from 17 b num den (magnitude num den) 1
  end.

(** The Number a decimal numeral denotes. *)
Definition of_decimal (neg : bool) (s : N) (e : Z) : t :=
  let '(s, e) := normalise s e in
  if (s =? 0)%N then zero
  else
    match round s e with
    | BInf => Infinity neg
    | BFin 0 _ => zero
    | b =>
        match shortest b with
        | Some (s', e') => Num neg s' e'
        | None => Num neg s e
        end
    end.

Definition of_N (n : N) : t := of_decimal false n 0.

(** A finite Number in the form the embedding holds it in. *)
Definition canonical (x : t) : bool :=
  match x with
  | Num neg s e => eqb (of_decimal neg s e) x
  | _ => false
  end.

Definition is_finite (x : t) : bool :=
  match x with Num _ _ _ => true | _ => false end.

Definition is_nan (x : t) : bool :=
  match x with NaN => true | _ => false end.

(** [x < 0] *)
Definition negative (x : t) : bool :=
  match x with
  | NaN => false
  | Infinity neg => neg
  | Num neg s _ => neg && negb (s =? 0)%N
  end.

(** ToBoolean *)
Definition truthy (x : t) : bool :=
  match x with
  | NaN => false
  | Infinity _ => true
  | Num _ s _ => negb (s =? 0)%N
  end.

(** [x == y] on Numbers *)
Definition equal (x y : t) : bool :=
  match x, y with
  | NaN, _ | _, NaN => false
  | _, _ => eqb x y
  end.

(** *** Reading a numeral *)

Definition signed (neg : bool) (n : N) : Z :=
  if neg then (- Z.of_N n)%Z else Z.of_N n.

Definition not_digit (c : ascii) : bool := negb (is_digit c).

(** What may follow the digits of a numeral: nothing, or an exponent
    [e], [e+] or [e-] and its digits, to the end of the text. *)
Definition exponent_part (r : string) : option Z :=
  match r with
  | EmptyString => Some 0%Z
  | String c r' =>
      if Ascii.eqb c "e" || Ascii.eqb c "E" then
        let '(neg, ds) :=
          match r' with
          | String "-" d => (true, d)
          | String "+" d => (false, d)
          | _ => (false, r')
          end in
        if Str.nonempty ds && Str.all is_digit ds
        then Some (signed neg (digits_value 0 ds)) else None
      else None
  end.

(** The digits before the point of a JSON numeral: one digit, or more that
    do not start with 0. *)
Definition json_int (ds : string) : bool :=
  match ds with
  | EmptyString => false
  | String "0" r => negb (Str.nonempty r)
  | String _ _ => true
  end.

(** The digits after the point, if the text starts with a point, and
    what follows them; a point has at least one digit after it. *)
Definition fraction_part (r : string) : option (string * string) :=
  match r with
  | EmptyString => Some (EmptyString, r)
  | String c r' =>
      if Ascii.eqb c "." then
        let '(f, r2) := Str.break not_digit r' in
        if Str.nonempty f then Some (f, r2) else None
      else Some (EmptyString, r)
  end.

(** A numeral of the JSON grammar after its sign: the digits, an optional
    point with digits after it, an optional exponent. *)
Definition json_numeral (neg : bool) (r : string) : option t :=
  let '(int, r1) := Str.break not_digit r in
  if json_int int then
    match fraction_part r1 with
    | Some (f, r2) =>
        match exponent_part r2 with
        | Some x =>
            Some (of_decimal neg (digits_value 0 (int ++ f))
                    (x - Z.of_nat (String.length f)))
        | None => None
        end
    | None => None
    end
  else None.

(** A numeral of the JSON grammar, with its sign if it has one *)
Definition of_json (text : string) : option t :=
  match text with
  | EmptyString => None
  | String c r =>
      if Ascii.eqb c "-" then json_numeral true r
      else json_numeral false text
  end.

(** *** Number::toString *)

Definition sign_text (neg : bool) : string := if neg then "-" else "".

(** The exponent of the scientific form, with its sign. *)
Definition exponent_text (x : Z) : string :=
  (if (x <? 0)%Z then "e-" else "e+") ++ digits (Z.to_N (Z.abs x)).

(** The text of [ds * 10^e], where [ds] are the [k] digits of the numeral
    and [n = e + k] the place of its point: the digits and zeros after
    them, the digits with the point among them, zeros after the point and
    the digits, or the scientific form. *)
Definition numeral_text (ds : string) (e : Z) : string :=
  let k := Z.of_nat (String.length ds) in
  let n := (e + k)%Z in
  if (k <=? n)%Z && (n <=? 21)%Z then ds ++ zeros (Z.to_nat (n - k))
  else if (0 <? n)%Z && (n <=? 21)%Z then
    Str.take (Z.to_nat n) ds ++ "." ++ Str.drop (Z.to_nat n) ds
  else if (-6 <? n)%Z && (n <=? 0)%Z then
    "0." ++ zeros (Z.to_nat (- n)) ++ ds
  else
    match ds with
    | String d EmptyString => String d (exponent_text (n - 1))
    | String d r => String d ("." ++ r) ++ exponent_text (n - 1)
    | EmptyString => EmptyString
    end.

Definition to_string (x : t) : string :=
  match x with
  | NaN => "NaN"
  | Infinity neg => sign_text neg ++ "Infinity"
  | Num neg s e =>
      if (s =? 0)%N then "0"
      else sign_text neg ++ numeral_text (digits s) e
  end.

End Number.

(** ** parseInt(string, 10) *)

Module ParseInt.

(** The white space and line terminators of the language, in UTF-8: the
    controls 9 to 13, the space, and the no-break space, U+1680, U+2000 to
    U+200A, U+2028, U+2029, U+202F, U+205F, U+3000 and U+FEFF. *)
Definition ws1 (a : nat) : bool := ((9 <=? a) && (a <=? 13)) || (a =? 32).
Definition ws2 (a b : nat) : bool := (a =? 194) && (b =? 160).
Definition ws3 (a b c : nat) : bool :=
  ((a =? 225) && (b =? 154) && (c =? 128))
  || ((a =? 226) && (b =? 128)
      && (((128 <=? c) && (c <=? 138)) || (c =? 168) || (c =? 169) || (c =? 175)))
  || ((a =? 226) && (b =? 129) && (c =? 159))
  || ((a =? 227) && (b =? 128) && (c =? 128))
  || ((a =? 239) && (b =? 187) && (c =? 191)).

Fixpoint trim_start (s : string) : string :=
  match s with
  | EmptyString => s
  | String a r =>
      if ws1 (nat_of_ascii a) then trim_start r
      else
        match r with
        | EmptyString => s
        | String b r2 =>
            if ws2 (nat_of_ascii a) (nat_of_ascii b) then trim_start r2
            else
              match r2 with
              | EmptyString => s
              | String c r3 =>
                  if ws3 (nat_of_ascii a) (nat_of_ascii b) (nat_of_ascii c)
                  then trim_start r3 else s
              end
        end
  end.

Definition sign_and_rest (s : string) : bool * string :=
  match s with
  | String "-" r => (true, r)
  | String "+" r => (false, r)
  | _ => (false, s)
  end.

(** [parseInt(s, 10)]: the digits the text starts with, after white space
    and a sign, as the Number nearest to the integer they write; NaN when
    there is none. *)
Definition parseInt (s : string) : Number.t :=
  let '(neg, r) := sign_and_rest (trim_start s) in
  let '(ds, _) := Str.break Number.not_digit r in
  if Str.nonempty ds then Number.of_decimal neg (Number.digits_value 0 ds) 0
  else Number.NaN.

(** ToString of a member that holds text or is missing *)
Definition to_string (x : option string) : string :=
  match x with Some s => s | None => "undefined" end.

End ParseInt.

(** ** JSON values

    An object is the list of its members in enumeration order: the members
    whose names are array indices, in ascending order, and then the others
    in the order of their creation. *)

#[warnings="-register-all"]
Inductive json : Type :=
| JNull
| JBool (b : bool)
| JNum (n : Number.t)
| JStr (s : string)
| JArr (items : list json)
| JObj (members : list (string * json)).

(** ToBoolean *)
Definition truthy (v : json) : bool :=
  match v with
  | JNull => false
  | JBool b => b
  | JNum n => Number.truthy n
  | JStr s => Str.nonempty s
  | JArr _ | JObj _ => true
  end.

(** *** Objects as association lists *)

Module Obj.

(** The array index a name writes: the digits of a number up to
    [2^32 - 2], without a sign or a leading zero. *)
Definition array_index (k : string) : option N :=
  if Number.json_int k && Str.all Number.is_digit k
     && (Number.digits_value 0 k <=? 4294967294)%N
  then Some (Number.digits_value 0 k) else None.

(** The place of a name in the enumeration: an array index by its value,
    any other name after all of them. *)
Definition rank (k : string) : N :=
  match array_index k with
  | Some i => i
  | None => 4294967295%N
  end.

(** Names in the order of enumeration. *)
Fixpoint ordered (ks : list string) : bool :=
  match ks with
  | [] => true
  | k :: r => forallb (fun k' => (rank k <=? rank k')%N) r && ordered r
  end.

Section Members.
Context {A : Type}.

(** [o[k]] on own properties *)
Fixpoint get (k : string) (o : list (string * A)) : option A :=
  match o with
  | [] => None
  | (k', v) :: r => if String.eqb k k' then Some v else get k r
  end.

(** [k in o], own properties only *)
Definition has (k : string) (o : list (string * A)) : bool :=
  match get k o with Some _ => true | None => false end.

Fixpoint replace (k : string) (v : A) (o : list (string * A))
  : list (string * A) :=
  match o with
  | [] => []
  | (k', v') :: r =>
      if String.eqb k k' then (k, v) :: r else (k', v') :: replace k v r
  end.

Fixpoint insert (k : string) (v : A) (o : list (string * A))
  : list (string * A) :=
  match o with
  | [] => [(k, v)]
  | (k', v') :: r =>
      if (rank k <? rank k')%N then (k, v) :: o
      else (k', v') :: insert k v r
  end.

(** The own property [k] of [o] is given the value [v]: an existing
    property keeps its place, a new one takes its place in the enumeration,
    which for a name that is not an array index is the last. *)
Definition set (k : string) (v : A) (o : list (string * A))
  : list (string * A) :=
  if has k o then replace k v o else insert k v o.

(** [delete o[k]] *)
Fixpoint delete (k : string) (o : list (string * A)) : list (string * A) :=
  match o with
  | [] => []
  | (k', v') :: r =>
      if String.eqb k k' then delete k r else (k', v') :: delete k r
  end.

Definition keys (o : list (string * A)) : list string := map fst o.

(** The object built by defining the members in turn. *)
Definition of_members (l : list (string * A)) : list (string * A) :=
  fold_left (fun o kv => set (fst kv) (snd kv) o) l [].

(** [o[k] = v] where [o] was made by an object literal and [v] is a
    string: [__proto__] is an accessor that [o] inherits, whose setter
    drops a value that is not an object, and any other name becomes an own
    property. *)
Definition assign (k : string) (v : A) (o : list (string * A))
  : list (string * A) :=
  if String.eqb k "__proto__" then o else set k v o.

End Members.

End Obj.

(** *** JSON.stringify *)

Module JSON.

Definition hex_digit (n : nat) : ascii :=
  match String.get n "0123456789abcdef" with
  | Some c => c
  | None => "0"%char
  end.

(** The text of one unit inside a string literal. *)
Definition escape_char (c : ascii) : string :=
  let n := nat_of_ascii c in
  if n =? 34 then "\" ++ String c ""
  else if n =? 92 then "\\"
  else if n =? 8 then "\b"
  else if n =? 9 then "\t"
  else if n =? 10 then "\n"
  else if n =? 12 then "\f"
  else if n =? 13 then "\r"
  else if n <? 32 then
    "\u00" ++ String (hex_digit (n / 16)) (String (hex_digit (n mod 16)) "")
  else String c "".

(** The text of a string inside its quotes.  A surrogate that has no
    partner is written as it stands, as the engines of the time of this
    server do. *)
Fixpoint escape (s : string) : string :=
  match s with
  | EmptyString => EmptyString
  | String c r => escape_char c ++ escape r
  end.

Definition dquote : string := String (ascii_of_nat 34) "".

Definition quote (s : string) : string := dquote ++ escape s ++ dquote.

Fixpoint join (sep : string) (l : list string) : string :=
  match l with
  | [] => ""
  | [x] => x
  | x :: r => x ++ sep ++ join sep r
  end.

(** A Number in a JSON text: one that is not finite is written [null]. *)
Definition number (n : Number.t) : string :=
  if Number.is_finite n then Number.to_string n else "null".

(** [JSON.stringify(v)] *)
Fixpoint stringify (v : json) : string :=
  match v with
  | JNull => "null"
  | JBool true => "true"
  | JBool false => "false"
  | JNum n => number n
  | JStr s => quote s
  | JArr l => "[" ++ join "," (map stringify l) ++ "]"
  | JObj l =>
      "{" ++ join "," (map (fun kv => quote (fst kv) ++ ":" ++ stringify (snd kv)) l)
          ++ "}"
  end.

Definition newline : string := String (ascii_of_nat 10) "".

(** [JSON.stringify(v, null, gap)] at the current indentation [ind] *)
Fixpoint stringify_indent (gap ind : string) (v : json) : string :=
  match v with
  | JNull => "null"
  | JBool true => "true"
  | JBool false => "false"
  | JNum n => number n
  | JStr s => quote s
  | JArr [] => "[]"
  | JArr l =>
      let ind' := ind ++ gap in
      "[" ++ newline ++ ind'
        ++ join ("," ++ newline ++ ind') (map (stringify_indent gap ind') l)
        ++ newline ++ ind ++ "]"
  | JObj [] => "{}"
  | JObj l =>
      let ind' := ind ++ gap in
      "{" ++ newline ++ ind'
        ++ join ("," ++ newline ++ ind')
             (map (fun kv => quote (fst kv) ++ ": "
                               ++ stringify_indent gap ind' (snd kv)) l)
        ++ newline ++ ind ++ "}"
  end.

Definition stringify_pretty (gap : string) (v : json) : string :=
  stringify_indent gap "" v.

(** *** JSON.parse

    The text is cut into tokens by an automaton that reads one unit at a
    time, and the tokens are read by recursive descent. *)

Inductive token : Type :=
| TLBrace | TRBrace | TLBrack | TRBrack | TColon | TComma
| TNull | TTrue | TFalse
| TNum (x : Number.t)
| TStr (s : string).

Inductive mode : Type :=
| MStart                                   (* between tokens *)
| MWord (rest : string) (t : token)        (* in null, true, false *)
| MNum (racc : string)                     (* in a numeral, units read last first *)
| MStr (racc : string)                     (* in a string, units read last first *)
| MEsc (racc : string)                     (* after a backslash *)
| MHex (racc : string) (k : nat) (code : N). (* in a unicode escape, k digits to go *)

Definition lstate : Type := (mode * list token)%type.

Definition is_ws (c : ascii) : bool :=
  let n := nat_of_ascii c in
  (n =? 32) || (n =? 9) || (n =? 10) || (n =? 13).

Definition hex_val (c : ascii) : option N :=
  let n := nat_of_ascii c in
  if (48 <=? n) && (n <=? 57) then Some (N.of_nat (n - 48))
  else if (97 <=? n) && (n <=? 102) then Some (N.of_nat (n - 87))
  else if (65 <=? n) && (n <=? 70) then Some (N.of_nat (n - 55))
  else None.

(** The UTF-8 form of a code point.  A surrogate, which is no code point of
    a text, is written in the same three bytes. *)
Definition utf8 (code : N) : string :=
  (if code <? 128 then String (ascii_of_N code) ""
   else if code <? 2048 then
     String (ascii_of_N (192 + code / 64))
       (String (ascii_of_N (128 + code mod 64)) "")
   else if code <? 65536 then
     String (ascii_of_N (224 + code / 4096))
       (String (ascii_of_N (128 + (code / 64) mod 64))
          (String (ascii_of_N (128 + code mod 64)) ""))
   else
     String (ascii_of_N (240 + code / 262144))
       (String (ascii_of_N (128 + (code / 4096) mod 64))
          (String (ascii_of_N (128 + (code / 64) mod 64))
             (String (ascii_of_N (128 + code mod 64)) ""))))%N.

(** The string read so far, last unit first, ends with a high surrogate:
    the surrogate, and the units before it. *)
Definition high_surrogate (racc : string) : option (N * string) :=
  match racc with
  | String c3 (String c2 (String c1 r)) =>
      let '(b1, b2, b3) := (N_of_ascii c1, N_of_ascii c2, N_of_ascii c3) in
      if ((b1 =? 237) && (160 <=? b2) && (b2 <=? 175)
          && (128 <=? b3) && (b3 <=? 191))%N
      then Some (55296 + 64 * (b2 - 160) + (b3 - 128), r)%N
      else None
  | _ => None
  end.

(** The units of a string after the escape of the code unit [code]: a low
    surrogate that follows a high one makes one code point with it. *)
Definition escaped (code : N) (racc : string) : string :=
  match
    if ((56320 <=? code) && (code <=? 57343))%N then high_surrogate racc
    else None
  with
  | Some (high, r) =>
      Str.rev_append
        (utf8 (65536 + 1024 * (high - 55296) + (code - 56320))%N) r
  | None => Str.rev_append (utf8 code) racc
  end.

(** A unit of a numeral. *)
Definition in_number (c : ascii) : bool :=
  Number.is_digit c
  || match c with "+" | "-" | "." | "e" | "E" => true | _ => false end%char.

Definition start_step (toks : list token) (c : ascii) : option lstate :=
  if is_ws c then Some (MStart, toks)
  else
    match c with
    | "{" => Some (MStart, TLBrace :: toks)
    | "}" => Some (MStart, TRBrace :: toks)
    | "[" => Some (MStart, TLBrack :: toks)
    | "]" => Some (MStart, TRBrack :: toks)
    | ":" => Some (MStart, TColon :: toks)
    | "," => Some (MStart, TComma :: toks)
    | "n" => Some (MWord "ull" TNull, toks)
    | "t" => Some (MWord "rue" TTrue, toks)
    | "f" => Some (MWord "alse" TFalse, toks)
    | "-" => Some (MNum "-", toks)
    | _ =>
        if Ascii.eqb c (ascii_of_nat 34) then Some (MStr "", toks)
        else if Number.is_digit c then Some (MNum (String c ""), toks)
        else None
    end%char.

(** The numeral that has been read, as a token. *)
Definition number_token (racc : string) : option token :=
  option_map TNum (Number.of_json (Str.rev racc)).

Definition step (st : lstate) (c : ascii) : option lstate :=
  let '(m, toks) := st in
  match m with
  | MStart => start_step toks c
  | MWord EmptyString _ => None
  | MWord (String x r) t =>
      if Ascii.eqb c x then
        match r with
        | EmptyString => Some (MStart, t :: toks)
        | _ => Some (MWord r t, toks)
        end
      else None
  | MNum racc =>
      if in_number c then Some (MNum (String c racc), toks)
      else
        match number_token racc with
        | Some t => start_step (t :: toks) c
        | None => None
        end
  | MStr racc =>
      let n := nat_of_ascii c in
      if n =? 34 then Some (MStart, TStr (Str.rev racc) :: toks)
      else if n =? 92 then Some (MEsc racc, toks)
      else if n <? 32 then None
      else Some (MStr (String c racc), toks)
  | MEsc racc =>
      let n := nat_of_ascii c in
      if (n =? 34) || (n =? 92) || (n =? 47) then Some (MStr (String c racc), toks)
      else
        match c with
        | "b" => Some (MStr (String (ascii_of_nat 8) racc), toks)
        | "f" => Some (MStr (String (ascii_of_nat 12) racc), toks)
        | "n" => Some (MStr (String (ascii_of_nat 10) racc), toks)
        | "r" => Some (MStr (String (ascii_of_nat 13) racc), toks)
        | "t" => Some (MStr (String (ascii_of_nat 9) racc), toks)
        | "u" => Some (MHex racc 4 0%N, toks)
        | _ => None
        end%char
  | MHex racc k code =>
      match hex_val c with
      | None => None
      | Some h =>
          let code' := (16 * code + h)%N in
          match k with
          | 0 => None
          | 1 => Some (MStr (escaped code' racc), toks)
          | S k' => Some (MHex racc k' code', toks)
          end
      end
  end.

Fixpoint run (st : lstate) (s : string) : option lstate :=
  match s with
  | EmptyString => Some st
  | String c r =>
      match step st c with
      | Some st' => run st' r
      | None => None
      end
  end.

(** The end of the text ends a numeral; it may not fall inside another
    token.  The tokens come out last first. *)
Definition flush (st : lstate) : option (list token) :=
  let '(m, toks) := st in
  match m with
  | MStart => Some toks
  | MNum racc => option_map (fun t => t :: toks) (number_token racc)
  | _ => None
  end.

Definition lex (s : string) : option (list token) :=
  match run (MStart, []) s with
  | Some st => option_map (@List.rev token) (flush st)
  | None => None
  end.

Fixpoint parse_value (fuel : nat) (ts : list token) {struct fuel}
  : option (json * list token) :=
  match fuel with
  | 0 => None
  | S f =>
      match ts with
      | TNull :: r => Some (JNull, r)
      | TTrue :: r => Some (JBool true, r)
      | TFalse :: r => Some (JBool false, r)
      | TNum x :: r => Some (JNum x, r)
      | TStr s :: r => Some (JStr s, r)
      | TLBrack :: TRBrack :: r => Some (JArr [], r)
      | TLBrack :: r =>
          match parse_items f r with
          | Some (l, r') => Some (JArr l, r')
          | None => None
          end
      | TLBrace :: TRBrace :: r => Some (JObj [], r)
      | TLBrace :: r =>
          match parse_members f r with
          | Some (l, r') => Some (JObj (Obj.of_members l), r')
          | None => None
          end
      | _ => None
      end
  end
with parse_items (fuel : nat) (ts : list token) {struct fuel}
  : option (list json * list token) :=
  match fuel with
  | 0 => None
  | S f =>
      match parse_value f ts with
      | Some (v, TComma :: r) =>
          match parse_items f r with
          | Some (l, r') => Some (v :: l, r')
          | None => None
          end
      | Some (v, TRBrack :: r) => Some ([v], r)
      | _ => None
      end
  end
with parse_members (fuel : nat) (ts : list token) {struct fuel}
  : option (list (string * json) * list token) :=
  match fuel with
  | 0 => None
  | S f =>
      match ts with
      | TStr k :: TColon :: r =>
          match parse_value f r with
          | Some (v, TComma :: r') =>
              match parse_members f r' with
              | Some (l, r'') => Some ((k, v) :: l, r'')
              | None => None
              end
          | Some (v, TRBrace :: r') => Some ([(k, v)], r')
          | _ => None
          end
      | _ => None
      end
  end.

(** The tokens of a value, as both ways of writing it spell them. *)
Fixpoint sepby (sep : token) (l : list (list token)) : list token :=
  match l with
  | [] => []
  | [x] => x
  | x :: r => x ++ sep :: sepby sep r
  end.

Fixpoint tokens (v : json) : list token :=
  match v with
  | JNull => [TNull]
  | JBool true => [TTrue]
  | JBool false => [TFalse]
  | JNum n => if Number.is_finite n then [TNum n] else [TNull]
  | JStr s => [TStr s]
  | JArr l => TLBrack :: sepby TComma (map tokens l) ++ [TRBrack]
  | JObj l =>
      TLBrace
        :: sepby TComma
             (map (fun kv => TStr (fst kv) :: TColon :: tokens (snd kv)) l)
        ++ [TRBrace]
  end.

Fixpoint distinct (l : list string) : bool :=
  match l with
  | [] => true
  | k :: r => negb (existsb (String.eqb k) r) && distinct r
  end.

(** A value as an object graph holds it: a Number that is finite is in the
    form of the embedding, no object has two members of one name, and the
    members of an object are in the order of enumeration. *)
Fixpoint sound (v : json) : bool :=
  match v with
  | JNum n => negb (Number.is_finite n) || Number.canonical n
  | JArr l => forallb sound l
  | JObj l =>
      distinct (map fst l) && Obj.ordered (map fst l)
      && forallb (fun kv => sound (snd kv)) l
  | _ => true
  end.

(** A token, and a state of the automaton, whose Numbers are in the form
    of the embedding. *)
Definition sound_token (t : token) : bool :=
  match t with
  | TNum x => negb (Number.is_finite x) || Number.canonical x
  | _ => true
  end.

Definition sound_state (st : lstate) : bool :=
  let '(m, toks) := st in
  forallb sound_token toks
  && match m with MWord _ t => sound_token t | _ => true end.

(** A value that a JSON text can hold: one whose Numbers are all finite,
    with the members of its objects under distinct names, in the order in
    which an object enumerates them. *)
Fixpoint wf (v : json) : bool :=
  match v with
  | JNum n => Number.canonical n
  | JArr l => forallb wf l
  | JObj l =>
      distinct (map fst l) && Obj.ordered (map fst l)
      && forallb (fun kv => wf (snd kv)) l
  | _ => true
  end.

(** What is left of a value in a JSON text: a Number that is not finite is
    written [null]. *)
Fixpoint finite (v : json) : json :=
  match v with
  | JNum n => if Number.is_finite n then v else JNull
  | JArr l => JArr (map finite l)
  | JObj l => JObj (map (fun kv => (fst kv, finite (snd kv))) l)
  | _ => v
  end.

(** [JSON.parse(text)]: the value, or a SyntaxError. *)
Definition parse (text : string) : completion json :=
  match lex text with
  | Some ts =>
      match parse_value (2 * List.length ts + 2) ts with
      | Some (v, []) => Returned v
      | _ => Threw (SyntaxError "Unexpected token in JSON")
      end
  | None => Threw (SyntaxError "Unexpected token in JSON")
  end.

End JSON.

(** *** ToString, ToNumber and [==] *)

(** An object that [JSON.parse] made converts to a primitive value through
    the [toString] it inherits, unless a member of that name, which is no
    function, stands in its way; an array converts its items. *)
Fixpoint converts (v : json) : bool :=
  match v with
  | JArr l => forallb converts l
  | JObj members => negb (Obj.has "toString" members)
  | _ => true
  end.

Definition cannot_convert : exn :=
  TypeError "Cannot convert object to primitive value".

(** ToString(v), as a template or the concatenation with a string
    computes it, for a value that converts. *)
Fixpoint ToString (v : json) : string :=
  match v with
  | JNull => "null"
  | JBool true => "true"
  | JBool false => "false"
  | JNum n => Number.to_string n
  | JStr s => s
  | JArr l =>
      JSON.join ","
        (map (fun x => match x with JNull => "" | _ => ToString x end) l)
  | JObj _ => "[object Object]"
  end.

(** ToString of a member of an object, [undefined] when it is missing *)
Definition ToString_opt (v : option json) : string :=
  match v with Some x => ToString x | None => "undefined" end.

(** ToString of a member of an object, or the TypeError of a value that
    does not convert. *)
Definition text_of (v : option json) : completion string :=
  match v with
  | Some x =>
      if converts x then Returned (ToString x) else Threw cannot_convert
  | None => Returned "undefined"
  end.

(** All of the text is white space. *)
Definition blank (s : string) : bool :=
  negb (Str.nonempty (ParseInt.trim_start s)).

Fixpoint trim_end (s : string) : string :=
  match s with
  | EmptyString => EmptyString
  | String c r => if blank s then EmptyString else String c (trim_end r)
  end.

(** The value of the digits of [s] in the base [radix], if they all are
    digits of it. *)
Fixpoint radix_value (radix acc : N) (s : string) : option N :=
  match s with
  | EmptyString => Some acc
  | String c r =>
      match JSON.hex_val c with
      | Some d =>
          if (d <? radix)%N then radix_value radix (radix * acc + d) r
          else None
      | None => None
      end
  end.

(** A numeral with a prefix of its base: [0x], [0o] or [0b]. *)
Definition radix_literal (s : string) : option N :=
  match s with
  | String "0" (String p r) =>
      let radix :=
        match p with
        | "x" | "X" => Some 16%N
        | "o" | "O" => Some 8%N
        | "b" | "B" => Some 2%N
        | _ => None
        end%char in
      match radix with
      | Some b => if Str.nonempty r then radix_value b 0 r else None
      | None => None
      end
  | _ => None
  end.

(** StringToNumber: the Number a string is compared as. *)
Definition StringToNumber (s : string) : Number.t :=
  let t := trim_end (ParseInt.trim_start s) in
  if negb (Str.nonempty t) then Number.zero
  else
    match radix_literal t with
    | Some n => Number.of_N n
    | None =>
        let '(neg, r) := ParseInt.sign_and_rest t in
        if String.eqb r "Infinity" then Number.Infinity neg
        else
          let '(int, r1) := Str.break Number.not_digit r in
          let '(f, r2) :=
            match r1 with
            | String "." r' => Str.break Number.not_digit r'
            | _ => (EmptyString, r1)
            end in
          if Str.nonempty int || Str.nonempty f then
            match Number.exponent_part r2 with
            | Some x =>
                Number.of_decimal neg (Number.digits_value 0 (int ++ f))
                  (x - Z.of_nat (String.length f))
            | None => Number.NaN
            end
          else Number.NaN
    end.

(** [s == v] for a string [s]: a string is compared as it is, a Number
    and a boolean with the Number the string writes, an object with its
    text, which throws when it has none; null is equal to no string. *)
Definition loosely_equal (s : string) (v : json) : completion bool :=
  match v with
  | JNull => Returned false
  | JBool b =>
      Returned (Number.equal (StringToNumber s)
                  (if b then Number.one else Number.zero))
  | JNum n => Returned (Number.equal (StringToNumber s) n)
  | JStr t => Returned (String.eqb s t)
  | JArr _ | JObj _ =>
      if converts v then Returned (String.eqb s (ToString v))
      else Threw cannot_convert
  end.


(** How the automaton reads a piece of text, in three strengths: from the
    start state, up to a number that may go on; from the start state, back to
    it; and after any token that the end of the text would end, back to the
    start state. *)
Definition reads_value (s : string) (ts : list JSON.token) : Prop :=
  forall toks, exists st,
    JSON.run (JSON.MStart, toks) s = Some st /\
    JSON.flush st = Some (List.rev ts ++ toks)%list.

Definition reads_closed (s : string) (ts : list JSON.token) : Prop :=
  forall toks,
    JSON.run (JSON.MStart, toks) s = Some (JSON.MStart, (List.rev ts ++ toks)%list).

Definition reads_sep (s : string) (ts : list JSON.token) : Prop :=
  forall st toks, JSON.flush st = Some toks ->
    JSON.run st s = Some (JSON.MStart, (List.rev ts ++ toks)%list).

(** A token a value may start with. *)
Definition value_start (t : JSON.token) : Prop :=
  match t with
  | JSON.TRBrack | JSON.TRBrace | JSON.TColon | JSON.TComma => False
  | _ => True
  end.

(** The tokens of [v], whatever follows them, are read back as [v]. *)
Definition reads_back (v : json) : Prop :=
  JSON.wf v = true -> forall fuel rest,
    2 * List.length (JSON.tokens v) < fuel ->
    JSON.parse_value fuel (JSON.tokens v ++ rest)%list = Some (v, rest).

(** ** The server and its keys *)

Record Config : Type := {
  failSometimes : nat;               (* config.testing.failSometimes *)
  slowResponse : nat;                (* config.testing.slowResponse *)
  gaId : string;                     (* config.gaId, empty when unset *)
  sentryPublicDSN : option string    (* config.sentryPublicDSN *)
}.

(** Modelled from the spec: [dbschema.js] is not among the sources.  The key
    set is an ordered list of secret keys, newest first, which always holds
    at least one key; [getTextKeys()] is that list and [getKeygrip()] the
    Keygrip made of it.  The keyed hash behind the signatures
    ([crypto.createHmac]) is a field of the server. *)
Record Server : Type := {
  hmac : string -> string -> string; (* key, data, digest bytes *)
  newestKey : string;
  olderKeys : list string;
  config : Config
}.

Definition getTextKeys (srv : Server) : list string :=
  newestKey srv :: olderKeys srv.

(** *** Keygrip: sign with the newest key, verify against any *)

Module Keygrip.

(** [.replace(/\/|\+|=/g, ...)]: the URL-safe form of a base64 digest. *)
Fixpoint urlsafe (s : string) : string :=
  match s with
  | EmptyString => EmptyString
  | String c r =>
      match c with
      | "/" => String "_" (urlsafe r)
      | "+" => String "-" (urlsafe r)
      | "=" => urlsafe r
      | _ => String c (urlsafe r)
      end%char
  end.

Definition sign_with (srv : Server) (key data : string) : string :=
  urlsafe (Base64.encode (hmac srv key data)).

(** [keygrip.sign(data)] *)
Definition sign (srv : Server) (data : string) : string :=
  sign_with srv (newestKey srv) data.

Fixpoint index_from (srv : Server) (keys : list string) (i : nat)
    (data digest : string) : option nat :=
  match keys with
  | [] => None
  | k :: r =>
      if String.eqb digest (sign_with srv k data) then Some i
      else index_from srv r (S i) data digest
  end.

(** [keygrip.index(data, digest)]: the first key the digest matches, if any *)
Definition index (srv : Server) (data digest : string) : option nat :=
  index_from srv (getTextKeys srv) 0 data digest.

(** [keygrip.verify(data, digest)] *)
Definition verify (srv : Server) (data digest : string) : bool :=
  match index srv data digest with
  | Some _ => true
  | None => false
  end.

End Keygrip.

(** ** Requests, and what a handler does *)

(** [req.body] after the body parsers, in two parts: the members that hold
    a string and the members that hold any other value.  [body_member] reads
    a member of either part. *)
Record Body : Type := {
  text : list (string * string);
  data : list (string * json)
}.

Record Request : Type := {
  protocol : string;
  url : string;
  headers : list (string * string);   (* names in lower case *)
  cookies : list (string * string);   (* the Cookie header, cut up *)
  query : list (string * string);
  params : list (string * string);
  body : Body;
  (* set by the middleware *)
  deviceId : option string;
  abTests : json;
  backend : string
}.

Definition with_auth (req : Request) (d : option string) (a : json)
    (b : string) : Request :=
  {| protocol := protocol req; url := url req; headers := headers req;
     cookies := cookies req; query := query req; params := params req;
     body := body req; deviceId := d; abTests := a; backend := b |}.

Definition with_deviceId (req : Request) (d : option string) : Request :=
  with_auth req d (abTests req) (backend req).

(** A header or a member as [if (x)] sees it: present and not empty. *)
Definition present (x : option string) : option string :=
  match x with
  | Some s => if Str.nonempty s then Some s else None
  | None => None
  end.

Definition param (k : string) (req : Request) : string :=
  match Obj.get k (params req) with Some s => s | None => "undefined" end.

(** A shot as the store hands it out. *)
Record ShotRow : Type := {
  shot_id : string;
  shot_deviceId : string;            (* the owner *)
  shot_userTitle : option string
}.

(** What a handler does, in the order it does it.  Calls into the modules
    that are not among the sources ([responses.js], [servershot.js],
    [users.js], [ravenclient.js]) are recorded with their arguments; what they
    give back is an argument of the handler.  Console logging is left out. *)
Inductive effect : Type :=
| SimpleResponse (message : string) (status : nat)
| ErrorResponse (message : string) (err : exn)
| ResEnd
| ResStatusSend (status : nat) (message : string)
| ResSendStatus (status : nat)
| ResRedirect (location : string)
| ResSendJson (value : string)
| ResWriteHead (status : nat) (statusMessage : string)
    (hdrs : list (string * string))
| CookieSet (name : string) (value : option string)
| RavenMessage (message : string)
| GaEvent (cid : string) (action : string)
| NextError (name : string)
| SubRequest (protocol : option string) (host : string)
    (port path : option string) (hdrs : list (string * string))
| RegisterLogin (device : string) (canUpdate : bool)
| CheckLogin (device : option string) (secret : option string)
    (addonVersion : option json)
| UpdateLogin (device : string)
| ShotInsert (owner backend shotId : string)
| ShotUpdate (owner backend shotId : string) (userTitle : option json)
| ShotGet (backend shotId : string)
| ShotGetRawValue (shotId : string)
| ShotDeleteShot (backend : string) (shotId : option json) (device : string)
| ShotSetExpiration (backend : string) (shotId : option json)
    (device : string) (expiration : Number.t)
| ShotDeleteEverythingForDevice (backend : string) (device : option string).

(** The response the client receives is the first one written. *)
Definition is_response (e : effect) : bool :=
  match e with
  | SimpleResponse _ _ | ErrorResponse _ _ | ResEnd | ResStatusSend _ _
  | ResSendStatus _ | ResRedirect _ | ResSendJson _ | ResWriteHead _ _ _
  | NextError _ => true
  | _ => false
  end.

Definition first_response (t : list effect) : option effect :=
  find is_response t.

(** A call that changes what the shot store holds. *)
Definition is_shot_write (e : effect) : bool :=
  match e with
  | ShotInsert _ _ _ | ShotUpdate _ _ _ _ | ShotDeleteShot _ _ _
  | ShotSetExpiration _ _ _ _ | ShotDeleteEverythingForDevice _ _ => true
  | _ => false
  end.

(** The device a call into a store acts for. *)
Definition acts_for (e : effect) : option (option string) :=
  match e with
  | UpdateLogin d => Some (Some d)
  | ShotInsert d _ _ => Some (Some d)
  | ShotUpdate d _ _ _ => Some (Some d)
  | ShotDeleteShot _ _ d => Some (Some d)
  | ShotSetExpiration _ _ d _ => Some (Some d)
  | ShotDeleteEverythingForDevice _ d => Some d
  | _ => None
  end.

(** ** The credential codec *)

(** Modelled from the spec: [b64.js] is not among the sources.  The
    credential carries [b64(json(abTests))]: the base64 form of the JSON text
    of the value, and back. *)
Definition b64EncodeJson (v : json) : string :=
  Base64.encode (JSON.stringify v).

Definition b64DecodeJson (s : string) : completion json :=
  JSON.parse (Base64.decode s).

Definition is_colon (c : ascii) : bool := Ascii.eqb c ":".
Definition is_semicolon (c : ascii) : bool := Ascii.eqb c ";".

(** What [.] does not match, among the 8-bit units. *)
Definition line_terminator (c : ascii) : bool :=
  let n := nat_of_ascii c in (n =? 10) || (n =? 13).

(** The pattern of [decodeAuthHeader], run on the header: a group
    [[^:]+], a colon, a group [[^;]+], the text [;abTests=], a group
    [[^:]+], a colon, and to the end of the input a last group of units
    that [.] matches; the result is the four groups.  Each of the first three
    groups stops at the first unit its class excludes, which the pattern then
    asks for, so that the match, if there is one, is found without going
    back. *)
Definition match_auth_header (header : string)
  : option (string * string * string * string) :=
  let '(g1, r1) := Str.break is_colon header in
  match r1 with
  | EmptyString => None
  | String _ r1' =>
      if negb (Str.nonempty g1) then None
      else
        let '(g2, r2) := Str.break is_semicolon r1' in
        if negb (Str.nonempty g2) then None
        else
          match Str.strip_prefix ";abTests=" r2 with
          | None => None
          | Some r3 =>
              let '(g3, r4) := Str.break is_colon r3 in
              match r4 with
              | EmptyString => None
              | String _ g4 =>
                  if Str.nonempty g3
                     && Str.all (fun c => negb (line_terminator c)) g4
                  then Some (g1, g2, g3, g4)
                  else None
              end
          end
  end.

(** The shape the pattern describes. *)
Definition auth_header_shape (header g1 g2 g3 g4 : string) : Prop :=
  header = g1 ++ ":" ++ g2 ++ ";abTests=" ++ g3 ++ ":" ++ g4 /\
  Str.nonempty g1 = true /\ Str.all (fun c => negb (is_colon c)) g1 = true /\
  Str.nonempty g2 = true /\ Str.all (fun c => negb (is_semicolon c)) g2 = true /\
  Str.nonempty g3 = true /\ Str.all (fun c => negb (is_colon c)) g3 = true /\
  Str.all (fun c => negb (line_terminator c)) g4 = true.

(** The object [decodeAuthHeader] returns: [{}] or [{deviceId, abTests}]. *)
Record AuthInfo : Type := {
  ai_deviceId : option string;
  ai_abTests : option json
}.

Definition empty_auth : AuthInfo :=
  {| ai_deviceId := None; ai_abTests := None |}.

Definition decodeAuthHeader (srv : Server) (header : string)
  : completion AuthInfo :=
  match match_auth_header header with
  | None => Returned empty_auth
  | Some (deviceId, deviceIdSig, abTestsEncoded, abTestsEncodedSig) =>
      if negb (Keygrip.verify srv deviceId deviceIdSig
               && Keygrip.verify srv abTestsEncoded abTestsEncodedSig)
      then Returned empty_auth
      else
        let* abTests := b64DecodeJson abTestsEncoded in
        Returned {| ai_deviceId := Some deviceId; ai_abTests := Some abTests |}
  end.

(** [/^[a-zA-Z0-9_-]+$/] *)
Definition is_id_char (c : ascii) : bool :=
  let n := nat_of_ascii c in
  Base64.between 97 122 n || Base64.between 65 90 n || Base64.between 48 57 n
  || (n =? 95) || (n =? 45).

(** A unit of a base64 text: of the alphabet, or the padding. *)
Definition is_b64_char (c : ascii) : bool :=
  let n := nat_of_ascii c in
  Base64.between 97 122 n || Base64.between 65 90 n || Base64.between 48 57 n
  || (n =? 43) || (n =? 47) || (n =? 61).

Definition valid_deviceId (s : string) : bool :=
  Str.nonempty s && Str.all is_id_char s.

(** The header form of a credential, as [sendAuthInfo] writes it. *)
Definition authHeader (srv : Server) (deviceId : string) (userAbTests : json)
  : string :=
  let encodedAbTests := b64EncodeJson userAbTests in
  deviceId ++ ":" ++ Keygrip.sign srv deviceId ++ ";abTests="
    ++ encodedAbTests ++ ":" ++ Keygrip.sign srv encodedAbTests.

(** [cookies.set(name, value, {signed: true})]: the cookie and its
    signature. *)
Definition cookies_set_signed (srv : Server) (name value : string)
  : list effect :=
  [CookieSet name (Some value);
   CookieSet (name ++ ".sig") (Some (Keygrip.sign srv (name ++ "=" ++ value)))].

(** [cookies.get(name, {signed: true})]: the value, when its signature
    cookie is there and verifies. *)
Definition cookies_get_signed (srv : Server) (req : Request) (name : string)
  : option string :=
  match Obj.get name (cookies req) with
  | None => None
  | Some value =>
      match present (Obj.get (name ++ ".sig") (cookies req)) with
      | None => None
      | Some remote =>
          if Keygrip.verify srv (name ++ "=" ++ value) remote
          then Some value else None
      end
  end.

Definition opt_member (k : string) (v : option string)
  : list (string * json) :=
  match v with Some s => [(k, JStr s)] | None => [] end.

Definition sendAuthInfo (srv : Server) (req : Request)
    (deviceId : option string) (userAbTests : json)
  : completion (list effect) :=
  match deviceId with
  | None => Threw (TypeError "Cannot read property 'search' of undefined")
  | Some deviceId =>
      if negb (valid_deviceId deviceId) then Threw (Error "Bad deviceId")
      else
        let encodedAbTests := b64EncodeJson userAbTests in
        let responseJson :=
          JObj ([("ok", JStr "User created")]
                  ++ opt_member "sentryPublicDSN" (sentryPublicDSN (config srv))
                  ++ [("abTests", userAbTests);
                      ("authHeader", JStr (authHeader srv deviceId userAbTests))])
        in
        Returned (cookies_set_signed srv "user" deviceId
                    ++ cookies_set_signed srv "abtests" encodedAbTests
                    ++ [SimpleResponse (JSON.stringify responseJson) 200])%list
  end.

(** ** The middleware that settles who the request is from *)

(** [authInfo.abTests || {}] *)
Definition abTests_or_empty (a : option json) : json :=
  match a with
  | Some v => if truthy v then v else JObj []
  | None => JObj []
  end.

Definition host (req : Request) : string :=
  match Obj.get "host" (headers req) with Some h => h | None => "undefined" end.

Definition auth_info (srv : Server) (req : Request) : completion AuthInfo :=
  match present (Obj.get "x-pageshot-auth" (headers req)) with
  | Some authHeader => decodeAuthHeader srv authHeader
  | None =>
      let deviceId := cookies_get_signed srv req "user" in
      match present (cookies_get_signed srv req "abtests") with
      | Some abTests =>
          let* abTests := b64DecodeJson abTests in
          Returned {| ai_deviceId := deviceId; ai_abTests := Some abTests |}
      | None => Returned {| ai_deviceId := deviceId; ai_abTests := None |}
      end
  end.

(** The first middleware: the credential of the header, or else of the
    cookies. *)
Definition auth_middleware (srv : Server) (req : Request)
  : completion Request :=
  let* authInfo := auth_info srv req in
  Returned
    (with_auth req
       (match present (ai_deviceId authInfo) with
        | Some d => Some d
        | None => deviceId req
        end)
       (abTests_or_empty (ai_abTests authInfo))
       (protocol req ++ "://" ++ host req)).

(** The second middleware: a request that shows one of the server's keys
    acts as the device it names. *)
Definition magic_auth_middleware (srv : Server) (req : Request) : Request :=
  match present (Obj.get "x-magic-auth" (headers req)) with
  | Some magicAuth =>
      if existsb (String.eqb magicAuth) (getTextKeys srv)
      then with_deviceId req (Obj.get "x-device-id" (headers req))
      else req
  | None => req
  end.

Definition middleware (srv : Server) (req : Request) : completion Request :=
  let* req' := auth_middleware srv req in
  Returned (magic_auth_middleware srv req').

(** ** The handlers *)

Definition text_field (k : string) (req : Request) : option string :=
  Obj.get k (text (body req)).

Definition data_field (k : string) (req : Request) : option json :=
  Obj.get k (data (body req)).

(** [req.body[k]], whatever it holds *)
Definition body_member (k : string) (req : Request) : option json :=
  match text_field k req with
  | Some s => Some (JStr s)
  | None => data_field k req
  end.

(** A member of the body as [if (x)] sees it: present and truthy. *)
Definition given (x : option json) : option json :=
  match x with
  | Some v => if truthy v then Some v else None
  | None => None
  end.

Definition shotId_of (req : Request) : string :=
  param "id" req ++ "/" ++ param "domain" req.

(** The last middleware: an error that is not one of the application's. *)
Definition general_error (err : exn) : list effect :=
  [ErrorResponse "General error:" err].

(** What Express does with a handler: its effects, or those of the error
    middleware when it throws. *)
Definition handled (c : completion (list effect)) : list effect :=
  match c with
  | Returned t => t
  | Threw err => general_error err
  end.


(** POST /api/update *)
Definition update (req : Request) (updated : completion bool) : list effect :=
  match present (deviceId req) with
  | None => [NextError "missingSession"]
  | Some d =>
      UpdateLogin d ::
      match updated with
      | Returned true => [ResSendStatus 204]
      | Returned false => [NextError "badSession"]
      | Threw _ => [NextError "badParams"]
      end
  end.

Definition json_error (message : string) : string :=
  "{" ++ JSON.quote "error" ++ ": " ++ JSON.quote message ++ "}".

(** An error in a template string *)
Definition exn_text (e : exn) : string :=
  match e with
  | TypeError m => "TypeError: " ++ m
  | SyntaxError m => "SyntaxError: " ++ m
  | Error m => "Error: " ++ m
  end.

Definition login_error (err : exn) : effect :=
  ErrorResponse
    (JSON.stringify (JObj [("error", JStr ("Error in login: " ++ exn_text err))]))
    err.

(** [deviceInfo.addonVersion], where [deviceInfo] is the parsed member of
    that name, or [{}] when it does not parse. *)
Definition addonVersion (req : Request) : completion (option json) :=
  let* text := text_of (body_member "deviceInfo" req) in
  match JSON.parse text with
  | Threw _ => Returned None
  | Returned JNull =>
      Threw (TypeError "Cannot read property 'addonVersion' of null")
  | Returned (JObj o) => Returned (Obj.get "addonVersion" o)
  | Returned _ => Returned None
  end.

(** POST /api/login, once [checkLogin] has settled with [checked]. *)
Definition login_then (srv : Server) (req : Request)
    (checked : completion json) : list effect :=
  match checked with
  | Threw err => [login_error err]
  | Returned userAbTests =>
      if truthy userAbTests then
        match sendAuthInfo srv req (text_field "deviceId" req) userAbTests with
        | Returned t =>
            (t ++ match text_field "deviceId" req with
                  | Some d =>
                      if Str.nonempty (gaId (config srv))
                      then [GaEvent d "api-login"] else []
                  | None => []
                  end)%list
        | Threw err => [login_error err]
        end
      else if negb (truthy userAbTests) then
        [SimpleResponse (json_error "No such user") 404]
      else
        [RavenMessage "Invalid login";
         SimpleResponse (json_error "Invalid login") 401]
  end.

(** Modelled from the spec: [users.js] is not among the sources.  A device
    of the registry holds the proof of its secret and its AB-test
    assignment; [login] returns null when the device is unknown, null when
    the secret does not match, and the assignment otherwise. *)
Record Device : Type := {
  secretHashed : string;
  ab_tests : json
}.

Definition checkLogin (createHash : string -> string)
    (devices : list (string * Device))
    (device secret : option string) : completion json :=
  match secret with
  | None => Threw (Error "No secret given")
  | Some secret =>
      match device with
      | None => Returned JNull
      | Some d =>
          match Obj.get d devices with
          | None => Returned JNull
          | Some row =>
              if String.eqb (createHash secret) (secretHashed row)
              then Returned (ab_tests row)
              else Returned JNull
          end
      end
  end.

Definition login (srv : Server) (createHash : string -> string)
    (devices : list (string * Device)) (req : Request)
  : completion (list effect) :=
  let* version := addonVersion req in
  Returned
    (CheckLogin (text_field "deviceId" req) (text_field "secret" req) version ::
     login_then srv req
       (checkLogin createHash devices (text_field "deviceId" req)
          (text_field "secret" req))).

(** POST /api/unload *)
Definition unload (req : Request) : completion (list effect) :=
  match text_field "reason" req with
  | None => Threw (TypeError "Cannot read property 'replace' of undefined")
  | Some reason =>
      Returned
        [CookieSet "user" None;
         CookieSet "user.sig" None;
         CookieSet "abtests" None;
         CookieSet "abtests.sig" None;
         SimpleResponse "Noted" 200]
  end.

(** [JSON.stringify({updates: commands.filter((x) => !!x)})] *)
Definition updates_json (commands : option (list json)) : string :=
  JSON.stringify
    (JObj [("updates",
            JArr (filter truthy
                    (match commands with Some l => l | None => [] end)))]).

(** [failSometimes && Math.floor(Math.random()*failSometimes)], where
    [rnd] is the number drawn. *)
Definition fails_artificially (srv : Server) (rnd : nat) : bool :=
  negb (failSometimes (config srv) =? 0) && negb (rnd =? 0).

(** Modelled from the spec: [contentcheck.js] is not among the sources.  The
    checks of the markup and of the attribute sets are arguments; each
    returns the list of the errors it finds. *)
Definition content_errors
    (checkContent : option json -> list string)
    (checkAttributes : option json -> string -> list string)
    (req : Request) : list string :=
  (checkContent (body_member "head" req)
     ++ checkContent (body_member "body" req)
     ++ checkAttributes (body_member "headAttrs" req) "head"
     ++ checkAttributes (body_member "bodyAttrs" req) "body"
     ++ checkAttributes (body_member "htmlAttrs" req) "html")%list.

(** PUT /data/:id/:domain.  [inserted] is what [shot.insert()] settles
    with, [updated] what [shot.update()] does when it is called.  The body
    is an object, as the body parsers leave it.  The comparison of the two
    device ids converts the one of the body, and what it throws goes to the
    last middleware. *)
Definition put_data (srv : Server) (rnd : nat)
    (checkContent : option json -> list string)
    (checkAttributes : option json -> string -> list string)
    (req : Request)
    (inserted updated : completion (option (list json))) : list effect :=
  if fails_artificially srv rnd then [ResEnd]
  else
    match given (body_member "deviceId" req) with
    | None =>
        [RavenMessage "Attempt PUT without deviceId in request body";
         SimpleResponse "No deviceId in body" 400]
    | Some bodyDeviceId =>
        match present (deviceId req) with
        | None =>
            [RavenMessage "Attempt PUT without authentication";
             SimpleResponse "Not logged in" 401]
        | Some d =>
            match loosely_equal d bodyDeviceId with
            | Threw err => general_error err
            | Returned false =>
                [RavenMessage "Attempted to save page for another user";
                 SimpleResponse
                   "Cannot save a page on behalf of another user" 403]
            | Returned true =>
                match content_errors checkContent checkAttributes req with
                | _ :: _ =>
                    [RavenMessage "Errors in submission";
                     SimpleResponse "Errors in submission" 400]
                | [] =>
                    ShotInsert d (backend req) (shotId_of req) ::
                    match inserted with
                    | Threw err => [ErrorResponse "Error saving Object:" err]
                    | Returned (Some commands) =>
                        [SimpleResponse (updates_json (Some commands)) 200]
                    | Returned None =>
                        ShotUpdate d (backend req) (shotId_of req) None ::
                        match updated with
                        | Threw err =>
                            [ErrorResponse "Error saving Object:" err]
                        | Returned commands =>
                            [SimpleResponse (updates_json commands) 200]
                        end
                    end
                end
            end
        end
    end.

(** [delete value.deviceId] *)
Definition delete_deviceId (value : json) : completion json :=
  match value with
  | JObj members => Returned (JObj (Obj.delete "deviceId" members))
  | JNull => Threw (TypeError "Cannot convert undefined or null to object")
  | _ => Returned value
  end.

(** The body GET /data/:id/:domain sends for the stored text [value]. *)
Definition public_value (req : Request) (value : string) : completion string :=
  let* parsed := JSON.parse value in
  let* stripped := delete_deviceId parsed in
  let value := JSON.stringify stripped in
  if Obj.has "format" (query req) then
    let* again := JSON.parse value in
    Returned (JSON.stringify_pretty "  " again)
  else Returned value.

(** GET /data/:id/:domain.  [raw] is what [Shot.getRawValue] settles with:
    the stored JSON text of the shot, if there is one. *)
Definition get_data (req : Request) (raw : completion (option string))
  : list effect :=
  ShotGetRawValue (shotId_of req) ::
  match raw with
  | Threw err => [ErrorResponse "Error serving data:" err]
  | Returned None => [SimpleResponse "No such shot" 404]
  | Returned (Some value) =>
      match public_value req value with
      | Returned v => [ResSendJson v]
      | Threw err => [ErrorResponse "Error serving data:" err]
      end
  end.

(** POST /api/delete-shot *)
Definition delete_shot (req : Request) (deleted : completion bool)
  : list effect :=
  match present (deviceId req) with
  | None =>
      [RavenMessage "Attempt to delete shot without login";
       SimpleResponse "Not logged in" 401]
  | Some d =>
      ShotDeleteShot (backend req) (body_member "id" req) d ::
      match deleted with
      | Returned true => [SimpleResponse "ok" 200]
      | Returned false =>
          [RavenMessage "Attempt to delete shot that does not exist";
           SimpleResponse "No such shot" 404]
      | Threw err => [ErrorResponse "Error: could not delete shot" err]
      end
  end.

(** POST /api/set-title/:id/:domain.  [got] is what [Shot.get] settles
    with, null when there is no such shot (as GET /oembed reads it);
    [updated] is what [shot.update()] does when it is called.  The second
    [then] runs whatever the first one did. *)
Definition set_title (req : Request) (got : completion (option ShotRow))
    (updated : completion unit) : list effect :=
  match body_member "title" req with
  | None => [SimpleResponse "No title given" 400]
  | Some userTitle =>
      match present (deviceId req) with
      | None =>
          [RavenMessage "Attempt to set title on shot without login";
           SimpleResponse "Not logged in" 401]
      | Some d =>
          ShotGet (backend req) (shotId_of req) ::
          match got with
          | Threw err => [ErrorResponse "Error updating title" err]
          | Returned None =>
              [ErrorResponse "Error updating title"
                 (TypeError "Cannot read property 'deviceId' of null")]
          | Returned (Some shot) =>
              if negb (String.eqb (shot_deviceId shot) d) then
                [SimpleResponse "Not the owner" 403;
                 SimpleResponse "Updated" 200]
              else
                ShotUpdate (shot_deviceId shot) (backend req) (shot_id shot)
                  (Some userTitle) ::
                match updated with
                | Returned _ => [SimpleResponse "Updated" 200]
                | Threw err => [ErrorResponse "Error updating title" err]
                end
          end
      end
  end.

(** POST /api/set-expiration.  [parseInt] reads the text of whatever the
    body holds, and what the conversion throws goes to the last
    middleware. *)
Definition set_expiration (req : Request) (result : completion bool)
  : list effect :=
  match present (deviceId req) with
  | None =>
      [RavenMessage "Attempt to set expiration without login";
       SimpleResponse "Not logged in" 401]
  | Some d =>
      let shotId := body_member "id" req in
      match text_of (body_member "expiration" req) with
      | Threw err => general_error err
      | Returned text =>
          let expiration := ParseInt.parseInt text in
          if Number.negative expiration then
            [RavenMessage "Attempt negative expiration";
             SimpleResponse "Error: negative expiration" 400]
          else if Number.is_nan expiration then
            [RavenMessage "Set expiration to non-number";
             SimpleResponse ("Error: bad expiration (" ++ text ++ ")") 400]
          else
            ShotSetExpiration (backend req) shotId d expiration ::
            match result with
            | Returned true => [SimpleResponse "ok" 200]
            | Returned false =>
                [RavenMessage
                   "Attempt to set expiration on shot that does not exist";
                 SimpleResponse "No such shot" 404]
            | Threw err =>
                [ErrorResponse "Error: could not set expiration on shot" err]
            end
      end
  end.

(** POST /leave of [pages/leave-screenshots/server.js], after the CSRF
    check.  The branch that answers 403 does not return. *)
Definition leave (req : Request) (deleted : completion unit) : list effect :=
  ((match present (deviceId req) with
    | None => [ResStatusSend 403 "You must have the addon installed to leave"]
    | Some _ => []
    end)
   ++ ShotDeleteEverythingForDevice (backend req) (deviceId req) ::
      match deleted with
      | Returned _ => [ResRedirect "/leave-screenshots/?complete"]
      | Threw _ => [ResStatusSend 500 "An error occurred"]
      end)%list.

(** *** The proxy *)

Definition PROXY_HEADER_WHITELIST : list (string * json) :=
  [("content-type", JBool true);
   ("content-encoding", JBool true);
   ("content-length", JBool true);
   ("last-modified", JBool true);
   ("etag", JBool true);
   ("date", JBool true);
   ("accept-ranges", JBool true);
   ("content-range", JBool true);
   ("retry-after", JBool true);
   ("via", JBool true)].

(** The properties every object literal inherits from [Object.prototype]:
    functions, and the accessor [__proto__], none of them falsy. *)
Definition Object_prototype : list string :=
  ["constructor"; "__defineGetter__"; "__defineSetter__"; "hasOwnProperty";
   "__lookupGetter__"; "__lookupSetter__"; "isPrototypeOf";
   "propertyIsEnumerable"; "toString"; "valueOf"; "__proto__";
   "toLocaleString"].

(** [if (o[k])] for an object literal [o]: an own property, or else an
    inherited one. *)
Definition literal_truthy (o : list (string * json)) (k : string) : bool :=
  match Obj.get k o with
  | Some v => truthy v
  | None => existsb (String.eqb k) Object_prototype
  end.

(** What the sub-request came back with. *)
Record Upstream : Type := {
  statusCode : nat;
  statusMessage : string;
  up_headers : list (string * string)   (* names in lower case *)
}.

(** The headers of the proxied response: [now] is [Date.now()] and
    [toUTCString] the method of that name. *)
Definition proxy_headers (now : Z) (toUTCString : Z -> string)
    (up : list (string * string)) : list (string * string) :=
  let passed :=
    fold_left
      (fun hs kv =>
         if literal_truthy PROXY_HEADER_WHITELIST (fst kv)
         then Obj.assign (fst kv) (snd kv) hs else hs)
      up [] in
  Obj.set "expires" (toUTCString (now + 2592000000)%Z)
    (Obj.set "cache-control" "public, max-age=2592000" passed).

Definition passthrough (req : Request) : list (string * string) :=
  fold_left
    (fun hs k =>
       match present (Obj.get k (headers req)) with
       | Some v => Obj.set k v hs
       | None => hs
       end)
    ["user-agent"; "if-modified-since"; "if-none-match"] [].

(** What [url.parse] makes of a URL, as far as the proxy reads it; a part
    the URL does not have is null. *)
Record Url : Type := {
  url_protocol : option string;
  url_host : option string;
  url_port : option string;
  url_path : option string
}.

(** GET /proxy.  [urlParse] is [require("url").parse]; [upstream] is what
    the sub-request comes back with.  The bytes of the body are passed on as
    they come. *)
Definition proxy (srv : Server) (urlParse : string -> Url) (now : Z)
    (toUTCString : Z -> string) (req : Request)
    (upstream : completion Upstream)
  : completion (list effect) :=
  match Obj.get "url" (query req) with
  | None => Threw (TypeError "First argument must be a string, Buffer, ArrayBuffer, Array, or array-like object.")
  | Some target =>
      let isValid :=
        match Obj.get "sig" (query req) with
        | Some sig => Keygrip.verify srv target sig
        | None => false
        end in
      if negb isValid then
        Returned [RavenMessage "Bad signature on proxy";
                  SimpleResponse "Bad signature" 403]
      else
        let parsed := urlParse target in
        match url_host parsed with
        | None => Threw (TypeError "Cannot read property 'split' of null")
        | Some h =>
            Returned
              (SubRequest (url_protocol parsed) (fst (Str.break is_colon h))
                 (url_port parsed) (url_path parsed) (passthrough req) ::
               match upstream with
               | Returned subres =>
                   [ResWriteHead (statusCode subres) (statusMessage subres)
                      (proxy_headers now toUTCString (up_headers subres))]
               | Threw err => [ErrorResponse "Error fetching:" err]
               end)
        end
  end.

(** ** HMAC-SHA1, the keyed hash Keygrip uses when it is given no other

    The handlers are stated for any keyed hash; this one makes the examples
    concrete. *)

Module SHA1.

Local Open Scope N_scope.

Definition mask32 : N := 4294967295.

Definition add32 (x y : N) : N := N.land (x + y) mask32.

Definition rotl (n : N) (x : N) : N :=
  N.land (N.lor (N.shiftl x n) (N.shiftr x (32 - n))) mask32.

Definition not32 (x : N) : N := N.lxor x mask32.

Fixpoint bytes_of_string (s : string) : list N :=
  match s with
  | EmptyString => []
  | String c r => N_of_ascii c :: bytes_of_string r
  end.

Fixpoint string_of_bytes (l : list N) : string :=
  match l with
  | [] => EmptyString
  | b :: r => String (ascii_of_N b) (string_of_bytes r)
  end.

Definition word_bytes (w : N) : list N :=
  [N.land (N.shiftr w 24) 255; N.land (N.shiftr w 16) 255;
   N.land (N.shiftr w 8) 255; N.land w 255].

Fixpoint words_of_bytes (l : list N) : list N :=
  match l with
  | a :: b :: c :: d :: r =>
      (N.shiftl a 24 + N.shiftl b 16 + N.shiftl c 8 + d) :: words_of_bytes r
  | _ => []
  end.

(** The message, the bit 1, zeros, and the length in bits on eight bytes, to
    a multiple of 64 bytes. *)
Definition pad (m : list N) : list N :=
  let len := N.of_nat (List.length m) in
  let zeros := N.to_nat ((119 - len mod 64) mod 64) in
  let bits := 8 * len in
  (m ++ 128 :: repeat 0 zeros
     ++ word_bytes (N.shiftr bits 32) ++ word_bytes (N.land bits mask32))%list.

(** The words of the schedule, last first. *)
Fixpoint extend (n : nat) (rev_ws : list N) : list N :=
  match n with
  | O => rev_ws
  | S n' =>
      let w := rotl 1 (N.lxor (N.lxor (nth 2 rev_ws 0) (nth 7 rev_ws 0))
                         (N.lxor (nth 13 rev_ws 0) (nth 15 rev_ws 0))) in
      extend n' (w :: rev_ws)
  end.

Definition state : Type := (N * N * N * N * N)%type.

Definition round (t : nat) (st : state) (w : N) : state :=
  let '(a, b, c, d, e) := st in
  let '(f, k) :=
    if (t <? 20)%nat then
      (N.lor (N.land b c) (N.land (not32 b) d), 1518500249)
    else if (t <? 40)%nat then
      (N.lxor (N.lxor b c) d, 1859775393)
    else if (t <? 60)%nat then
      (N.lor (N.lor (N.land b c) (N.land b d)) (N.land c d), 2400959708)
    else
      (N.lxor (N.lxor b c) d, 3395469782) in
  let temp := add32 (add32 (add32 (add32 (rotl 5 a) f) e) k) w in
  (temp, a, rotl 30 b, c, d).

Fixpoint rounds (t : nat) (st : state) (ws : list N) : state :=
  match ws with
  | [] => st
  | w :: r => rounds (S t) (round t st w) r
  end.

Definition block (h : state) (ws16 : list N) : state :=
  let schedule := List.rev (extend 64 (List.rev ws16)) in
  let '(a, b, c, d, e) := rounds 0 h schedule in
  let '(h0, h1, h2, h3, h4) := h in
  (add32 h0 a, add32 h1 b, add32 h2 c, add32 h3 d, add32 h4 e).

Fixpoint blocks (fuel : nat) (h : state) (ws : list N) : state :=
  match fuel with
  | O => h
  | S f =>
      match ws with
      | [] => h
      | _ => blocks f (block h (firstn 16 ws)) (skipn 16 ws)
      end
  end.

Definition initial : state :=
  (1732584193, 4023233417, 2562383102, 271733878, 3285377520).

Definition digest_bytes (m : list N) : list N :=
  let ws := words_of_bytes (pad m) in
  let '(h0, h1, h2, h3, h4) := blocks (List.length ws) initial ws in
  (word_bytes h0 ++ word_bytes h1 ++ word_bytes h2 ++ word_bytes h3
     ++ word_bytes h4)%list.

Definition sha1 (s : string) : string :=
  string_of_bytes (digest_bytes (bytes_of_string s)).

Definition hmac_sha1 (key data : string) : string :=
  let k := bytes_of_string key in
  let k := if (64 <? N.of_nat (List.length k)) then digest_bytes k else k in
  let k := (k ++ repeat 0 (64 - List.length k))%list in
  let ipad := map (N.lxor 54) k in
  let opad := map (N.lxor 92) k in
  string_of_bytes
    (digest_bytes (opad ++ digest_bytes (ipad ++ bytes_of_string data)))%list.

Fixpoint hex (s : string) : string :=
  match s with
  | EmptyString => EmptyString
  | String c r =>
      let n := nat_of_ascii c in
      String (JSON.hex_digit (n / 16)%nat)
        (String (JSON.hex_digit (n mod 16)%nat) (hex r))
  end.

End SHA1.

(** ** Statements about the credential codec *)

(** The credential [sendAuthInfo] hands out for [(d, a)], read from the body
    of its response and sent back in the header, decodes to [(d, a)]. *)
Definition roundtrips (srv : Server) (req : Request) (d : string) (a : json)
  : Prop :=
  decodeAuthHeader srv (authHeader srv d a)
    = Returned {| ai_deviceId := Some d; ai_abTests := Some a |} /\
  exists t body response,
    sendAuthInfo srv req (Some d) a
      = Returned (t ++ [SimpleResponse body 200])%list /\
    JSON.parse body = Returned (JObj response) /\
    Obj.get "authHeader" response = Some (JStr (authHeader srv d a)).

(** The header does not have the shape of the pattern. *)
Definition malformed (header : string) : Prop :=
  forall g1 g2 g3 g4, ~ auth_header_shape header g1 g2 g3 g4.

(** The header has the shape, and one of its two signatures does not
    verify. *)
Definition bad_signature (srv : Server) (header : string) : Prop :=
  exists g1 g2 g3 g4,
    auth_header_shape header g1 g2 g3 g4 /\
    (Keygrip.verify srv g1 g2 = false \/ Keygrip.verify srv g3 g4 = false).

(** [s'] is [s] with one unit replaced by another. *)
Definition tampered (s s' : string) : Prop :=
  exists a c c' b, c <> c' /\ s = a ++ String c b /\ s' = a ++ String c' b.

(** The request goes on without a credential: no device, no AB tests. *)
Definition unauthenticated (srv : Server) (req : Request) : Prop :=
  exists req',
    auth_middleware srv req = Returned req' /\
    deviceId req' = deviceId req /\ abTests req' = JObj [].

(** ** A server and requests to try the handlers on *)

Definition demo_config : Config :=
  {| failSometimes := 0; slowResponse := 0; gaId := "";
     sentryPublicDSN := None |}.

Definition demo_server : Server :=
  {| hmac := SHA1.hmac_sha1; newestKey := "key-2"; olderKeys := ["key-1"];
     config := demo_config |}.

(** A server under test, which drops one request out of two. *)
Definition flaky_server : Server :=
  {| hmac := SHA1.hmac_sha1; newestKey := "key-2"; olderKeys := ["key-1"];
     config := {| failSometimes := 2; slowResponse := 0; gaId := "";
                  sentryPublicDSN := None |} |}.

Definition one_key_server : Server :=
  {| hmac := SHA1.hmac_sha1; newestKey := "key-1"; olderKeys := [];
     config := demo_config |}.

Definition no_body : Body := {| text := []; data := [] |}.

Definition bare_request : Request :=
  {| protocol := "https"; url := "/"; headers := [("host", "shots.example")];
     cookies := []; query := []; params := []; body := no_body;
     deviceId := None; abTests := JObj []; backend := "" |}.

Definition demo_abTests : json :=
  JObj [("highlightButtonOnInstall",
         JObj [("value", JStr "control"); ("gaField", JStr "cd3");
               ("version", JNum Number.one)])].

(** Decoding the header gives the empty credential, without throwing, and
    the request that carries it goes on unauthenticated. *)
Definition fails_closed (srv : Server) (header : string) : Prop :=
  decodeAuthHeader srv header = Returned empty_auth /\
  forall req,
    present (Obj.get "x-pageshot-auth" (headers req)) = Some header ->
    unauthenticated srv req.

(** A header of the four pieces. *)
Definition header_of (d sig1 e sig2 : string) : string :=
  d ++ ":" ++ sig1 ++ ";abTests=" ++ e ++ ":" ++ sig2.

(** No older key signs [x] to [digest]. *)
Definition not_signed_by_older (srv : Server) (x digest : string) : Prop :=
  forall k, In k (olderKeys srv) -> digest <> Keygrip.sign_with srv k x.

(** The older keys sign [x] to texts as long as the newest key does (the
    digests of a keyed hash have one length). *)
Definition signatures_of_one_length (srv : Server) (x : string) : Prop :=
  forall k, In k (olderKeys srv) ->
    String.length (Keygrip.sign_with srv k x)
    = String.length (Keygrip.sign srv x).

(** ** Statements about the handlers *)

(** The client is answered with this status by [simpleResponse]. *)
Definition answers (t : list effect) (status : nat) : Prop :=
  exists message, first_response t = Some (SimpleResponse message status).

(** Nothing is asked of the shot store that would change it. *)
Definition writes_nothing (t : list effect) : Prop :=
  forallb (fun e => negb (is_shot_write e)) t = true.

(** The cookies of the client once it has taken in the response. *)
Definition cookies_after (t : list effect) (jar : list (string * string))
  : list (string * string) :=
  fold_left
    (fun jar e =>
       match e with
       | CookieSet name (Some value) => Obj.set name value jar
       | CookieSet name None => Obj.delete name jar
       | _ => jar
       end)
    t jar.

Definition createHash (secret : string) : string :=
  SHA1.hex (SHA1.sha1 secret).

Definition demo_devices : list (string * Device) :=
  [("abc123",
    {| secretHashed := createHash "s3cr3t"; ab_tests := demo_abTests |})].

Definition with_body (req : Request) (fields : list (string * string))
  : Request :=
  {| protocol := protocol req; url := url req; headers := headers req;
     cookies := cookies req; query := query req; params := params req;
     body := {| text := fields; data := [] |}; deviceId := deviceId req;
     abTests := abTests req; backend := backend req |}.

(** A request whose body holds the members [members], of any kind. *)
Definition with_members (req : Request) (members : list (string * json))
  : Request :=
  {| protocol := protocol req; url := url req; headers := headers req;
     cookies := cookies req; query := query req; params := params req;
     body := {| text := []; data := members |}; deviceId := deviceId req;
     abTests := abTests req; backend := backend req |}.

Definition with_headers (req : Request) (hs : list (string * string))
  : Request :=
  {| protocol := protocol req; url := url req; headers := hs;
     cookies := cookies req; query := query req; params := params req;
     body := body req; deviceId := deviceId req;
     abTests := abTests req; backend := backend req |}.

Definition with_query (req : Request) (q : list (string * string))
  : Request :=
  {| protocol := protocol req; url := url req; headers := headers req;
     cookies := cookies req; query := q; params := params req;
     body := body req; deviceId := deviceId req;
     abTests := abTests req; backend := backend req |}.

Definition with_params (req : Request) (ps : list (string * string))
  : Request :=
  {| protocol := protocol req; url := url req; headers := headers req;
     cookies := cookies req; query := query req; params := ps;
     body := body req; deviceId := deviceId req;
     abTests := abTests req; backend := backend req |}.

(** A request of the device [abc123], as the middleware leaves it. *)
Definition session_request : Request :=
  with_params
    (with_auth bare_request (Some "abc123") demo_abTests
       "https://shots.example")
    [("id", "xyz"); ("domain", "example.com")].

Definition no_errors_content (_ : option json) : list string := [].
Definition no_errors_attributes (_ : option json) (_ : string) : list string :=
  [].

Definition wrong_secret_request : Request :=
  with_body bare_request [("deviceId", "abc123"); ("secret", "guess")].

Definition unknown_device_request : Request :=
  with_body bare_request [("deviceId", "nobody"); ("secret", "s3cr3t")].

Definition right_secret_request : Request :=
  with_body bare_request [("deviceId", "abc123"); ("secret", "s3cr3t")].

Definition title_request : Request :=
  with_body session_request [("title", "A new title")].

Definition expiration_request (e : string) : Request :=
  with_body session_request [("id", "xyz/example.com"); ("expiration", e)].

(** A run of decimal digits, and nothing else. *)
Definition is_numeral (s : string) : bool :=
  Str.nonempty s && Str.all Number.is_digit s.

(** The text of a shot as the store holds it: members in the order of
    their writing, a fraction, an exponent. *)
Definition demo_stored : string :=
  "{" ++ JSON.quote "title" ++ ":" ++ JSON.quote "A page" ++ ","
    ++ JSON.quote "deviceId" ++ ":" ++ JSON.quote "owner-1" ++ ","
    ++ JSON.quote "2" ++ ":2.50," ++ JSON.quote "1" ++ ":3e2}".

Definition demo_utc (_ : Z) : string := "Sat, 31 Jan 1970 00:00:00 GMT".

Definition proxied_url : string := "http://images.example/a.png".

Definition demo_urlParse (_ : string) : Url :=
  {| url_protocol := Some "http:"; url_host := Some "images.example";
     url_port := None; url_path := Some "/a.png" |}.

Definition proxy_request : Request :=
  with_query bare_request
    [("url", proxied_url); ("sig", Keygrip.sign demo_server proxied_url)].

Definition demo_upstream : Upstream :=
  {| statusCode := 200; statusMessage := "OK";
     up_headers := [("content-type", "image/png"); ("set-cookie", "a=b");
                    ("constructor", "anything"); ("etag", "v1")] |}.

(** ** Where the device of a request comes from *)

(** The header carries a credential for [d] whose two signatures verify. *)
Definition header_credential (srv : Server) (req : Request) (d : string)
  : Prop :=
  exists header g2 g3 g4,
    present (Obj.get "x-pageshot-auth" (headers req)) = Some header /\
    auth_header_shape header d g2 g3 g4 /\
    Keygrip.verify srv d g2 = true /\ Keygrip.verify srv g3 g4 = true.

(** There is no header, and the [user] cookie holds [d] with a signature
    that verifies. *)
Definition cookie_credential (srv : Server) (req : Request) (d : string)
  : Prop :=
  present (Obj.get "x-pageshot-auth" (headers req)) = None /\
  Obj.get "user" (cookies req) = Some d /\
  exists sig,
    Obj.get "user.sig" (cookies req) = Some sig /\
    Keygrip.verify srv ("user=" ++ d) sig = true.

Definition verified_credential (srv : Server) (req : Request) (d : string)
  : Prop :=
  header_credential srv req d \/ cookie_credential srv req d.

(** The request shows one of the server's keys in [x-magic-auth] and names
    [d] in [x-device-id]. *)
Definition magic_credential (srv : Server) (req : Request) (d : string)
  : Prop :=
  exists magicAuth,
    present (Obj.get "x-magic-auth" (headers req)) = Some magicAuth /\
    In magicAuth (getTextKeys srv) /\
    Obj.get "x-device-id" (headers req) = Some d.

(** Every call the trace makes into a store for a named device names the
    device of the request. *)
Definition acts_for_session (req : Request) (t : list effect) : Prop :=
  forall e d, In e t -> acts_for e = Some (Some d) -> deviceId req = Some d.

Definition magic_request : Request :=
  with_headers bare_request
    [("host", "shots.example"); ("x-magic-auth", "key-2");
     ("x-device-id", "victim")].

(** ** Tactics *)

(** The 256 cases of a unit. *)
Ltac ascii_cases c :=
  let b0 := fresh "b" in let b1 := fresh "b" in let b2 := fresh "b" in
  let b3 := fresh "b" in let b4 := fresh "b" in let b5 := fresh "b" in
  let b6 := fresh "b" in let b7 := fresh "b" in
  destruct c as [b0 b1 b2 b3 b4 b5 b6 b7];
  destruct b0, b1, b2, b3, b4, b5, b6, b7.

(** The effects of a trace, one by one. *)
Ltac each_effect Hin Ha :=
  repeat (destruct Hin as [<- | Hin];
          [try discriminate Ha; try (inversion Ha; subst; clear Ha) |]);
  try contradiction.

Definition owned_shot : ShotRow :=
  {| shot_id := "xyz/example.com"; shot_deviceId := "abc123";
     shot_userTitle := None |}.

Definition foreign_shot : ShotRow :=
  {| shot_id := "xyz/example.com"; shot_deviceId := "someone-else";
     shot_userTitle := None |}.

Definition unsigned_proxy_request : Request :=
  with_query bare_request [("url", proxied_url); ("sig", "forged")].


(** ** Statements about sessions and stores *)

(** A call into the store of the shots or into the registry of the
    devices. *)
Definition touches_store (e : effect) : bool :=
  match e with
  | RegisterLogin _ _ | CheckLogin _ _ _ | UpdateLogin _
  | ShotInsert _ _ _ | ShotUpdate _ _ _ _ | ShotGet _ _ | ShotGetRawValue _
  | ShotDeleteShot _ _ _ | ShotSetExpiration _ _ _ _
  | ShotDeleteEverythingForDevice _ _ => true
  | _ => false
  end.

Definition no_store_call (t : list effect) : Prop :=
  forallb (fun e => negb (touches_store e)) t = true.

(** The request with the cookies [jar]. *)
Definition with_cookies (req : Request) (jar : list (string * string))
  : Request :=
  {| protocol := protocol req; url := url req; headers := headers req;
     cookies := jar; query := query req; params := params req;
     body := body req; deviceId := deviceId req;
     abTests := abTests req; backend := backend req |}.

(** The cookies of a client that has taken in the answer of
    [sendAuthInfo] for the device [abc123]. *)
Definition demo_jar : list (string * string) :=
  cookies_after
    (cookies_set_signed demo_server "user" "abc123"
       ++ cookies_set_signed demo_server "abtests"
            (b64EncodeJson demo_abTests))
    [("theme", "dark")].

Definition unload_trace : list effect :=
  [CookieSet "user" None; CookieSet "user.sig" None;
   CookieSet "abtests" None; CookieSet "abtests.sig" None;
   SimpleResponse "Noted" 200].

(** ** POST /error: the description of an error report *)

Module ErrorReport.

Definition code (c : ascii) : nat := nat_of_ascii c.

(** [value.replace(/\n/g, " / ")] *)
Fixpoint slash_newlines (s : string) : string :=
  match s with
  | EmptyString => EmptyString
  | String c r =>
      if code c =? 10 then " / " ++ slash_newlines r
      else String c (slash_newlines r)
  end.

(** [value.replace(/[\t\r]/g, " ")] *)
Fixpoint blank_tabs (s : string) : string :=
  match s with
  | EmptyString => EmptyString
  | String c r =>
      if (code c =? 9) || (code c =? 13) then String " " (blank_tabs r)
      else String c (blank_tabs r)
  end.

(** [value.replace(/\s+/g, " ")]: every run of white space becomes one
    space.  [after] tells that the unit before belonged to a run, whose space
    is written already.  The white space of the language is that of
    [parseInt], in UTF-8. *)
Fixpoint squeeze (after : bool) (s : string) : string :=
  let space := if after then "" else " " in
  match s with
  | EmptyString => EmptyString
  | String a r =>
      if ParseInt.ws1 (code a) then space ++ squeeze true r
      else
        match r with
        | EmptyString => String a EmptyString
        | String b r2 =>
            if ParseInt.ws2 (code a) (code b) then space ++ squeeze true r2
            else
              match r2 with
              | EmptyString => String a (squeeze false r)
              | String c r3 =>
                  if ParseInt.ws3 (code a) (code b) (code c)
                  then space ++ squeeze true r3
                  else String a (squeeze false r)
              end
        end
  end.

(** The class [[a-z0-9_\-=+\{\}\(\).,/\?:\[\]\| ]] under the flag [i]. *)
Definition allowed (c : ascii) : bool :=
  let n := code c in
  Base64.between 97 122 n || Base64.between 65 90 n || Base64.between 48 57 n
  || existsb (Nat.eqb n)
       [95; 45; 61; 43; 123; 125; 40; 41; 46; 44; 47; 63; 58; 91; 93; 124; 32].

(** [value.replace(/[^...]/gi, "?")]: every unit of the string outside the
    class becomes a question mark.  The units are those of UTF-16, and the
    text is read as UTF-8: a character of two or three bytes is one unit,
    one of four bytes is two, and the bytes that continue a character are no
    units of their own.  [pending] counts the bytes the character being read
    still has to come; a byte that continues no character is masked by
    itself. *)
Definition mask_unit (pending : nat) (c : ascii) : string * nat :=
  let n := code c in
  if n <? 128 then ((if allowed c then String c "" else "?"), 0)
  else if n <? 192 then
    match pending with
    | S k => ("", k)
    | O => ("?", 0)
    end
  else if n <? 224 then ("?", 1)
  else if n <? 240 then ("?", 2)
  else ("??", 3).

Fixpoint mask (pending : nat) (s : string) : string :=
  match s with
  | EmptyString => EmptyString
  | String c r =>
      let '(out, k) := mask_unit pending c in out ++ mask k r
  end.

(** The value of an attribute as the description shows it; the last step is
    [value.substr(0, 100)]. *)
Definition sanitize (value : string) : string :=
  String.substring 0 100
    (mask 0 (squeeze false (blank_tabs (slash_newlines value)))).

Definition starts_with_space (s : string) : bool :=
  match s with
  | EmptyString => false
  | String a _ => code a =? 32
  end.

(** No two spaces in a row. *)
Fixpoint single_spaced (s : string) : bool :=
  match s with
  | EmptyString => true
  | String a r =>
      match r with
      | EmptyString => true
      | String b _ => negb ((code a =? 32) && (code b =? 32)) && single_spaced r
      end
  end.

(** What [sanitize] leaves: units of the class, no two spaces in a row, a
    hundred units at most. *)
Definition clean (s : string) : Prop :=
  Str.all allowed s = true /\ single_spaced s = true /\ String.length s <= 100.

(** The text of a value of the body, as the concatenation with the empty
    string makes it. *)
Definition to_text (v : json) : string := ToString v.

Definition to_text_opt (v : option json) : string := ToString_opt v.

(** The attributes the description lists: all but [name], [help] and
    [version], each as [attr:  value]. *)
Definition attrs (bodyObj : list (string * json)) : list string :=
  map (fun kv => fst kv ++ ":  " ++ sanitize (to_text (snd kv)))
    (filter
       (fun kv =>
          negb (String.eqb (fst kv) "name" || String.eqb (fst kv) "help"
                || String.eqb (fst kv) "version"))
       bodyObj).

(** [desc], which starts as [bodyObj.name]. *)
Definition description (bodyObj : list (string * json)) : option json :=
  match attrs bodyObj with
  | [] => Obj.get "name" bodyObj
  | l =>
      Some (JStr (to_text_opt (Obj.get "name" bodyObj) ++ " - "
                    ++ JSON.join "; " l))
  end.

End ErrorReport.

(** ** The other handlers and the middleware before them *)

(** What the rest of the server does, in the order it does it: a call the
    handlers above make, or one of the calls below.  As there, the modules
    that are not among the sources are recorded as calls with their
    arguments, and what they give back is an argument of the handler. *)
Inductive call : Type :=
| Res (e : effect)
| OnRequest (e : effect)              (* a response helper handed [req] *)
| ResHeader (name value : string)
| ResStatus (status : nat)
| ResType (type : string)
| ResSend (body : string)
| ResSendObject (members : list (string * json))
| Next
| NextThrown (err : exn)
| NotFound
| GaException (description version : option json) (userAgent : option string)
| GaEventParams (cid : string) (params : list (string * option json))
| GaPageview (cid : option string) (dp dh : string)
    (documentReferrer userAgent : option string) (label : string)
| ShotGetRawBytesForClip (imageid : string)
| SetState (device state : string)
| CheckState (device : string) (state : option json)
| TradeCode (code : option json)
| GetAccountId (accessToken : string)
| RegisterAccount (device accountId accessToken : string).

(** A call that writes the response of the request. *)
Definition writes_response (c : call) : bool :=
  match c with
  | Res e => is_response e
  | ResSend _ | ResSendObject _ | NotFound | NextThrown _ => true
  | _ => false
  end.

Definition starts_with (p s : string) : bool :=
  match Str.strip_prefix p s with Some _ => true | None => false end.

Definition is_at (c : ascii) : bool := Ascii.eqb c "@".
Definition is_slash (c : ascii) : bool := Ascii.eqb c "/".

(** *** The security headers *)

(** [dsn.replace(/^https?:\/\/[^@]*@/, "")]: the scheme and what stands
    before the first [@] after it, when there is one. *)
Definition strip_credentials (dsn : string) : string :=
  match Str.strip_prefix "http" dsn with
  | None => dsn
  | Some r =>
      let after_scheme :=
        match Str.strip_prefix "s://" r with
        | Some x => Some x
        | None => Str.strip_prefix "://" r
        end in
      match after_scheme with
      | None => dsn
      | Some x =>
          match snd (Str.break is_at x) with
          | EmptyString => dsn
          | String _ rest => rest
          end
      end
  end.

(** What is left of a text where the units [.] matches end: at a line
    feed, a carriage return, U+2028 or U+2029. *)
Fixpoint after_line (s : string) : string :=
  match s with
  | EmptyString => EmptyString
  | String a r =>
      let n := nat_of_ascii a in
      if (n =? 10) || (n =? 13) then s
      else
        match r with
        | String b (String c _) =>
            if (n =? 226) && (nat_of_ascii b =? 128)
               && ((nat_of_ascii c =? 168) || (nat_of_ascii c =? 169))
            then s else after_line r
        | _ => after_line r
        end
  end.

(** [.replace(/\/.*/, "")]: the first slash and the rest of its line. *)
Definition strip_path (s : string) : string :=
  let '(a, b) := Str.break is_slash s in
  match b with
  | EmptyString => s
  | String _ b' => a ++ after_line b'
  end.

(** The origin the policy lets scripts connect to for error reports. *)
Definition connect_origin (dsn : option string) : string :=
  match present dsn with
  | Some dsn => strip_path (strip_credentials dsn)
  | None => ""
  end.

Definition content_security_policy (contentName uuid dsn : string) : string :=
  "default-src 'self'; img-src 'self' www.google-analytics.com "
    ++ contentName
    ++ " data:; script-src 'self' www.google-analytics.com 'nonce-" ++ uuid
    ++ "'; style-src 'self' 'unsafe-inline' https://code.cdn.mozilla.net; connect-src 'self' www.google-analytics.com "
    ++ dsn ++ "; font-src https://code.cdn.mozilla.net;".

(** [addHSTS(req, res)]; [localhostSsl] is [config.localhostSsl]. *)
Definition addHSTS (localhostSsl : bool) (req : Request) : list call :=
  if String.eqb (protocol req) "https" && negb localhostSsl then
    [ResHeader "Strict-Transport-Security"
       ("max-age=" ++ Number.to_string (Number.of_N (24 * 60 * 60 * 1000)))]
  else [].

(** The middleware that sets the policy.  [contentName] is
    [config.contentOrigin]; [generated] is what [genUuid.generate] calls back
    with, the nonce of the request or an error. *)
Definition security_headers (srv : Server) (contentName : string)
    (localhostSsl : bool) (req : Request) (generated : completion string)
  : list call :=
  match generated with
  | Returned uuid =>
      [ResHeader "Content-Security-Policy"
         (content_security_policy contentName uuid
            (connect_origin (sentryPublicDSN (config srv))));
       ResHeader "X-Frame-Options" "DENY"]
        ++ addHSTS localhostSsl req ++ [Next]
  | Threw err => [Res (ErrorResponse "Error creating nonce:" err)]
  end.

(** *** Cross-origin requests *)

Definition isApiUrl (url : string) : bool :=
  starts_with "/api" url || String.eqb url "/event".

(** The middleware that opens the API to other origins; [method] is
    [req.method]. *)
Definition cors (method : string) (req : Request) : list call :=
  if isApiUrl (url req) then
    [ResHeader "Access-Control-Allow-Origin" "*";
     ResHeader "Access-Control-Allow-Methods" "POST, GET, PUT, OPTIONS";
     ResHeader "Access-Control-Allow-Headers" "Cookie, Content-Type, User-Agent"]
      ++ (if String.eqb method "OPTIONS" then [ResType "text"; ResSend ""]
          else [Next])
  else [Next].

(** *** POST /error *)

(** [bodyObj] is [req.body], an object as the body parsers leave it, with
    its members in the order [for (attr in bodyObj)] goes through them. *)
Definition error_report (req : Request) (bodyObj : list (string * json))
  : list call :=
  [GaException (ErrorReport.description bodyObj) (Obj.get "version" bodyObj)
     (Obj.get "user-agent" (headers req));
   Res (SimpleResponse "OK" 200)].

(** *** POST /event *)

(** [hashUserId(deviceId)]: the UUID of the newest key followed by the
    device id.  [uuid5] is [genUuid.generate(genUuid.V_SHA1, genUuid.nil,
    userKey, ...)] with what it calls back with. *)
Definition hashUserId (srv : Server) (uuid5 : string -> completion string)
    (deviceId : option string) : completion string :=
  uuid5 (newestKey srv ++ ParseInt.to_string deviceId).

(** [Object.assign({}, options)], where [options] are the own enumerable
    properties of [bodyObj.options] in their order (none when it is missing
    or has none).  A property named [__proto__] is no member of the result:
    assigning it sets the prototype. *)
Definition assign (target : list (string * option json))
    (options : list (string * json)) : list (string * option json) :=
  fold_left
    (fun o kv =>
       if String.eqb (fst kv) "__proto__" then o
       else Obj.set (fst kv) (Some (snd kv)) o)
    options target.

(** The parameters of the event; a member that is [None] is there, and
    undefined. *)
Definition event_params (req : Request) (options : list (string * json))
  : list (string * option json) :=
  let params :=
    fold_left (fun o kv => Obj.set (fst kv) (snd kv) o)
      [("ec", body_member "event" req);
       ("ea", body_member "action" req);
       ("el", body_member "label" req);
       ("ev", body_member "eventValue" req)]
      (assign [] options) in
  match present (Obj.get "user-agent" (headers req)) with
  | Some userAgent => Obj.set "ua" (Some (JStr userAgent)) params
  | None => params
  end.

(** POST /event.  The body is an object, as the body parsers leave it,
    and the keys of the server are there once it listens, so that neither the
    handler nor [hashUserId] throws for want of them. *)
Definition event (srv : Server) (uuid5 : string -> completion string)
    (req : Request) (options : list (string * json)) : list call :=
  match hashUserId srv uuid5 (deviceId req) with
  | Returned userUuid =>
      [GaEventParams userUuid (event_params req options);
       Res (SimpleResponse "OK" 200)]
  | Threw e => [Res (ErrorResponse "Error creating user UUID:" e)]
  end.

(** *** GET /redirect *)

Definition is_angle (c : ascii) : bool := Ascii.eqb c "<" || Ascii.eqb c ">".

(** [.replace(/[<>]/g, "")] *)
Fixpoint strip_angle (s : string) : string :=
  match s with
  | EmptyString => EmptyString
  | String c r => if is_angle c then strip_angle r else String c (strip_angle r)
  end.

(** [JSON.stringify(redirectUrl).replace(/[<>]/g, "")] *)
Definition redirectUrlJs (redirectUrl : string) : string :=
  strip_angle (JSON.stringify (JStr redirectUrl)).

(** The page that redirects; [escapeHtml] is the module of that name and
    [nonce] is [req.cspNonce]. *)
Definition redirect_page (escapeHtml : string -> string)
    (nonce redirectUrl : string) : string :=
  let nl := JSON.newline in
  "<html>" ++ nl
    ++ "  <head>" ++ nl
    ++ "    <title>Redirect</title>" ++ nl
    ++ "  </head>" ++ nl
    ++ "  <body>" ++ nl
    ++ "    <a href=" ++ JSON.dquote ++ escapeHtml redirectUrl ++ JSON.dquote
    ++ ">If you are not automatically redirected, click here.</a>" ++ nl
    ++ "    <script nonce=" ++ JSON.dquote ++ nonce ++ JSON.dquote ++ ">" ++ nl
    ++ "window.location = " ++ redirectUrlJs redirectUrl ++ ";" ++ nl
    ++ "    </script>" ++ nl
    ++ "  </body>" ++ nl
    ++ "</html>".

(** GET /redirect; [isUri] is [validUrl.isUri]. *)
Definition redirect (escapeHtml : string -> string) (isUri : string -> bool)
    (nonce : string) (req : Request) : list call :=
  match present (Obj.get "to" (query req)) with
  | Some redirectUrl =>
      [ResHeader "Content-type" "text/html"; ResStatus 200]
        ++ (if negb (isUri redirectUrl) then
              [Res (RavenMessage "Redirect attempted to invalid URL");
               Res (SimpleResponse "Bad Request" 400)]
            else [ResSend (redirect_page escapeHtml nonce redirectUrl)])
  | None =>
      [Res (RavenMessage "Bad request, no ?to parameter");
       Res (SimpleResponse "Bad Request" 400)]
  end.

(** *** GET /images/:imageid *)

(** [encodeURIComponent], on UTF-8 text: the unreserved marks and the
    letters and digits stay, every other byte is written [%XX]. *)
Definition unreserved (c : ascii) : bool :=
  let n := nat_of_ascii c in
  Base64.between 97 122 n || Base64.between 65 90 n || Base64.between 48 57 n
  || existsb (Nat.eqb n) [45; 95; 46; 33; 126; 42; 39; 40; 41].

Definition upper_hex_digit (n : nat) : ascii :=
  match String.get n "0123456789ABCDEF" with
  | Some c => c
  | None => "0"%char
  end.

Fixpoint encodeURIComponent (s : string) : string :=
  match s with
  | EmptyString => EmptyString
  | String c r =>
      if unreserved c then String c (encodeURIComponent r)
      else
        let n := nat_of_ascii c in
        String "%" (String (upper_hex_digit (n / 16))
                      (String (upper_hex_digit (n mod 16))
                         (encodeURIComponent r)))
  end.

(** What [Shot.getRawBytesForClip] resolves with. *)
Record Clip : Type := {
  contentType : string;
  clip_data : string
}.

(** The path under which a view of the image is counted. *)
Definition analyticsUrl (embedded : option string) (imageid : string)
  : string :=
  let hashedId := String.substring 0 15 (SHA1.hex (SHA1.sha1 imageid)) in
  "/images/" ++ (match embedded with Some _ => "embedded/" | None => "" end)
    ++ "hash" ++ encodeURIComponent hashedId.

(** GET /images/:imageid.  [userAnalytics] is the client id of
    [req.userAnalytics], when the first middleware has set it; [found] is
    what [Shot.getRawBytesForClip] settles with.  The promise has no
    [catch]: a rejection leaves the request without an answer. *)
Definition images (userAnalytics : option string) (req : Request)
    (found : completion (option Clip)) : list call :=
  ShotGetRawBytesForClip (param "imageid" req) ::
  match found with
  | Threw _ => []
  | Returned None => [NotFound]
  | Returned (Some obj) =>
      let embedded := present (Obj.get "embedded" (query req)) in
      let localReferrer :=
        match present (Obj.get "referer" (headers req)) with
        | Some referer => starts_with (backend req) referer
        | None => false
        end in
      (if localReferrer then []
       else
         [GaPageview userAnalytics
            (analyticsUrl embedded (param "imageid" req)) (backend req)
            (Obj.get "referer" (headers req))
            (Obj.get "user-agent" (headers req))
            (match embedded with
             | Some _ => "direct-view-embedded"
             | None => "direct-view"
             end)])
        ++ [ResHeader "Content-Type" (contentType obj); ResStatus 200;
            ResSend (clip_data obj)]
  end.

(** *** GET /oembed *)

(** The lower-case form of a letter of the alphabet. *)
Definition lower (c : ascii) : ascii :=
  let n := nat_of_ascii c in
  if Base64.between 65 90 n then ascii_of_nat (n + 32) else c.

(** [s.replace(/^http:\/\//i, "https://")] *)
Definition https_scheme (s : string) : string :=
  match s with
  | String h (String t1 (String t2 (String p r))) =>
      if String.eqb (String (lower h) (String (lower t1)
                       (String (lower t2) (String (lower p) ""))))
           "http"
      then
        match Str.strip_prefix "://" r with
        | Some rest => "https://" ++ rest
        | None => s
        end
      else s
  | _ => s
  end.

Fixpoint skip_slashes (s : string) : string :=
  match s with
  | String c r => if is_slash c then skip_slashes r else s
  | EmptyString => s
  end.

(** The pattern [/^\/*([^\/]+)\/([^\/]+)/], run on the path: slashes, a
    group without a slash, a slash, a second group without a slash.  Each
    group takes all there is up to the next slash, so that the match, if
    there is one, is found without going back. *)
Definition match_shot_url (path : string) : option (string * string) :=
  let '(g1, r1) := Str.break is_slash (skip_slashes path) in
  if negb (Str.nonempty g1) then None
  else
    match r1 with
    | EmptyString => None
    | String _ r2 =>
        let '(g2, _) := Str.break is_slash r2 in
        if Str.nonempty g2 then Some (g1, g2) else None
    end.

(** [req.query.maxwidth || null], then [parseInt(maxwidth, 10)] when it is
    there: null, or a Number. *)
Definition dimension (k : string) (req : Request) : option Number.t :=
  match present (Obj.get k (query req)) with
  | Some text => Some (ParseInt.parseInt text)
  | None => None
  end.

(** GET /oembed.  [oembedJson] is the method of the shot; [got] is what
    [Shot.get] settles with.  The first refusal hands [req] to
    [simpleResponse] where the others hand [res]: [misdirected] is what
    that call does, and when it throws the error goes to the last
    middleware.  The promise has no [catch]. *)
Definition oembed (req : Request)
    (oembedJson : ShotRow -> option Number.t -> option Number.t -> string)
    (misdirected : completion unit)
    (got : completion (option ShotRow)) : list call :=
  match present (Obj.get "url" (query req)) with
  | None =>
      OnRequest (SimpleResponse "No ?url given" 400) ::
      match misdirected with
      | Returned _ => []
      | Threw err => map Res (general_error err)
      end
  | Some url =>
      let format :=
        match present (Obj.get "format" (query req)) with
        | Some f => f
        | None => "json"
        end in
      if negb (String.eqb format "json") then
        [Res (SimpleResponse "Only JSON OEmbed is supported" 501)]
      else
        let maxwidth := dimension "maxwidth" req in
        let maxheight := dimension "maxheight" req in
        match Str.strip_prefix (https_scheme (backend req)) (https_scheme url)
        with
        | None =>
            [Res (SimpleResponse
                    ("Error: URL is not hosted here (" ++ backend req ++ ")")
                    501)]
        | Some path =>
            match match_shot_url path with
            | None => [Res (SimpleResponse "Error: not a Shot url" 404)]
            | Some (id, domain) =>
                Res (ShotGet (backend req) (id ++ "/" ++ domain)) ::
                match got with
                | Threw _ => []
                | Returned None => [NotFound]
                | Returned (Some shot) =>
                    [ResHeader "Content-Type" "application/json";
                     ResSend (oembedJson shot maxheight maxwidth)]
                end
            end
        end
  end.

(** A hexadecimal digit, as [digest("hex")] writes them. *)
Definition is_lower_hex (c : ascii) : bool :=
  let n := nat_of_ascii c in
  Base64.between 48 57 n || Base64.between 97 102 n.

(** No call of the trace counts a view. *)
Definition counts_no_view (t : list call) : Prop :=
  forall cid dp dh referrer userAgent label,
    ~ In (GaPageview cid dp dh referrer userAgent label) t.

(** *** The OAuth handlers *)

(** [config.oAuth] *)
Record OAuth : Type := {
  profileServer : string;
  oAuthServer : string;
  clientId : string;
  contentServer : string
}.

(** GET /api/fxa-oauth/params.  [stateBytes] is what [randomBytes(32)]
    settles with, in hexadecimal; [inserted] what [setState] does. *)
Definition fxa_params (oAuth : OAuth) (req : Request)
    (stateBytes : completion string) (inserted : completion bool)
  : list call :=
  match present (deviceId req) with
  | None => [Res (NextError "missingSession")]
  | Some d =>
      match stateBytes with
      | Threw err => [NextThrown err]
      | Returned state =>
          SetState d state ::
          match inserted with
          | Threw err => [NextThrown err]
          | Returned false => [Res (NextError "dupeLogin")]
          | Returned true =>
              [ResSendObject
                 [("profile_uri", JStr (profileServer oAuth));
                  ("oauth_uri", JStr (oAuthServer oAuth));
                  ("redirect_uri", JStr "urn:ietf:wg:oauth:2.0:fx:webchannel");
                  ("client_id", JStr (clientId oAuth));
                  ("content_uri", JStr (contentServer oAuth));
                  ("state", JStr state);
                  ("scope", JStr "profile")]]
          end
      end
  end.

(** POST /api/fxa-oauth/token.  [isValid] is what [checkState] settles
    with, [traded] the access token of [tradeCode], [account] the uid of
    [getAccountId], [registered] what [registerAccount] does.  The body is an
    object, as the body parsers leave it. *)
Definition fxa_token (req : Request) (isValid : completion bool)
    (traded account : completion string) (registered : completion unit)
  : list call :=
  match present (deviceId req) with
  | None => [Res (NextError "missingSession")]
  | Some d =>
      CheckState d (body_member "state" req) ::
      match isValid with
      | Threw err => [NextThrown err]
      | Returned false => [Res (NextError "badState")]
      | Returned true =>
          TradeCode (body_member "code" req) ::
          match traded with
          | Threw err => [NextThrown err]
          | Returned accessToken =>
              GetAccountId accessToken ::
              match account with
              | Threw err => [NextThrown err]
              | Returned accountId =>
                  RegisterAccount d accountId accessToken ::
                  match registered with
                  | Threw err => [NextThrown err]
                  | Returned _ =>
                      [ResSendObject [("access_token", JStr accessToken)]]
                  end
              end
          end
      end
  end.

(** *** Start-up: initDatabase *)

(** What [initDatabase] asks of the schema, of the store and of the
    process. *)
Inductive boot : Type :=
| ForceDbVersion (version : nat)
| CreateTables
| CreateKeygrip
| UpgradeSearch
| CaptureRavenException (err : exn)
| Exit (code : nat).

(** The steps of a chain of promises, each run when the one before it is
    fulfilled; the first rejection ends the chain with its error. *)
Fixpoint chain (steps : list (boot * completion unit))
  : list boot * option exn :=
  match steps with
  | [] => ([], None)
  | (step, Returned _) :: rest =>
      let '(done, err) := chain rest in (step :: done, err)
  | (step, Threw e) :: _ => ([step], Some e)
  end.

(** [initDatabase()].  [forceDbVersion] is [config.db.forceDbVersion], 0
    when it is not set; the four completions are what the calls settle with
    when they are made. *)
Definition initDatabase (forceDbVersion : nat) (disableControllerTasks : bool)
    (forced tables keygrip search : completion unit) : list boot :=
  if negb (forceDbVersion =? 0) then
    [ForceDbVersion forceDbVersion;
     Exit (match forced with Threw _ => 2 | Returned _ => 0 end)]
  else
    let '(done, err) :=
      chain (if disableControllerTasks then [(CreateKeygrip, keygrip)]
             else [(CreateTables, tables); (CreateKeygrip, keygrip);
                   (UpgradeSearch, search)]) in
    match err with
    | Some e => done ++ [CaptureRavenException e; Exit 1]
    | None => done
    end.

(** *** The console, as the server patches it: logFactory *)

(** An argument of a logging call: text, an error with its stack, or a
    value. *)
Inductive log_arg : Type :=
| LogText (s : string)
| LogError (stack : string)
| LogValue (v : json)
| LogUndefined.

(** What [msg += ...] adds for the argument. *)
Definition log_text (a : log_arg) : string :=
  match a with
  | LogText s => s
  | LogError _ => "{}"
  | LogValue v => JSON.stringify v
  | LogUndefined => "undefined"
  end.

(** [arg && arg.stack], when it is truthy *)
Definition log_stack (a : log_arg) : option json :=
  match a with
  | LogError stack => if Str.nonempty stack then Some (JStr stack) else None
  | LogValue (JObj members) =>
      match Obj.get "stack" members with
      | Some v => if truthy v then Some v else None
      | None => None
      end
  | _ => None
  end.

(** One turn of the loop, on [msg] and [stack]. *)
Definition log_step (acc : string * option json) (a : log_arg)
  : string * option json :=
  let '(msg, stack) := acc in
  let msg := if Str.nonempty msg then msg ++ " " else msg in
  let stack :=
    match a with
    | LogText _ => stack
    | _ =>
        match log_stack a, stack with
        | Some s, Some stack =>
            Some (JStr (ErrorReport.to_text stack ++ JSON.newline
                          ++ JSON.newline ++ ErrorReport.to_text s))
        | Some s, None => Some s
        | None, _ => stack
        end
    end in
  (msg ++ log_text a, stack).

(** What the function [logFactory(level)] returns hands to the logger for
    the arguments it is called with: [{msg, stack}]. *)
Definition logFactory (arguments : list log_arg) : string * option json :=
  fold_left log_step arguments ("", None).

(** The calls of a trace of [initDatabase], one by one. *)
Ltac boot_cases H :=
  repeat (destruct H as [?E|H]; [try discriminate|]); try contradiction.

(** The texts of a list without the empty ones it starts with. *)
Fixpoint drop_empty (l : list string) : list string :=
  match l with
  | "" :: r => drop_empty r
  | _ => l
  end.

(** The stacks of the arguments that have one, in their order. *)
Definition stacks_of (arguments : list log_arg) : list json :=
  flat_map
    (fun a => match log_stack a with Some s => [s] | None => [] end)
    arguments.

Definition blank_line : string := JSON.newline ++ JSON.newline.
(** * Properties *)

(** ** Strings *)

Section StrFacts.
Import Str.

Lemma append_nil_r (s : string) : s ++ "" = s.
Proof. induction s as [|c s IH]; simpl; [reflexivity | now rewrite IH]. Qed.

Lemma append_assoc (s t u : string) : (s ++ t) ++ u = s ++ (t ++ u).
Proof. induction s as [|c s IH]; simpl; [reflexivity | now rewrite IH]. Qed.

Lemma length_append (s t : string) :
  String.length (s ++ t) = String.length s + String.length t.
Proof. induction s as [|c s IH]; simpl; [reflexivity | now rewrite IH]. Qed.

Lemma all_append p s t : all p (s ++ t) = all p s && all p t.
Proof.
  induction s as [|c s IH]; simpl; [reflexivity|].
  now rewrite IH, andb_assoc.
Qed.

Lemma all_impl (p q : ascii -> bool) s :
  (forall c, p c = true -> q c = true) -> all p s = true -> all q s = true.
Proof.
  intros Hpq. induction s as [|c s IH]; simpl; [reflexivity|].
  intros H. apply andb_true_iff in H as [Hc Hs].
  now rewrite (Hpq _ Hc), (IH Hs).
Qed.

Lemma nonempty_append_l s t : nonempty s = true -> nonempty (s ++ t) = true.
Proof. now destruct s. Qed.

Lemma break_append p a c r :
  all (fun x => negb (p x)) a = true -> p c = true ->
  break p (a ++ String c r) = (a, String c r).
Proof.
  induction a as [|x a IH]; simpl; intros Ha Hc.
  - now rewrite Hc.
  - apply andb_true_iff in Ha as [Hx Ha].
    apply negb_true_iff in Hx. rewrite Hx.
    now rewrite (IH Ha Hc).
Qed.

Lemma break_spec p s a b :
  break p s = (a, b) ->
  s = a ++ b /\ all (fun x => negb (p x)) a = true /\
  match b with EmptyString => True | String c _ => p c = true end.
Proof.
  revert a b. induction s as [|c s IH]; simpl; intros a b H.
  - inversion H; subst. now repeat split.
  - destruct (p c) eqn:Hc.
    + inversion H; subst. simpl. now repeat split.
    + destruct (break p s) as [a' b'] eqn:Hb. inversion H; subst.
      destruct (IH _ _ eq_refl) as (-> & Ha & Hb').
      simpl. rewrite Hc. now repeat split.
Qed.

Lemma strip_prefix_append p s : strip_prefix p (p ++ s) = Some s.
Proof.
  induction p as [|a p IH]; simpl; [reflexivity|].
  now rewrite Ascii.eqb_refl.
Qed.

Lemma strip_prefix_spec p s r : strip_prefix p s = Some r -> s = p ++ r.
Proof.
  revert s. induction p as [|a p IH]; intros [|b s]; simpl; intros H;
    try discriminate; try (now inversion H).
  destruct (Ascii.eqb a b) eqn:E; [|discriminate].
  apply Ascii.eqb_eq in E. subst. now rewrite (IH _ H).
Qed.

Lemma rev_append_twice s racc acc :
  rev_append (rev_append s racc) acc = rev_append racc (s ++ acc).
Proof.
  revert racc acc. induction s as [|c s IH]; intros racc acc; simpl.
  - reflexivity.
  - now rewrite IH.
Qed.

Lemma rev_rev_append s : rev (rev_append s "") = s.
Proof. unfold rev. rewrite rev_append_twice. simpl. apply append_nil_r. Qed.

Lemma rev_rev s : rev (rev s) = s.
Proof. exact (rev_rev_append s). Qed.

Lemma break_all p a :
  all (fun x => negb (p x)) a = true -> break p a = (a, "").
Proof.
  induction a as [|c a IH]; [reflexivity|]. simpl. intros H.
  apply andb_true_iff in H as [Hc Ha]. apply negb_true_iff in Hc.
  now rewrite Hc, (IH Ha).
Qed.

Lemma take_drop n s : take n s ++ drop n s = s.
Proof.
  revert s. induction n as [|n IH]; intros [|c s]; simpl; try reflexivity.
  now rewrite IH.
Qed.

Lemma all_take p n s : all p s = true -> all p (take n s) = true.
Proof.
  revert s. induction n as [|n IH]; intros [|c s]; simpl; try reflexivity.
  intros H. apply andb_true_iff in H as [Hc Hs]. now rewrite Hc, IH.
Qed.

Lemma all_drop p n s : all p s = true -> all p (drop n s) = true.
Proof.
  revert s. induction n as [|n IH]; intros [|c s]; simpl; try easy.
  intros H. apply andb_true_iff in H as [Hc Hs]. now apply IH.
Qed.

Lemma length_drop n s : String.length (drop n s) = String.length s - n.
Proof.
  revert s. induction n as [|n IH]; intros [|c s]; simpl; try reflexivity.
  apply IH.
Qed.

Lemma nonempty_length s : nonempty s = true <-> 0 < String.length s.
Proof. destruct s; simpl; split; intros H; try easy; lia. Qed.

End StrFacts.

(** ** Numbers: the numeral of a Number is read as that Number *)

Section NumberFacts.
Import Number.

Lemma digit_val_char d : (d < 10)%N -> digit_val (digit_char d) = Some d.
Proof.
  intros H.
  assert (E : In d [0; 1; 2; 3; 4; 5; 6; 7; 8; 9]%N).
  { destruct d as [|p]; [now left|].
    do 10 (destruct p as [p|p|]; try lia; simpl; auto 12). }
  simpl in E. repeat (destruct E as [<- | E]; [reflexivity|]). contradiction.
Qed.

Lemma is_digit_char d : (d < 10)%N -> is_digit (digit_char d) = true.
Proof. intros H. unfold is_digit. now rewrite digit_val_char. Qed.

Lemma json_int_digit d r :
  (0 < d < 10)%N -> json_int (String (digit_char d) r) = true.
Proof.
  intros H.
  assert (E : In d [1; 2; 3; 4; 5; 6; 7; 8; 9]%N).
  { destruct d as [|p]; [lia|].
    do 10 (destruct p as [p|p|]; try lia; simpl; auto 12). }
  simpl in E. repeat (destruct E as [<- | E]; [reflexivity|]). contradiction.
Qed.

Lemma not_digit_digit c : is_digit c = true -> not_digit c = false.
Proof. unfold not_digit. now intros ->. Qed.

Lemma all_not_not_digit s :
  Str.all is_digit s = true ->
  Str.all (fun x => negb (not_digit x)) s = true.
Proof.
  apply all_impl. intros c H. unfold not_digit. now rewrite H.
Qed.

Lemma digits_value_app v a b :
  Str.all is_digit a = true ->
  digits_value v (a ++ b) = digits_value (digits_value v a) b.
Proof.
  revert v. induction a as [|c a IH]; intros v H; [reflexivity|].
  simpl in H. apply andb_true_iff in H as [Hc Ha]. unfold is_digit in Hc.
  simpl. destruct (digit_val c); [|discriminate]. now apply IH.
Qed.

Lemma digits_acc_value fuel : forall n acc,
  (0 < fuel)%nat -> (n < 2 ^ N.of_nat fuel)%N ->
  exists ds,
    digits_acc fuel n acc = ds ++ acc /\
    Str.all is_digit ds = true /\ Str.nonempty ds = true /\
    digits_value 0 ds = n /\
    ((0 < n)%N ->
     exists d r, ds = String (digit_char d) r /\ (0 < d < 10)%N).
Proof.
  induction fuel as [|f IH]; intros n acc Hf Hlt; [lia|].
  cbn [digits_acc]. destruct (N.ltb_spec n 10) as [Hs|Hb].
  - exists (String (digit_char n) ""). rewrite N.mod_small by lia.
    repeat split.
    + simpl. now rewrite is_digit_char.
    + simpl. now rewrite digit_val_char.
    + intros Hn. exists n, "". split; [reflexivity | lia].
  - assert (Hq : (n / 10 < 2 ^ N.of_nat f)%N).
    { apply N.Div0.div_lt_upper_bound.
      rewrite Nat2N.inj_succ, N.pow_succ_r' in Hlt. lia. }
    assert (Hq1 : (1 <= n / 10)%N).
    { apply N.div_le_lower_bound; lia. }
    assert (Hf' : (0 < f)%nat).
    { destruct f; [simpl in Hq; lia | lia]. }
    assert (Hm : (n mod 10 < 10)%N) by (apply N.mod_lt; lia).
    destruct (IH (n / 10)%N (String (digit_char (n mod 10)) acc) Hf' Hq)
      as (ds & E & A & Ne & V & Hd).
    exists (ds ++ String (digit_char (n mod 10)) "").
    rewrite E, append_assoc. repeat split.
    + rewrite all_append, A. simpl. now rewrite is_digit_char.
    + now apply nonempty_append_l.
    + rewrite digits_value_app, V by exact A. simpl.
      rewrite digit_val_char by exact Hm.
      rewrite (N.div_mod n 10) at 3 by lia. reflexivity.
    + intros _. destruct Hd as (d & r & -> & Hd); [lia|].
      exists d, (r ++ String (digit_char (n mod 10)) ""). now split.
Qed.

(** The digits of a number: digits, which write the number, and of which
    the first is not 0 unless the number is. *)
Lemma digits_spec n :
  Str.all is_digit (digits n) = true /\
  Str.nonempty (digits n) = true /\
  digits_value 0 (digits n) = n /\
  ((0 < n)%N ->
   exists d r, digits n = String (digit_char d) r /\ (0 < d < 10)%N).
Proof.
  unfold digits.
  destruct (digits_acc_value (S (N.to_nat (N.log2 n))) n "")
    as (ds & E & A & Ne & V & Hd).
  - lia.
  - rewrite Nat2N.inj_succ, N2Nat.id.
    destruct n as [|p]; [reflexivity|]. apply N.log2_spec. lia.
  - rewrite E, append_nil_r. auto.
Qed.

Lemma all_digit_zeros j : Str.all is_digit (zeros j) = true.
Proof. induction j; [reflexivity | exact IHj]. Qed.

Lemma length_zeros j : String.length (zeros j) = j.
Proof. induction j; simpl; congruence. Qed.

Lemma digits_value_zeros v j :
  digits_value v (zeros j) = (v * 10 ^ N.of_nat j)%N.
Proof.
  revert v. induction j as [|j IH]; intros v.
  - simpl. lia.
  - cbn [zeros digits_value].
    change (digit_val "0") with (Some 0%N). cbv iota. rewrite IH.
    rewrite Nat2N.inj_succ, N.pow_succ_r'. lia.
Qed.

(** *** Numerals without the zeros they end with *)

Lemma strip_scale fuel : forall j s e,
  (s mod 10 <> 0)%N -> j <= fuel ->
  strip fuel (s * 10 ^ N.of_nat j)%N e = (s, (e + Z.of_nat j)%Z).
Proof.
  induction fuel as [|f IH]; intros j s e Hs Hj.
  - assert (j = 0) by lia. subst j. simpl. f_equal; lia.
  - destruct j as [|j].
    + cbn [strip]. replace (s * 10 ^ N.of_nat 0)%N with s by (simpl; lia).
      apply N.eqb_neq in Hs. rewrite Hs. f_equal. lia.
    + cbn [strip]. rewrite Nat2N.inj_succ, N.pow_succ_r'.
      replace (s * (10 * 10 ^ N.of_nat j))%N
        with ((s * 10 ^ N.of_nat j) * 10)%N by lia.
      rewrite N.Div0.mod_mul, N.eqb_refl, N.div_mul by lia.
      rewrite IH by (auto; lia). f_equal. lia.
Qed.

Lemma pow2_le_pow10 j : (2 ^ j <= 10 ^ j)%N.
Proof. apply N.pow_le_mono_l. lia. Qed.

Lemma normalise_scale s j e :
  (s mod 10 <> 0)%N ->
  normalise (s * 10 ^ N.of_nat j)%N e = (s, (e + Z.of_nat j)%Z).
Proof.
  intros Hs. unfold normalise.
  assert (Hpos : (0 < s)%N).
  { destruct s; [now rewrite N.Div0.mod_0_l in Hs | lia]. }
  assert (Hp : (0 < 10 ^ N.of_nat j)%N) by (apply N.neq_0_lt_0, N.pow_nonzero; lia).
  destruct (N.eqb_spec (s * 10 ^ N.of_nat j) 0) as [E|_]; [nia|].
  apply strip_scale; [exact Hs|].
  pose proof (N.size_gt (s * 10 ^ N.of_nat j)) as Hsize.
  pose proof (pow2_le_pow10 (N.of_nat j)) as H2.
  assert (H3 : (2 ^ N.of_nat j < 2 ^ N.size (s * 10 ^ N.of_nat j))%N) by nia.
  apply N.pow_lt_mono_r_iff in H3; lia.
Qed.

Lemma normalise_fixed s e : (s mod 10 <> 0)%N -> normalise s e = (s, e).
Proof.
  intros Hs. pose proof (normalise_scale s 0 e Hs) as H.
  replace (s * 10 ^ N.of_nat 0)%N with s in H by (simpl; lia).
  rewrite H. f_equal. lia.
Qed.

Lemma strip_result fuel : forall s e s' e',
  (0 < s)%N -> (s < 2 ^ N.of_nat fuel)%N ->
  strip fuel s e = (s', e') -> (s' mod 10 <> 0)%N.
Proof.
  induction fuel as [|f IH]; intros s e s' e' Hpos Hlt H.
  - simpl in Hlt. lia.
  - cbn [strip] in H. destruct (N.eqb_spec (s mod 10) 0) as [E|E].
    + assert (Hd : s = (10 * (s / 10))%N).
      { rewrite (N.div_mod s 10) at 1 by lia. lia. }
      apply (IH (s / 10)%N (e + 1)%Z s' e'); [lia | | exact H].
      rewrite Nat2N.inj_succ, N.pow_succ_r' in Hlt. lia.
    + inversion H; subst. exact E.
Qed.

Lemma normalise_result s e s' e' :
  normalise s e = (s', e') ->
  (s' = 0%N /\ e' = 0%Z) \/ (s' mod 10 <> 0)%N.
Proof.
  unfold normalise. destruct (N.eqb_spec s 0) as [E|E]; intros H.
  - inversion H. now left.
  - right. apply (strip_result (N.to_nat (N.size s)) s e s' e'); [lia | | exact H].
    rewrite N2Nat.id. apply N.size_gt.
Qed.

Lemma normalise_idem s e s' e' :
  normalise s e = (s', e') -> normalise s' e' = (s', e').
Proof.
  intros H. destruct (normalise_result _ _ _ _ H) as [[-> ->]|Hs].
  - reflexivity.
  - now apply normalise_fixed.
Qed.

(** *** The numeral found for a double rounds to the double *)

Lemma binary_eqb_eq a b : binary_eqb a b = true -> a = b.
Proof.
  destruct a as [|m e], b as [|m' e']; simpl; try discriminate; auto.
  intros H. apply andb_true_iff in H as [Hm He].
  apply N.eqb_eq in Hm. apply Z.eqb_eq in He. now subst.
Qed.

Lemma binary_eqb_refl a : binary_eqb a a = true.
Proof. destruct a; simpl; [reflexivity|]. now rewrite N.eqb_refl, Z.eqb_refl. Qed.

Lemma eqb_eq x y : eqb x y = true -> x = y.
Proof.
  destruct x as [|a|a s e], y as [|b|b s' e']; simpl; try discriminate; auto.
  - intros H. apply Bool.eqb_prop in H. now subst.
  - intros H. apply andb_true_iff in H as [H He].
    apply andb_true_iff in H as [Ha Hs]. apply Bool.eqb_prop in Ha.
    apply N.eqb_eq in Hs. apply Z.eqb_eq in He. now subst.
Qed.

Lemma eqb_refl x : eqb x x = true.
Proof.
  destruct x as [|a|a s e]; simpl; [reflexivity | apply Bool.eqb_reflx |].
  now rewrite Bool.eqb_reflx, N.eqb_refl, Z.eqb_refl.
Qed.

Lemma rounds_to_sound b x e s' e' :
  rounds_to b x e = true -> normalise x e = (s', e') -> numeral_of b s' e'.
Proof.
  unfold rounds_to. intros H E. rewrite E in H.
  apply andb_true_iff in H as [Hs Hr]. apply negb_true_iff, N.eqb_neq in Hs.
  repeat split; [exact (normalise_idem _ _ _ _ E) | exact Hs |].
  now apply binary_eqb_eq.
Qed.

Lemma nearest_cases q r d : nearest q r d = q \/ nearest q r d = (q + 1)%N.
Proof.
  unfold nearest. destruct (2 * r <? d)%N; [now left|].
  destruct (d <? 2 * r)%N; [now right|]. destruct (N.even q); auto.
Qed.

Lemma numeral_sound b num den n k s e :
  numeral b num den n k = Some (s, e) -> numeral_of b s e.
Proof.
  unfold numeral. destruct (scaled10 num den (n - k)) as [[lo r] d].
  destruct (rounds_to b lo (n - k)) eqn:Hlo;
    destruct (rounds_to b (lo + 1) (n - k)) eqn:Hhi;
    intros H; inversion H as [E]; clear H.
  - destruct (nearest_cases lo r d) as [Hn|Hn]; rewrite Hn in E.
    + exact (rounds_to_sound _ _ _ _ _ Hlo E).
    + exact (rounds_to_sound _ _ _ _ _ Hhi E).
  - exact (rounds_to_sound _ _ _ _ _ Hlo E).
  - exact (rounds_to_sound _ _ _ _ _ Hhi E).
Qed.

Lemma shortest_from_sound fuel : forall b num den n k s e,
  shortest_from fuel b num den n k = Some (s, e) -> numeral_of b s e.
Proof.
  induction fuel as [|f IH]; intros b num den n k s e H; [discriminate|].
  cbn [shortest_from] in H.
  destruct (numeral b num den n k) as [[s' e']|] eqn:E.
  - inversion H; subst. exact (numeral_sound _ _ _ _ _ _ _ E).
  - exact (IH _ _ _ _ _ _ _ H).
Qed.

Lemma shortest_sound b s e : shortest b = Some (s, e) -> numeral_of b s e.
Proof.
  unfold shortest. destruct b as [|m e2]; [discriminate|].
  destruct (ratio m e2) as [num den]. apply shortest_from_sound.
Qed.

(** The Number a numeral denotes, by cases. *)
Lemma of_decimal_cases neg s e :
  of_decimal neg s e = zero
  \/ of_decimal neg s e = Infinity neg
  \/ exists s' e', of_decimal neg s e = Num neg s' e' /\
       normalise s' e' = (s', e') /\ s' <> 0%N /\
       of_decimal neg s' e' = Num neg s' e'.
Proof.
  unfold of_decimal at 1 2 3. destruct (normalise s e) as [s1 e1] eqn:En.
  destruct (N.eqb_spec s1 0) as [E0|E0]; [now left|].
  destruct (round s1 e1) as [|m e2] eqn:Er; [now right; left|].
  destruct m as [|p]; [now left|].
  right; right.
  destruct (shortest (BFin (N.pos p) e2)) as [[s' e']|] eqn:Es.
  - destruct (shortest_sound _ _ _ Es) as (Hn & Hs & Hr).
    exists s', e'. repeat split; auto.
    unfold of_decimal. rewrite Hn. apply N.eqb_neq in Hs. rewrite Hs, Hr, Es.
    reflexivity.
  - exists s1, e1. pose proof (normalise_idem _ _ _ _ En) as Hn.
    repeat split; auto.
    unfold of_decimal. rewrite Hn. apply N.eqb_neq in E0. rewrite E0, Er, Es.
    reflexivity.
Qed.

(** A Number that a numeral denotes is in the form of the embedding. *)
Lemma of_decimal_canonical neg s e :
  negb (is_finite (of_decimal neg s e)) || canonical (of_decimal neg s e)
  = true.
Proof.
  destruct (of_decimal_cases neg s e) as [E|[E|(s' & e' & E & _ & _ & Hc)]];
    rewrite E; try reflexivity.
  cbn [is_finite negb orb canonical]. rewrite Hc. apply eqb_refl.
Qed.

Lemma canonical_spec neg s e :
  canonical (Num neg s e) = true ->
  of_decimal neg s e = Num neg s e /\
  ((s = 0%N /\ e = 0%Z /\ neg = false) \/
   (s <> 0%N /\ normalise s e = (s, e))).
Proof.
  cbn [canonical]. intros H. apply eqb_eq in H. split; [exact H|].
  destruct (of_decimal_cases neg s e) as [E|[E|(s' & e' & E & Hn & Hs & _)]];
    rewrite E in H.
  - inversion H; subst. now left.
  - discriminate.
  - inversion H; subst. now right.
Qed.

Lemma of_decimal_normalise neg s e s' e' :
  normalise s e = normalise s' e' ->
  of_decimal neg s e = of_decimal neg s' e'.
Proof. intros H. unfold of_decimal. now rewrite H. Qed.

(** A numeral with zeros after its digits denotes the same Number. *)
Lemma of_decimal_scale neg s j e :
  (s mod 10 <> 0)%N ->
  of_decimal neg (s * 10 ^ N.of_nat j)%N e
  = of_decimal neg s (e + Z.of_nat j)%Z.
Proof.
  intros Hs. apply of_decimal_normalise.
  now rewrite normalise_scale, normalise_fixed.
Qed.

(** *** Reading what is written *)

Lemma exponent_part_text y : exponent_part (exponent_text y) = Some y.
Proof.
  unfold exponent_text.
  destruct (digits_spec (Z.to_N (Z.abs y))) as (A & Ne & V & _).
  destruct (Z.ltb_spec y 0) as [H|H].
  - change ("e-" ++ digits (Z.to_N (Z.abs y)))
      with (String "e" (String "-" (digits (Z.to_N (Z.abs y))))).
    cbn -[digits digits_value Str.all Str.nonempty].
    rewrite Ne, A, V. cbn [andb signed]. f_equal. lia.
  - change ("e+" ++ digits (Z.to_N (Z.abs y)))
      with (String "e" (String "+" (digits (Z.to_N (Z.abs y))))).
    cbn -[digits digits_value Str.all Str.nonempty].
    rewrite Ne, A, V. cbn [andb signed]. f_equal. lia.
Qed.

Lemma fraction_part_exponent y :
  fraction_part (exponent_text y) = Some ("", exponent_text y).
Proof. unfold exponent_text. now destruct (y <? 0)%Z. Qed.

Lemma not_digit_exponent y :
  exists r, exponent_text y = String "e" r.
Proof. unfold exponent_text. destruct (y <? 0)%Z; eexists; reflexivity. Qed.

Lemma fraction_part_point f r :
  Str.nonempty f = true -> Str.all is_digit f = true ->
  (r = "" \/ exists c r', r = String c r' /\ not_digit c = true) ->
  fraction_part ("." ++ f ++ r) = Some (f, r).
Proof.
  intros Ne A Hr. change ("." ++ f ++ r) with (String "." (f ++ r)).
  cbn [fraction_part]. change (Ascii.eqb "." ".") with true. cbv iota.
  assert (E : Str.break not_digit (f ++ r) = (f, r)).
  { destruct Hr as [->|(c & r' & -> & Hc)].
    - rewrite append_nil_r. now apply break_all, all_not_not_digit.
    - apply break_append; [now apply all_not_not_digit | exact Hc]. }
  now rewrite E, Ne.
Qed.

(** A numeral that starts with digits [int], goes on with [r1], of which
    [f] are the digits after the point, and ends with the exponent [x]. *)
Lemma json_numeral_read neg int r1 f expo x :
  json_int int = true -> Str.all is_digit int = true ->
  (r1 = "" \/ exists c r, r1 = String c r /\ not_digit c = true) ->
  fraction_part r1 = Some (f, expo) -> exponent_part expo = Some x ->
  json_numeral neg (int ++ r1)
  = Some (of_decimal neg (digits_value 0 (int ++ f))
            (x - Z.of_nat (String.length f))).
Proof.
  intros Hi A Hr Hf Hx. unfold json_numeral.
  assert (E : Str.break not_digit (int ++ r1) = (int, r1)).
  { destruct Hr as [->|(c & r' & -> & Hc)].
    - rewrite append_nil_r. now apply break_all, all_not_not_digit.
    - apply break_append; [now apply all_not_not_digit | exact Hc]. }
  now rewrite E, Hi, Hf, Hx.
Qed.

Lemma of_json_digit neg c r :
  is_digit c = true ->
  of_json (sign_text neg ++ String c r) = json_numeral neg (String c r).
Proof.
  intros Hc. destruct neg; [reflexivity|]. cbn [sign_text append of_json].
  destruct (Ascii.eqb_spec c "-") as [->|_]; [discriminate | reflexivity].
Qed.

Lemma take_digits n d r :
  0 < n -> Str.take n (String d r) = String d (Str.take (n - 1) r).
Proof. destruct n; [lia|]. simpl. now rewrite Nat.sub_0_r. Qed.

(** The text of a numeral in lowest terms is read as the Number the numeral
    denotes. *)
Lemma json_numeral_text neg s e :
  (s mod 10 <> 0)%N ->
  exists c r,
    numeral_text (digits s) e = String c r /\ is_digit c = true /\
    json_numeral neg (String c r) = Some (of_decimal neg s e).
Proof.
  intros Hs.
  assert (Hpos : (0 < s)%N).
  { destruct s; [now rewrite N.Div0.mod_0_l in Hs | lia]. }
  destruct (digits_spec s) as (A & Ne & V & Hd).
  destruct (Hd Hpos) as (d & r & E & Hd'). clear Hd.
  assert (Hdig : is_digit (digit_char d) = true) by (apply is_digit_char; lia).
  unfold numeral_text.
  set (k := Z.of_nat (String.length (digits s))).
  set (n := (e + k)%Z).
  assert (Hk : (0 < k)%Z).
  { unfold k. rewrite E. simpl. lia. }
  destruct ((k <=? n)%Z && (n <=? 21)%Z) eqn:C1.
  { (* the digits, and zeros *)
    apply andb_true_iff in C1 as [C1 _]. apply Z.leb_le in C1.
    exists (digit_char d), (r ++ zeros (Z.to_nat (n - k))).
    split; [now rewrite E|]. split; [exact Hdig|].
    change (String (digit_char d) (r ++ zeros (Z.to_nat (n - k))))
      with (String (digit_char d) r ++ zeros (Z.to_nat (n - k))).
    rewrite <- E.
    rewrite <- (append_nil_r (digits s ++ zeros (Z.to_nat (n - k)))).
    rewrite (json_numeral_read neg _ "" "" "" 0%Z); auto.
    - rewrite !append_nil_r, digits_value_app, V, digits_value_zeros by exact A.
      f_equal. rewrite of_decimal_scale by exact Hs. f_equal.
      unfold n in *. simpl. lia.
    - rewrite E. change (String (digit_char d) r ++ zeros (Z.to_nat (n - k)))
        with (String (digit_char d) (r ++ zeros (Z.to_nat (n - k)))).
      now apply json_int_digit.
    - now rewrite all_append, A, all_digit_zeros. }
  destruct ((0 <? n)%Z && (n <=? 21)%Z) eqn:C2.
  { (* the point among the digits *)
    apply andb_true_iff in C2 as [C2 C2']. apply Z.ltb_lt in C2.
    apply Z.leb_le in C2'.
    assert (C1' : (n < k)%Z).
    { apply andb_false_iff in C1 as [C1|C1]; apply Z.leb_gt in C1; lia. }
    exists (digit_char d), (Str.take (Z.to_nat n - 1) r ++ "." ++ Str.drop (Z.to_nat n) (digits s)).
    split.
    { rewrite E at 1. rewrite take_digits by lia. reflexivity. }
    split; [exact Hdig|].
    change (String (digit_char d)
              (Str.take (Z.to_nat n - 1) r ++ "." ++ Str.drop (Z.to_nat n) (digits s)))
      with (String (digit_char d) (Str.take (Z.to_nat n - 1) r)
              ++ "." ++ Str.drop (Z.to_nat n) (digits s)).
    rewrite <- take_digits by lia. rewrite <- E.
    assert (Hdrop : Str.nonempty (Str.drop (Z.to_nat n) (digits s)) = true).
    { apply nonempty_length. rewrite length_drop. unfold k in *. lia. }
    rewrite (json_numeral_read neg _ _ (Str.drop (Z.to_nat n) (digits s)) "" 0%Z).
    - rewrite take_drop, V. do 2 f_equal. rewrite length_drop.
      unfold n, k in *. lia.
    - rewrite E, take_digits by lia. now apply json_int_digit.
    - now apply all_take.
    - right. exists "."%char, (Str.drop (Z.to_nat n) (digits s)). now split.
    - rewrite <- (append_nil_r (Str.drop (Z.to_nat n) (digits s))) at 1.
      apply fraction_part_point; auto. now apply all_drop.
    - reflexivity. }
  destruct ((-6 <? n)%Z && (n <=? 0)%Z) eqn:C3.
  { (* zeros after the point, and the digits *)
    apply andb_true_iff in C3 as [_ C3]. apply Z.leb_le in C3.
    exists "0"%char, ("." ++ zeros (Z.to_nat (- n)) ++ digits s).
    split; [reflexivity|]. split; [reflexivity|].
    change (String "0" ("." ++ zeros (Z.to_nat (- n)) ++ digits s))
      with ("0" ++ "." ++ zeros (Z.to_nat (- n)) ++ digits s).
    rewrite (json_numeral_read neg "0" _ (zeros (Z.to_nat (- n)) ++ digits s) "" 0%Z).
    - change ("0" ++ zeros (Z.to_nat (- n)) ++ digits s)
        with (zeros (S (Z.to_nat (- n))) ++ digits s).
      rewrite digits_value_app, digits_value_zeros by apply all_digit_zeros.
      rewrite N.mul_0_l, V. do 2 f_equal.
      rewrite length_append, length_zeros. unfold n, k in *. lia.
    - reflexivity.
    - reflexivity.
    - right. eexists _, _. split; [reflexivity | reflexivity].
    - rewrite <- (append_nil_r (zeros (Z.to_nat (- n)) ++ digits s)) at 1.
      apply fraction_part_point; auto.
      + rewrite E. destruct (Z.to_nat (- n)); reflexivity.
      + now rewrite all_append, all_digit_zeros, A.
    - reflexivity. }
  (* the scientific form *)
  destruct (not_digit_exponent (n - 1)) as (x & Hx).
  rewrite E. destruct r as [|c r].
  - exists (digit_char d), (exponent_text (n - 1)).
    split; [reflexivity|]. split; [exact Hdig|].
    change (String (digit_char d) (exponent_text (n - 1)))
      with (String (digit_char d) "" ++ exponent_text (n - 1)).
    rewrite (json_numeral_read neg _ _ "" (exponent_text (n - 1)) (n - 1)%Z).
    + rewrite append_nil_r, <- E, V. do 2 f_equal.
      unfold n, k. rewrite E. simpl. lia.
    + now apply json_int_digit.
    + simpl. now rewrite Hdig.
    + right. exists "e"%char, x. now split.
    + apply fraction_part_exponent.
    + apply exponent_part_text.
  - exists (digit_char d), ("." ++ String c r ++ exponent_text (n - 1)).
    split.
    { change (String (digit_char d) ("." ++ String c r) ++ exponent_text (n - 1))
        with (String (digit_char d) ("." ++ (String c r ++ exponent_text (n - 1)))).
      reflexivity. }
    split; [exact Hdig|].
    assert (Ar : Str.all is_digit (String c r) = true).
    { rewrite E in A. simpl in A. now apply andb_true_iff in A as [_ A]. }
    change (String (digit_char d) ("." ++ String c r ++ exponent_text (n - 1)))
      with (String (digit_char d) "" ++ "." ++ String c r ++ exponent_text (n - 1)).
    rewrite (json_numeral_read neg _ _ (String c r) (exponent_text (n - 1)) (n - 1)%Z).
    + change (String (digit_char d) "" ++ String c r)
        with (String (digit_char d) (String c r)).
      rewrite <- E, V. do 2 f_equal. unfold n, k. rewrite E. simpl. lia.
    + now apply json_int_digit.
    + simpl. now rewrite Hdig.
    + right. eexists _, _. split; reflexivity.
    + apply fraction_part_point; auto. right. exists "e"%char, x. now split.
    + apply exponent_part_text.
Qed.

(** The text of a Number in the form of the embedding is read as that
    Number. *)
Theorem of_json_to_string x :
  canonical x = true -> of_json (to_string x) = Some x.
Proof.
  destruct x as [|neg|neg s e]; try discriminate. intros H.
  destruct (canonical_spec _ _ _ H) as (Hx & [(-> & -> & ->)|(Hs & Hn)]).
  - reflexivity.
  - cbn [to_string]. apply N.eqb_neq in Hs. rewrite Hs. apply N.eqb_neq in Hs.
    assert (Hm : (s mod 10 <> 0)%N).
    { destruct (normalise_result _ _ _ _ Hn) as [[E _]|E]; [contradiction | exact E]. }
    destruct (json_numeral_text neg s e Hm) as (c & r & E & Hc & Hr).
    now rewrite E, of_json_digit, Hr, Hx.
Qed.

(** The text is made of units of numerals. *)
Lemma numeral_unit_digit c : is_digit c = true -> JSON.in_number c = true.
Proof. unfold JSON.in_number. now intros ->. Qed.

Lemma all_numeral_digits s :
  Str.all is_digit s = true -> Str.all JSON.in_number s = true.
Proof. apply all_impl, numeral_unit_digit. Qed.

Lemma all_numeral_exponent y : Str.all JSON.in_number (exponent_text y) = true.
Proof.
  unfold exponent_text.
  destruct (digits_spec (Z.to_N (Z.abs y))) as (A & _).
  rewrite all_append, (all_numeral_digits _ A). now destruct (y <? 0)%Z.
Qed.

Lemma all_numeral_text s e :
  Str.all JSON.in_number (numeral_text (digits s) e) = true.
Proof.
  destruct (digits_spec s) as (A & _). unfold numeral_text.
  pose proof (all_numeral_digits _ A) as U.
  repeat match goal with |- context [if ?b then _ else _] => destruct b end.
  - rewrite all_append, U. apply all_numeral_digits, all_digit_zeros.
  - rewrite !all_append, all_take, all_drop by exact U. reflexivity.
  - change ("0." ++ zeros (Z.to_nat (- (e + Z.of_nat (String.length (digits s))))) ++ digits s)
      with ("0." ++ (zeros (Z.to_nat (- (e + Z.of_nat (String.length (digits s))))) ++ digits s)).
    rewrite !all_append, U, (all_numeral_digits _ (all_digit_zeros _)).
    reflexivity.
  - destruct (digits s) as [|d [|c r]]; [reflexivity | |].
    + simpl in U. apply andb_true_iff in U as [U _].
      cbn [Str.all]. now rewrite U, all_numeral_exponent.
    + change (String d ("." ++ String c r) ++ exponent_text (e + Z.of_nat (String.length (String d (String c r))) - 1))
        with (String d ("." ++ (String c r ++ exponent_text (e + Z.of_nat (String.length (String d (String c r))) - 1)))).
      simpl in U. apply andb_true_iff in U as [Ud U].
      cbn [Str.all append]. rewrite Ud. cbn [andb].
      change (JSON.in_number ".") with true. cbn [andb].
      change (JSON.in_number c && Str.all JSON.in_number (r ++ exponent_text (e + Z.of_nat (String.length (String d (String c r))) - 1)))
        with (Str.all JSON.in_number (String c r ++ exponent_text (e + Z.of_nat (String.length (String d (String c r))) - 1))).
      now rewrite all_append, all_numeral_exponent, andb_true_r.
Qed.

Lemma numeral_text_nonempty s e :
  Str.nonempty (numeral_text (digits s) e) = true.
Proof.
  destruct (digits_spec s) as (_ & Ne & _). unfold numeral_text.
  destruct (digits s) as [|d r]; [discriminate|].
  repeat match goal with |- context [if ?b then _ else _] => destruct b end;
    try reflexivity; try (destruct (Z.to_nat _); reflexivity);
    now destruct r.
Qed.

Lemma to_string_nonempty x : Str.nonempty (to_string x) = true.
Proof.
  destruct x as [|neg|neg s e]; [reflexivity | now destruct neg |].
  cbn [to_string]. destruct (s =? 0)%N; [reflexivity|].
  destruct neg; [reflexivity|]. apply numeral_text_nonempty.
Qed.

End NumberFacts.
(** ** JSON: what is written is read back *)

Section JsonLex.
Import JSON.

Lemma run_app st a b :
  run st (a ++ b) =
  match run st a with Some st' => run st' b | None => None end.
Proof.
  revert st. induction a as [|c a IH]; intros st; simpl; [reflexivity|].
  destruct (step st c); [apply IH | reflexivity].
Qed.

(** After a token that the end of the text would end, a unit that cannot go
    on with a number is read as at the start. *)
Lemma step_flushed st toks c :
  flush st = Some toks -> in_number c = false ->
  step st c = start_step toks c.
Proof.
  destruct st as [m ts].
  destruct m; simpl; intros H Hc; try discriminate.
  - now inversion H.
  - rewrite Hc. destruct (number_token racc); [|discriminate].
    now inversion H.
Qed.

Lemma escape_char_run c racc toks :
  run (MStr racc, toks) (escape_char c) = Some (MStr (String c racc), toks).
Proof.
  destruct c as [b0 b1 b2 b3 b4 b5 b6 b7].
  destruct b0, b1, b2, b3, b4, b5, b6, b7; reflexivity.
Qed.

Lemma escape_run s racc toks :
  run (MStr racc, toks) (escape s) = Some (MStr (Str.rev_append s racc), toks).
Proof.
  revert racc. induction s as [|c s IH]; intros racc; simpl; [reflexivity|].
  rewrite run_app, escape_char_run. apply IH.
Qed.

Lemma quote_run s toks :
  run (MStart, toks) (quote s) = Some (MStart, TStr s :: toks).
Proof.
  unfold quote. change (dquote ++ escape s ++ dquote)
    with (String (ascii_of_nat 34) (escape s ++ dquote)).
  cbn [run]. change (step (MStart, toks) (ascii_of_nat 34))
    with (Some (MStr "", toks)).
  cbv iota beta. rewrite run_app, escape_run.
  unfold dquote. cbn [run]. cbn. now rewrite rev_rev_append.
Qed.

(** *** Numbers *)

Lemma run_in_number r : forall racc toks,
  Str.all in_number r = true ->
  run (MNum racc, toks) r = Some (MNum (Str.rev_append r racc), toks).
Proof.
  induction r as [|c r IH]; intros racc toks H; [reflexivity|].
  simpl in H. apply andb_true_iff in H as [Hc Hr].
  cbn [run step]. rewrite Hc. now apply IH.
Qed.

Lemma start_step_numeral c toks :
  Number.is_digit c = true \/ c = "-"%char ->
  start_step toks c = Some (MNum (String c ""), toks).
Proof.
  intros [H| ->]; [|reflexivity].
  ascii_cases c; try discriminate H; reflexivity.
Qed.

(** A numeral is read to its end, and the end of the text or a unit that
    is not of a numeral makes a token of it. *)
Lemma numeral_run c r x toks :
  Number.is_digit c = true \/ c = "-"%char ->
  Str.all in_number r = true ->
  Number.of_json (String c r) = Some x ->
  exists st, run (MStart, toks) (String c r) = Some st /\
             flush st = Some (TNum x :: toks).
Proof.
  intros Hc Hr Hx. exists (MNum (Str.rev (String c r)), toks). split.
  - cbn [run]. change (step (MStart, toks) c) with (start_step toks c).
    rewrite (start_step_numeral _ _ Hc). now apply run_in_number.
  - cbn [flush]. unfold number_token. now rewrite rev_rev, Hx.
Qed.

Lemma number_run n toks :
  Number.canonical n = true ->
  exists st, run (MStart, toks) (Number.to_string n) = Some st /\
             flush st = Some (TNum n :: toks).
Proof.
  intros H. pose proof (of_json_to_string n H) as Hx.
  destruct n as [|neg|neg s e]; try discriminate.
  destruct (canonical_spec _ _ _ H) as (_ & [(-> & -> & ->)|(Hs & Hn)]).
  - apply (numeral_run "0" ""); [now left | reflexivity | exact Hx].
  - assert (Hm : (s mod 10 <> 0)%N).
    { destruct (normalise_result _ _ _ _ Hn) as [[E _]|E];
        [contradiction | exact E]. }
    destruct (json_numeral_text neg s e Hm) as (c & r & E & Hc & _).
    pose proof (all_numeral_text s e) as U.
    cbn [Number.to_string] in *. apply N.eqb_neq in Hs. rewrite Hs in *.
    rewrite E in *. destruct neg.
    + apply (numeral_run "-" (String c r)); auto.
    + apply (numeral_run c r); auto.
      simpl in U. now apply andb_true_iff in U as [_ U].
Qed.

(** *** Putting pieces of text together *)

Lemma closed_value s ts : reads_closed s ts -> reads_value s ts.
Proof. intros H toks. exists (MStart, (List.rev ts ++ toks)%list). now rewrite H. Qed.

Lemma sep_closed s ts : reads_sep s ts -> reads_closed s ts.
Proof. intros H toks. now apply H. Qed.

Lemma rev_app_toks (t1 t2 toks : list token) :
  (List.rev (t1 ++ t2) ++ toks = List.rev t2 ++ List.rev t1 ++ toks)%list.
Proof. now rewrite rev_app_distr, <- app_assoc. Qed.

Lemma sep_sep s1 t1 s2 t2 :
  reads_sep s1 t1 -> reads_sep s2 t2 -> reads_sep (s1 ++ s2) (t1 ++ t2).
Proof.
  intros H1 H2 st toks Hf. rewrite run_app, (H1 _ _ Hf), rev_app_toks.
  now apply H2.
Qed.

Lemma sep_then_closed s1 t1 s2 t2 :
  reads_sep s1 t1 -> reads_closed s2 t2 -> reads_sep (s1 ++ s2) (t1 ++ t2).
Proof.
  intros H1 H2 st toks Hf. rewrite run_app, (H1 _ _ Hf), rev_app_toks.
  apply H2.
Qed.

Lemma sep_then_value s1 t1 s2 t2 :
  reads_sep s1 t1 -> reads_value s2 t2 -> reads_value (s1 ++ s2) (t1 ++ t2).
Proof.
  intros H1 H2 toks. rewrite run_app, (H1 (MStart, toks) toks eq_refl).
  rewrite rev_app_toks. apply H2.
Qed.

Lemma closed_then_value s1 t1 s2 t2 :
  reads_closed s1 t1 -> reads_value s2 t2 -> reads_value (s1 ++ s2) (t1 ++ t2).
Proof.
  intros H1 H2 toks. rewrite run_app, H1, rev_app_toks. apply H2.
Qed.

Lemma value_then_sep s1 t1 s2 t2 :
  reads_value s1 t1 -> reads_sep s2 t2 -> reads_closed (s1 ++ s2) (t1 ++ t2).
Proof.
  intros H1 H2 toks. destruct (H1 toks) as (st & Hr & Hf).
  rewrite run_app, Hr, rev_app_toks. now apply H2.
Qed.

Lemma closed_ws w : Str.all is_ws w = true -> reads_closed w [].
Proof.
  intros Hw toks. simpl. induction w as [|c w IH]; [reflexivity|].
  simpl in Hw. apply andb_true_iff in Hw as [Hc Hw].
  cbn [run]. change (step (MStart, toks) c) with (start_step toks c).
  unfold start_step. rewrite Hc. now apply IH.
Qed.

Lemma ws_not_in_number c : is_ws c = true -> in_number c = false.
Proof.
  destruct c as [b0 b1 b2 b3 b4 b5 b6 b7].
  destruct b0, b1, b2, b3, b4, b5, b6, b7; try discriminate; reflexivity.
Qed.

Lemma sep_ws c w :
  is_ws c = true -> Str.all is_ws w = true -> reads_sep (String c w) [].
Proof.
  intros Hc Hw st toks Hf. cbn [run].
  rewrite (step_flushed _ _ _ Hf (ws_not_in_number _ Hc)).
  unfold start_step. rewrite Hc. now apply closed_ws.
Qed.

Lemma sep_punct c t :
  in_number c = false ->
  (forall toks, start_step toks c = Some (MStart, t :: toks)) ->
  reads_sep (String c "") [t].
Proof.
  intros Hc Hs st toks Hf. cbn [run]. rewrite (step_flushed _ _ _ Hf Hc), Hs.
  reflexivity.
Qed.

Lemma sep_comma : reads_sep "," [TComma].
Proof. now apply sep_punct. Qed.
Lemma sep_colon : reads_sep ":" [TColon].
Proof. now apply sep_punct. Qed.
Lemma sep_lbrack : reads_sep "[" [TLBrack].
Proof. now apply sep_punct. Qed.
Lemma sep_rbrack : reads_sep "]" [TRBrack].
Proof. now apply sep_punct. Qed.
Lemma sep_lbrace : reads_sep "{" [TLBrace].
Proof. now apply sep_punct. Qed.
Lemma sep_rbrace : reads_sep "}" [TRBrace].
Proof. now apply sep_punct. Qed.

Lemma closed_quote s : reads_closed (quote s) [TStr s].
Proof. intros toks. apply quote_run. Qed.

Lemma value_number n :
  Number.canonical n = true -> reads_value (Number.to_string n) [TNum n].
Proof. intros H toks. now apply number_run. Qed.

(** A Number as a JSON text holds it. *)
Lemma number_reads n :
  negb (Number.is_finite n) || Number.canonical n = true ->
  reads_value (number n) (tokens (JNum n)).
Proof.
  intros H. unfold number. cbn [tokens].
  destruct (Number.is_finite n).
  - now apply value_number.
  - apply closed_value. intros toks. reflexivity.
Qed.

(** Items written with a separator between them. *)
Lemma value_join (A : Type) (text : A -> string) (toks : A -> list token)
    (sep : string) (l : list A) :
  reads_sep sep [TComma] ->
  Forall (fun x => reads_value (text x) (toks x)) l ->
  l <> [] ->
  reads_value (join sep (map text l)) (sepby TComma (map toks l)).
Proof.
  intros Hsep Hall. induction Hall as [|x r Hx Hr IH]; [congruence|].
  intros _. destruct r as [|y r'].
  - exact Hx.
  - change (join sep (map text (x :: y :: r')))
      with (text x ++ sep ++ join sep (map text (y :: r'))).
    change (sepby TComma (map toks (x :: y :: r')))
      with (toks x ++ TComma :: sepby TComma (map toks (y :: r')))%list.
    rewrite <- append_assoc.
    change (toks x ++ TComma :: sepby TComma (map toks (y :: r')))%list
      with (toks x ++ [TComma] ++ sepby TComma (map toks (y :: r')))%list.
    rewrite app_assoc.
    apply closed_then_value.
    + now apply value_then_sep.
    + apply IH. discriminate.
Qed.

(** *** Induction on values, through the lists they hold *)

Lemma json_induction (P : json -> Prop) :
  P JNull -> (forall b, P (JBool b)) -> (forall n, P (JNum n)) ->
  (forall s, P (JStr s)) ->
  (forall l, Forall P l -> P (JArr l)) ->
  (forall l, Forall (fun kv => P (snd kv)) l -> P (JObj l)) ->
  forall v, P v.
Proof.
  intros HN HB HZ HS HA HO.
  refine (fix IH (v : json) : P v :=
    match v with
    | JNull => HN
    | JBool b => HB b
    | JNum n => HZ n
    | JStr s => HS s
    | JArr l => HA l ((fix go (l : list json) : Forall P l :=
        match l with
        | [] => Forall_nil _
        | x :: r => Forall_cons _ (IH x) (go r)
        end) l)
    | JObj l => HO l ((fix go (l : list (string * json))
                          : Forall (fun kv => P (snd kv)) l :=
        match l with
        | [] => Forall_nil _
        | kv :: r => Forall_cons _ (IH (snd kv)) (go r)
        end) l)
    end).
Qed.

Lemma member_reads k text ts :
  reads_value text ts ->
  reads_value (quote k ++ ":" ++ text) (TStr k :: TColon :: ts).
Proof.
  intros H.
  apply (closed_then_value _ [TStr k] _ ([TColon] ++ ts)%list (closed_quote k)).
  now apply sep_then_value; [apply sep_colon|].
Qed.

Lemma Forall_sound (A : Type) (f : A -> json) (P : json -> Prop) l :
  Forall (fun x => sound (f x) = true -> P (f x)) l ->
  forallb (fun x => sound (f x)) l = true ->
  Forall (fun x => P (f x)) l.
Proof.
  induction 1 as [|x r Hx Hr IH]; intros H; [constructor|].
  simpl in H. apply andb_true_iff in H as [H1 H2]. constructor; auto.
Qed.

(** The text [JSON.stringify] writes is read as the tokens of the value. *)
Lemma stringify_reads v :
  sound v = true -> reads_value (stringify v) (tokens v).
Proof.
  induction v as [| [|] | n | s | l IH | l IH] using json_induction;
    intros Hv.
  - apply closed_value. intros toks. reflexivity.
  - apply closed_value. intros toks. reflexivity.
  - apply closed_value. intros toks. reflexivity.
  - now apply number_reads.
  - apply closed_value, closed_quote.
  - cbn [sound] in Hv.
    apply (Forall_sound json (fun x => x)
             (fun x => reads_value (stringify x) (tokens x)) l IH) in Hv.
    clear IH. rename Hv into IH.
    destruct l as [|x r].
    + apply closed_value. intros toks. reflexivity.
    + apply closed_value.
      apply (value_then_sep ("[" ++ join "," (map stringify (x :: r)))
               ([TLBrack] ++ sepby TComma (map tokens (x :: r)))%list
               "]" [TRBrack]); [|apply sep_rbrack].
      apply sep_then_value; [apply sep_lbrack|].
      apply value_join; [apply sep_comma | exact IH | discriminate].
  - cbn [sound] in Hv. apply andb_true_iff in Hv as [_ Hv].
    apply (Forall_sound (string * json) snd
             (fun x => reads_value (stringify x) (tokens x)) l IH) in Hv.
    clear IH. rename Hv into IH.
    destruct l as [|x r].
    + apply closed_value. intros toks. reflexivity.
    + apply closed_value.
      apply (value_then_sep
               ("{" ++ join "," (map (fun kv => quote (fst kv) ++ ":"
                                         ++ stringify (snd kv)) (x :: r)))
               ([TLBrace] ++ sepby TComma
                  (map (fun kv => TStr (fst kv) :: TColon :: tokens (snd kv))
                     (x :: r)))%list
               "}" [TRBrace]); [|apply sep_rbrace].
      apply sep_then_value; [apply sep_lbrace|].
      apply value_join; [apply sep_comma | | discriminate].
      revert IH. apply Forall_impl. intros kv Hkv. now apply member_reads.
Qed.

(** *** The indented form *)

Lemma ws_newline_indent ind :
  Str.all is_ws ind = true -> Str.all is_ws (newline ++ ind) = true.
Proof. intros H. rewrite all_append, H. reflexivity. Qed.

Lemma block_reads (opn cls : string) (topn tcls : token) ind' ind items ts :
  reads_sep opn [topn] -> reads_sep cls [tcls] ->
  Str.all is_ws ind' = true -> Str.all is_ws ind = true ->
  reads_value items ts ->
  reads_value (opn ++ newline ++ ind' ++ items ++ newline ++ ind ++ cls)
    (topn :: ts ++ [tcls]).
Proof.
  intros Ho Hc Hi' Hi Hitems. apply closed_value.
  assert (S1 : reads_sep (opn ++ newline ++ ind') ([topn] ++ [])).
  { apply sep_then_closed; [exact Ho|].
    now apply closed_ws, ws_newline_indent. }
  assert (S3 : reads_sep ((newline ++ ind) ++ cls) ([] ++ [tcls])).
  { apply sep_sep; [|exact Hc]. now apply sep_ws. }
  pose proof (value_then_sep _ _ _ _ (sep_then_value _ _ _ _ S1 Hitems) S3) as H.
  rewrite !append_assoc in H. simpl app in H. exact H.
Qed.

Lemma sep_comma_indent ind :
  Str.all is_ws ind = true -> reads_sep ("," ++ newline ++ ind) [TComma].
Proof.
  intros H.
  apply (sep_then_closed "," [TComma] (newline ++ ind) [] sep_comma).
  now apply closed_ws, ws_newline_indent.
Qed.

Lemma member_reads_indent k text ts :
  reads_value text ts ->
  reads_value (quote k ++ ": " ++ text) (TStr k :: TColon :: ts).
Proof.
  intros H.
  apply (closed_then_value _ [TStr k] _ ([TColon] ++ ts)%list (closed_quote k)).
  apply (sep_then_value ": " [TColon] text ts); [|exact H].
  apply (sep_then_closed ":" [TColon] " " [] sep_colon).
  now apply closed_ws.
Qed.

(** The text [JSON.stringify(v, null, gap)] writes is read as the same
    tokens, when the gap is made of spaces. *)
Lemma stringify_indent_reads gap v :
  Str.all is_ws gap = true -> sound v = true ->
  forall ind, Str.all is_ws ind = true ->
  reads_value (stringify_indent gap ind v) (tokens v).
Proof.
  intros Hgap.
  induction v as [| [|] | n | s | l IH | l IH] using json_induction;
    intros Hv ind Hind.
  - apply closed_value. intros toks. reflexivity.
  - apply closed_value. intros toks. reflexivity.
  - apply closed_value. intros toks. reflexivity.
  - now apply number_reads.
  - apply closed_value, closed_quote.
  - cbn [sound] in Hv.
    apply (Forall_sound json (fun x => x)
             (fun x => forall ind, Str.all is_ws ind = true ->
                reads_value (stringify_indent gap ind x) (tokens x)) l IH)
      in Hv.
    clear IH. rename Hv into IH.
    destruct l as [|x r].
    + apply closed_value. intros toks. reflexivity.
    + assert (Hind' : Str.all is_ws (ind ++ gap) = true)
        by now rewrite all_append, Hind, Hgap.
      apply (block_reads "[" "]" TLBrack TRBrack (ind ++ gap) ind
               (join ("," ++ newline ++ ind ++ gap)
                  (map (stringify_indent gap (ind ++ gap)) (x :: r))));
        auto using sep_lbrack, sep_rbrack.
      apply value_join; [now apply sep_comma_indent | | discriminate].
      revert IH. apply Forall_impl. intros y Hy. now apply Hy.
  - cbn [sound] in Hv. apply andb_true_iff in Hv as [_ Hv].
    apply (Forall_sound (string * json) snd
             (fun x => forall ind, Str.all is_ws ind = true ->
                reads_value (stringify_indent gap ind x) (tokens x)) l IH)
      in Hv.
    clear IH. rename Hv into IH.
    destruct l as [|x r].
    + apply closed_value. intros toks. reflexivity.
    + assert (Hind' : Str.all is_ws (ind ++ gap) = true)
        by now rewrite all_append, Hind, Hgap.
      apply (block_reads "{" "}" TLBrace TRBrace (ind ++ gap) ind
               (join ("," ++ newline ++ ind ++ gap)
                  (map (fun kv => quote (fst kv) ++ ": "
                          ++ stringify_indent gap (ind ++ gap) (snd kv))
                     (x :: r))));
        auto using sep_lbrace, sep_rbrace.
      apply value_join; [now apply sep_comma_indent | | discriminate].
      revert IH. apply Forall_impl. intros kv Hkv.
      now apply member_reads_indent, Hkv.
Qed.

End JsonLex.

(** *** Objects *)

Section ObjFacts.
Context {A : Type}.
Implicit Types (o l : list (string * A)).

Lemma distinct_NoDup (ks : list string) : JSON.distinct ks = true <-> NoDup ks.
Proof.
  induction ks as [|k r IH]; simpl.
  - split; [constructor | reflexivity].
  - rewrite andb_true_iff, negb_true_iff, IH. split.
    + intros [Hk Hr]. constructor; [|exact Hr]. intros Hin.
      assert (E : existsb (String.eqb k) r = true).
      { apply existsb_exists. exists k. split; [exact Hin|apply String.eqb_refl]. }
      congruence.
    + intros H. inversion H as [|? ? Hk Hr]; subst. split; [|exact Hr].
      destruct (existsb (String.eqb k) r) eqn:E; [|reflexivity].
      apply existsb_exists in E as (x & Hx & Heq).
      apply String.eqb_eq in Heq. subst. contradiction.
Qed.

Lemma has_spec k o : Obj.has k o = true <-> In k (Obj.keys o).
Proof.
  unfold Obj.has. induction o as [|[k' v'] r IH]; simpl.
  - split; [discriminate | tauto].
  - destruct (String.eqb_spec k k') as [->|Hne].
    + split; auto.
    + rewrite IH. split; [now right | intros [E|H]; [congruence | exact H]].
Qed.

Lemma has_false k o : ~ In k (Obj.keys o) -> Obj.has k o = false.
Proof.
  intros H. destruct (Obj.has k o) eqn:E; [|reflexivity].
  now apply has_spec in E.
Qed.

Lemma keys_replace k (v : A) o : Obj.keys (Obj.replace k v o) = Obj.keys o.
Proof.
  induction o as [|[k' v'] r IH]; simpl; [reflexivity|].
  destruct (String.eqb_spec k k') as [->|Hne]; simpl; [reflexivity|].
  now rewrite IH.
Qed.

Lemma keys_insert k (v : A) o x :
  In x (Obj.keys (Obj.insert k v o)) <-> x = k \/ In x (Obj.keys o).
Proof.
  induction o as [|[k' v'] r IH]; simpl.
  - intuition.
  - destruct (Obj.rank k <? Obj.rank k')%N; simpl.
    + intuition.
    + rewrite IH. intuition.
Qed.

Lemma get_replace k (v : A) o x :
  In k (Obj.keys o) ->
  Obj.get x (Obj.replace k v o)
  = if String.eqb x k then Some v else Obj.get x o.
Proof.
  induction o as [|[k' v'] r IH]; simpl; intros H; [contradiction|].
  destruct (String.eqb_spec k k') as [->|Hne]; simpl.
  - now destruct (String.eqb x k').
  - destruct (String.eqb_spec x k') as [->|Hx].
    + destruct (String.eqb_spec k' k); [congruence | reflexivity].
    + apply IH. destruct H as [E|H]; [congruence | exact H].
Qed.

Lemma get_insert k (v : A) o x :
  ~ In k (Obj.keys o) ->
  Obj.get x (Obj.insert k v o)
  = if String.eqb x k then Some v else Obj.get x o.
Proof.
  induction o as [|[k' v'] r IH]; simpl; intros H; [reflexivity|].
  destruct (Obj.rank k <? Obj.rank k')%N; simpl.
  - reflexivity.
  - destruct (String.eqb_spec x k') as [->|Hx].
    + destruct (String.eqb_spec k' k) as [E|_]; [|reflexivity].
      exfalso. apply H. now left.
    + apply IH. intros Hin. apply H. now right.
Qed.

(** A name that none of the names comes after is added last. *)
Lemma set_last k (v : A) o :
  ~ In k (Obj.keys o) ->
  (forall k', In k' (Obj.keys o) -> (Obj.rank k' <= Obj.rank k)%N) ->
  Obj.set k v o = (o ++ [(k, v)])%list.
Proof.
  intros Hk Hr. unfold Obj.set. rewrite (has_false _ _ Hk). clear Hk.
  induction o as [|[k' v'] r IH]; simpl; [reflexivity|].
  destruct (N.ltb_spec (Obj.rank k) (Obj.rank k')) as [Hlt|_].
  - specialize (Hr k' (or_introl eq_refl)). lia.
  - rewrite IH; [reflexivity|]. intros x Hx. apply Hr. now right.
Qed.

Lemma ordered_app a : forall k b,
  Obj.ordered (a ++ k :: b) = true ->
  forall k', In k' a -> (Obj.rank k' <= Obj.rank k)%N.
Proof.
  induction a as [|x a IH]; intros k b H k' Hin; [contradiction|].
  simpl in H. apply andb_true_iff in H as [Hx Ha].
  destruct Hin as [<-|Hin].
  - rewrite forallb_forall in Hx. apply N.leb_le, Hx.
    apply in_or_app. right. now left.
  - exact (IH _ _ Ha _ Hin).
Qed.

Lemma fold_set_ordered l : forall o,
  NoDup (map fst (o ++ l)%list) ->
  Obj.ordered (map fst (o ++ l)%list) = true ->
  fold_left (fun o kv => Obj.set (fst kv) (snd kv) o) l o = (o ++ l)%list.
Proof.
  induction l as [|[k v] r IH]; intros o H Ho; simpl.
  - now rewrite app_nil_r.
  - rewrite set_last.
    + rewrite IH; rewrite <- app_assoc; [reflexivity | exact H | exact Ho].
    + rewrite map_app in H. simpl in H. apply NoDup_remove_2 in H.
      intros Hin. apply H. apply in_or_app. now left.
    + rewrite map_app in Ho. simpl in Ho. exact (ordered_app _ _ _ Ho).
Qed.

(** The members of an object, defined in turn, make the object. *)
Lemma of_members_ordered l :
  JSON.distinct (map fst l) = true -> Obj.ordered (map fst l) = true ->
  Obj.of_members l = l.
Proof.
  intros H Ho. unfold Obj.of_members. apply (fold_set_ordered l []); simpl.
  - now apply distinct_NoDup.
  - exact Ho.
Qed.

Lemma keys_set_NoDup k (v : A) o :
  NoDup (Obj.keys o) -> NoDup (Obj.keys (Obj.set k v o)).
Proof.
  intros H. unfold Obj.set. destruct (Obj.has k o) eqn:E.
  - now rewrite keys_replace.
  - assert (Hk : ~ In k (Obj.keys o)).
    { intros Hin. apply has_spec in Hin. congruence. }
    clear E. induction o as [|[k' v'] r IH]; simpl.
    + constructor; [tauto | constructor].
    + simpl in H. inversion H as [|? ? Hk' Hr]; subst.
      destruct (Obj.rank k <? Obj.rank k')%N; simpl.
      * constructor; [exact Hk | exact H].
      * constructor.
        -- rewrite keys_insert. intros [E|Hin]; [|contradiction].
           apply Hk. now left.
        -- apply IH; [exact Hr|]. intros Hin. apply Hk. now right.
Qed.

Lemma keys_set_ordered k (v : A) o :
  Obj.ordered (Obj.keys o) = true ->
  Obj.ordered (Obj.keys (Obj.set k v o)) = true.
Proof.
  intros H. unfold Obj.set. destruct (Obj.has k o).
  - now rewrite keys_replace.
  - induction o as [|[k' v'] r IH]; simpl; [reflexivity|].
    simpl in H. apply andb_true_iff in H as [Hk' Hr].
    destruct (N.ltb_spec (Obj.rank k) (Obj.rank k')) as [Hlt|Hge]; simpl.
    + rewrite Hk', Hr, !andb_true_r. apply andb_true_iff. split.
      * apply N.leb_le. lia.
      * rewrite forallb_forall in Hk' |- *. intros x Hx.
        specialize (Hk' x Hx). apply N.leb_le in Hk'. apply N.leb_le. lia.
    + rewrite (IH Hr), andb_true_r. apply forallb_forall. intros x Hx.
      apply keys_insert in Hx as [->|Hx].
      * now apply N.leb_le.
      * rewrite forallb_forall in Hk'. now apply Hk'.
Qed.

Lemma set_values (P : A -> Prop) k v o :
  P v -> Forall (fun kv => P (snd kv)) o ->
  Forall (fun kv => P (snd kv)) (Obj.set k v o).
Proof.
  intros Hv Ho. unfold Obj.set. destruct (Obj.has k o).
  - induction Ho as [|[k' v'] r Hx Hr IH]; simpl; [constructor|].
    destruct (String.eqb k k'); constructor; auto.
  - induction Ho as [|[k' v'] r Hx Hr IH]; simpl.
    + constructor; [exact Hv | constructor].
    + destruct (Obj.rank k <? Obj.rank k')%N; constructor; auto.
Qed.

(** What holds of an object built by defining members in turn. *)
Lemma of_members_spec (P : A -> Prop) l :
  Forall (fun kv => P (snd kv)) l ->
  NoDup (Obj.keys (Obj.of_members l)) /\
  Obj.ordered (Obj.keys (Obj.of_members l)) = true /\
  Forall (fun kv => P (snd kv)) (Obj.of_members l).
Proof.
  unfold Obj.of_members.
  assert (G : forall o,
    Forall (fun kv => P (snd kv)) l ->
    NoDup (Obj.keys o) -> Obj.ordered (Obj.keys o) = true ->
    Forall (fun kv => P (snd kv)) o ->
    let o' := fold_left (fun o kv => Obj.set (fst kv) (snd kv) o) l o in
    NoDup (Obj.keys o') /\ Obj.ordered (Obj.keys o') = true /\
    Forall (fun kv => P (snd kv)) o').
  { induction l as [|[k v] r IH]; intros o Hl Hn Ho Hp; simpl.
    - auto.
    - inversion Hl as [|? ? Hv Hr]; subst. apply IH; auto.
      + now apply keys_set_NoDup.
      + now apply keys_set_ordered.
      + now apply set_values. }
  intros Hl. apply G; auto; constructor.
Qed.

Lemma get_delete_same k o : Obj.get k (Obj.delete k o) = None.
Proof.
  induction o as [|[k' v'] r IH]; simpl; [reflexivity|].
  destruct (String.eqb_spec k k') as [->|Hne]; [exact IH|].
  simpl. destruct (String.eqb_spec k k'); [contradiction | exact IH].
Qed.

Lemma get_delete_other k k' o :
  k <> k' -> Obj.get k' (Obj.delete k o) = Obj.get k' o.
Proof.
  intros Hne. induction o as [|[k0 v0] r IH]; simpl; [reflexivity|].
  destruct (String.eqb_spec k k0) as [->|Hne0].
  - destruct (String.eqb_spec k' k0); [congruence | exact IH].
  - simpl. now rewrite IH.
Qed.

Lemma keys_delete k o : ~ In k (Obj.keys (Obj.delete k o)).
Proof.
  induction o as [|[k' v'] r IH]; simpl; [tauto|].
  destruct (String.eqb_spec k k') as [->|Hne]; [exact IH|].
  simpl. intros [E|Hin]; [congruence | contradiction].
Qed.

Lemma keys_delete_incl k o x :
  In x (Obj.keys (Obj.delete k o)) -> In x (Obj.keys o).
Proof.
  induction o as [|[k' v'] r IH]; simpl; [tauto|].
  destruct (String.eqb k k'); simpl; intuition.
Qed.

Lemma ordered_delete k o :
  Obj.ordered (Obj.keys o) = true ->
  Obj.ordered (Obj.keys (Obj.delete k o)) = true.
Proof.
  induction o as [|[k' v'] r IH]; simpl; [reflexivity|]. intros H.
  apply andb_true_iff in H as [Hk Hr].
  destruct (String.eqb k k'); [now apply IH|].
  simpl. rewrite (IH Hr), andb_true_r.
  rewrite forallb_forall in Hk |- *. intros x Hx. apply Hk.
  exact (keys_delete_incl _ _ _ Hx).
Qed.

Lemma delete_absent k o : ~ In k (Obj.keys o) -> Obj.delete k o = o.
Proof.
  induction o as [|[k' v'] r IH]; simpl; intros H; [reflexivity|].
  destruct (String.eqb_spec k k') as [->|Hne].
  - exfalso. apply H. now left.
  - rewrite IH; [reflexivity|]. intros Hin. apply H. now right.
Qed.

End ObjFacts.

(** *** Reading the tokens *)

Section JsonParse.
Import JSON.

Lemma tokens_head v : exists t r, tokens v = t :: r /\ value_start t.
Proof.
  destruct v as [| [|] | n | s | l | l]; simpl;
    try destruct (Number.is_finite n);
    do 2 eexists; (split; [reflexivity | exact I]).
Qed.

Lemma sepby_head l :
  l <> [] -> exists t r, sepby TComma (map tokens l) = t :: r /\ value_start t.
Proof.
  destruct l as [|x r]; [congruence|]. intros _.
  destruct (tokens_head x) as (t & r' & E & Ht).
  destruct r as [|y r'']; simpl; rewrite E; simpl;
    do 2 eexists; (split; [reflexivity | exact Ht]).
Qed.

Lemma parse_items_tokens l :
  Forall reads_back l -> forallb wf l = true -> l <> [] ->
  forall fuel rest,
    2 * List.length (sepby TComma (map tokens l)) + 2 <= fuel ->
    parse_items fuel (sepby TComma (map tokens l) ++ TRBrack :: rest)
    = Some (l, rest).
Proof.
  intros Hall. induction Hall as [|x r Hx Hr IH]; [congruence|].
  intros Hwf _ fuel rest Hfuel.
  simpl in Hwf. apply andb_true_iff in Hwf as [Hwx Hwr].
  destruct fuel as [|f]; [lia|].
  destruct r as [|y r'].
  - simpl sepby in *. cbn [parse_items].
    rewrite (Hx Hwx) by lia. reflexivity.
  - change (sepby TComma (map tokens (x :: y :: r')))
      with (tokens x ++ TComma :: sepby TComma (map tokens (y :: r')))%list
      in *.
    rewrite length_app in Hfuel. cbn [List.length] in Hfuel.
    rewrite <- app_assoc. cbn [parse_items].
    rewrite (Hx Hwx) by lia. rewrite <- app_comm_cons.
    rewrite IH; [reflexivity | exact Hwr | discriminate | lia].
Qed.

Lemma parse_members_tokens l :
  Forall (fun kv => reads_back (snd kv)) l ->
  forallb (fun kv => wf (snd kv)) l = true -> l <> [] ->
  forall fuel rest,
    2 * List.length
          (sepby TComma
             (map (fun kv => TStr (fst kv) :: TColon :: tokens (snd kv)) l))
      + 2 <= fuel ->
    parse_members fuel
      (sepby TComma
         (map (fun kv => TStr (fst kv) :: TColon :: tokens (snd kv)) l)
         ++ TRBrace :: rest)
    = Some (l, rest).
Proof.
  intros Hall. induction Hall as [|[k x] r Hx Hr IH]; [congruence|].
  intros Hwf _ fuel rest Hfuel.
  simpl in Hwf, Hx. apply andb_true_iff in Hwf as [Hwx Hwr].
  destruct fuel as [|f]; [lia|].
  destruct r as [|y r'].
  - simpl sepby in *. cbn [List.length] in Hfuel. simpl app.
    cbn [parse_members]. rewrite (Hx Hwx) by lia. reflexivity.
  - set (mk := fun kv : string * json =>
                 TStr (fst kv) :: TColon :: tokens (snd kv)) in *.
    change (sepby TComma (map mk ((k, x) :: y :: r')))
      with ((TStr k :: TColon :: tokens x)
              ++ TComma :: sepby TComma (map mk (y :: r')))%list in *.
    rewrite length_app in Hfuel. cbn [List.length] in Hfuel.
    rewrite <- app_assoc. rewrite <- !app_comm_cons. cbn [parse_members].
    rewrite (Hx Hwx) by lia.
    rewrite IH; [reflexivity | exact Hwr | discriminate | lia].
Qed.

(** The tokens of a value are read back as the value. *)
Lemma parse_value_tokens v : reads_back v.
Proof.
  induction v as [| [|] | n | s | l IH | l IH] using json_induction;
    intros Hwf fuel rest Hfuel;
    (destruct fuel as [|f]; [lia|]); try reflexivity.
  - destruct n; try discriminate. reflexivity.
  - destruct l as [|x r]; [reflexivity|].
    change (tokens (JArr (x :: r)))
      with (TLBrack :: sepby TComma (map tokens (x :: r)) ++ [TRBrack])%list
      in *.
    cbn [List.length] in Hfuel. rewrite length_app in Hfuel.
    cbn [List.length] in Hfuel.
    rewrite <- app_comm_cons, <- app_assoc.
    change ([TRBrack] ++ rest)%list with (TRBrack :: rest).
    pose proof (parse_items_tokens (x :: r) IH Hwf ltac:(discriminate) f rest
                  ltac:(lia)) as Hp.
    destruct (sepby_head (x :: r)) as (t & ts & E & Ht); [discriminate|].
    rewrite E in Hp |- *. cbn [parse_value app] in *.
    destruct t; try contradiction; now rewrite Hp.
  - destruct l as [|[k x] r]; [reflexivity|].
    cbn [wf] in Hwf. apply andb_true_iff in Hwf as [Hd Hwf].
    apply andb_true_iff in Hd as [Hd Ho].
    set (mk := fun kv : string * json =>
                 TStr (fst kv) :: TColon :: tokens (snd kv)) in *.
    change (tokens (JObj ((k, x) :: r)))
      with (TLBrace :: sepby TComma (map mk ((k, x) :: r)) ++ [TRBrace])%list
      in *.
    cbn [List.length] in Hfuel. rewrite length_app in Hfuel.
    cbn [List.length] in Hfuel.
    rewrite <- app_comm_cons, <- app_assoc.
    change ([TRBrace] ++ rest)%list with (TRBrace :: rest).
    pose proof (parse_members_tokens ((k, x) :: r) IH Hwf ltac:(discriminate)
                  f rest) as Hp.
    fold mk in Hp. specialize (Hp ltac:(lia)).
    assert (E : exists ts, sepby TComma (map mk ((k, x) :: r)) = TStr k :: ts).
    { destruct r; simpl; eexists; reflexivity. }
    destruct E as (ts & E). rewrite E in Hp |- *.
    cbn [parse_value app] in *. rewrite Hp.
    now rewrite (of_members_ordered ((k, x) :: r) Hd Ho).
Qed.

Lemma lex_of_reads s ts : reads_value s ts -> lex s = Some ts.
Proof.
  intros H. unfold lex. destruct (H []) as (st & -> & ->).
  simpl. now rewrite app_nil_r, rev_involutive.
Qed.

Lemma parse_of_reads s v :
  wf v = true -> reads_value s (tokens v) -> parse s = Returned v.
Proof.
  intros Hwf H. unfold parse. rewrite (lex_of_reads _ _ H).
  pose proof (parse_value_tokens v Hwf (2 * List.length (tokens v) + 2) []
                ltac:(lia)) as Hp.
  rewrite app_nil_r in Hp. now rewrite Hp.
Qed.

Lemma wf_sound v : wf v = true -> sound v = true.
Proof.
  induction v as [| b | n | s | l IH | l IH] using json_induction;
    try reflexivity; cbn [wf sound]; intros H.
  - rewrite H. apply orb_true_r.
  - rewrite forallb_forall in H |- *. rewrite Forall_forall in IH.
    intros x Hx. apply IH; auto.
  - apply andb_true_iff in H as [-> H]. cbn [andb].
    rewrite forallb_forall in H |- *. rewrite Forall_forall in IH.
    intros x Hx. apply IH; auto.
Qed.

Lemma finite_wf v : wf v = true -> finite v = v.
Proof.
  induction v as [| b | n | s | l IH | l IH] using json_induction;
    try reflexivity; cbn [wf finite]; intros H.
  - destruct n; try discriminate. reflexivity.
  - f_equal. rewrite forallb_forall in H. rewrite Forall_forall in IH.
    rewrite <- (map_id l) at 2. apply map_ext_in. intros x Hx. apply IH; auto.
  - f_equal. apply andb_true_iff in H as [_ H].
    rewrite forallb_forall in H. rewrite Forall_forall in IH.
    rewrite <- (map_id l) at 2. apply map_ext_in. intros [k x] Hx.
    simpl. f_equal. apply (IH (k, x) Hx). exact (H (k, x) Hx).
Qed.

Lemma keys_finite l :
  map fst (map (fun kv : string * json => (fst kv, finite (snd kv))) l)
  = map fst l.
Proof. rewrite map_map. reflexivity. Qed.

(** What a JSON text holds of a value can be held by a JSON text. *)
Lemma wf_finite v : sound v = true -> wf (finite v) = true.
Proof.
  induction v as [| b | n | s | l IH | l IH] using json_induction;
    try reflexivity; cbn [sound finite]; intros H.
  - destruct (Number.is_finite n) eqn:E; [exact H | reflexivity].
  - cbn [wf]. rewrite forallb_forall in H |- *. rewrite Forall_forall in IH.
    intros y Hy. apply in_map_iff in Hy as (x & <- & Hx). apply IH; auto.
  - cbn [wf]. rewrite keys_finite. apply andb_true_iff in H as [-> H].
    cbn [andb]. rewrite forallb_forall in H |- *. rewrite Forall_forall in IH.
    intros y Hy. apply in_map_iff in Hy as (x & <- & Hx). simpl.
    apply IH; auto.
Qed.

Lemma sepby_ext (A : Type) (f g : A -> list token) l :
  (forall x, In x l -> f x = g x) ->
  sepby TComma (map f l) = sepby TComma (map g l).
Proof. intros H. f_equal. now apply map_ext_in. Qed.

(** It is written with the same tokens. *)
Lemma tokens_finite v : tokens (finite v) = tokens v.
Proof.
  induction v as [| b | n | s | l IH | l IH] using json_induction;
    try reflexivity; cbn [finite tokens].
  - destruct (Number.is_finite n) eqn:E; cbn [tokens]; now rewrite ?E.
  - do 2 f_equal. rewrite map_map. apply sepby_ext.
    now apply Forall_forall.
  - do 2 f_equal. rewrite map_map. apply sepby_ext. intros [k x] Hx.
    simpl. do 2 f_equal. rewrite Forall_forall in IH. exact (IH _ Hx).
Qed.

Lemma parse_of_reads_sound s v :
  sound v = true -> reads_value s (tokens v) -> parse s = Returned (finite v).
Proof.
  intros Hv H. apply parse_of_reads; [now apply wf_finite|].
  now rewrite tokens_finite.
Qed.

(** [JSON.parse(JSON.stringify(v))] is [v]. *)
Theorem parse_stringify v : wf v = true -> parse (stringify v) = Returned v.
Proof.
  intros H. apply parse_of_reads; [exact H|].
  now apply stringify_reads, wf_sound.
Qed.

(** [JSON.parse(JSON.stringify(v, null, gap))] is [v] too. *)
Theorem parse_stringify_pretty gap v :
  Str.all is_ws gap = true -> wf v = true ->
  parse (stringify_pretty gap v) = Returned v.
Proof.
  intros Hg H. apply parse_of_reads; [exact H|].
  apply stringify_indent_reads; auto. now apply wf_sound.
Qed.

(** Of a value of an object graph, the text holds what a JSON text can. *)
Theorem parse_stringify_sound v :
  sound v = true -> parse (stringify v) = Returned (finite v).
Proof.
  intros H. apply parse_of_reads_sound; [exact H|]. now apply stringify_reads.
Qed.

(** *** What is read is a value of an object graph *)

Lemma of_json_sound t x :
  Number.of_json t = Some x -> sound_token (TNum x) = true.
Proof.
  assert (G : forall neg r, Number.json_numeral neg r = Some x ->
                            sound_token (TNum x) = true).
  { intros neg r. unfold Number.json_numeral.
    destruct (Str.break Number.not_digit r) as [int r1].
    destruct (Number.json_int int); [|discriminate].
    destruct (Number.fraction_part r1) as [[f r2]|]; [|discriminate].
    destruct (Number.exponent_part r2); [|discriminate].
    intros H. inversion H. apply of_decimal_canonical. }
  unfold Number.of_json. destruct t as [|c r]; [discriminate|].
  destruct (Ascii.eqb c "-"); apply G.
Qed.

Lemma number_token_sound racc t :
  number_token racc = Some t -> sound_token t = true.
Proof.
  unfold number_token. destruct (Number.of_json (Str.rev racc)) eqn:E;
    [|discriminate].
  intros H. inversion H. exact (of_json_sound _ _ E).
Qed.

Lemma start_step_sound toks c st :
  forallb sound_token toks = true ->
  start_step toks c = Some st -> sound_state st = true.
Proof.
  intros H. unfold start_step. destruct (is_ws c).
  - intros E. inversion E. simpl. now rewrite H.
  - ascii_cases c; cbn; intros E; try discriminate; inversion E;
      simpl; now rewrite H.
Qed.

Lemma step_sound st c st' :
  sound_state st = true -> step st c = Some st' -> sound_state st' = true.
Proof.
  destruct st as [m toks]. cbn [sound_state]. intros H.
  apply andb_true_iff in H as [Ht Hm].
  destruct m; cbn [step].
  - now apply start_step_sound.
  - destruct rest as [|x r]; [discriminate|].
    destruct (Ascii.eqb c x); [|discriminate].
    destruct r; intros E; inversion E; simpl; now rewrite Ht, ?Hm.
  - destruct (in_number c).
    + intros E. inversion E. simpl. now rewrite Ht.
    + destruct (number_token racc) as [t|] eqn:En; [|discriminate].
      apply start_step_sound. simpl.
      now rewrite (number_token_sound _ _ En), Ht.
  - repeat match goal with |- context [if ?b then _ else _] => destruct b end;
      intros E; try discriminate; inversion E; simpl; now rewrite Ht.
  - destruct (_ || _).
    + intros E. inversion E. simpl. now rewrite Ht.
    + ascii_cases c; intros E; try discriminate; inversion E;
        simpl; now rewrite Ht.
  - destruct (hex_val c); [|discriminate].
    destruct k as [|[|k]]; intros E; try discriminate; inversion E;
      simpl; now rewrite Ht.
Qed.

Lemma run_sound s : forall st st',
  sound_state st = true -> run st s = Some st' -> sound_state st' = true.
Proof.
  induction s as [|c s IH]; intros st st' H; simpl.
  - intros E. inversion E; subst. exact H.
  - destruct (step st c) as [st1|] eqn:E; [|discriminate].
    apply IH. exact (step_sound _ _ _ H E).
Qed.

Lemma lex_sound s ts : lex s = Some ts -> forallb sound_token ts = true.
Proof.
  unfold lex. destruct (run (MStart, []) s) as [[m toks]|] eqn:E;
    [|discriminate].
  pose proof (run_sound s (MStart, []) (m, toks) eq_refl E) as H.
  cbn [sound_state] in H.
  apply andb_true_iff in H as [H _].
  assert (G : forall l, flush (m, toks) = Some l ->
                        forallb sound_token l = true).
  { destruct m; cbn [flush]; intros l El; try discriminate.
    - inversion El; subst. exact H.
    - destruct (number_token racc) as [t|] eqn:En; [|discriminate].
      inversion El; subst. simpl.
      now rewrite (number_token_sound _ _ En), H. }
  destruct (flush (m, toks)) as [l|]; [|discriminate].
  intros El. inversion El. pose proof (G l eq_refl) as Hl.
  rewrite forallb_forall in Hl |- *.
  intros x Hx. apply Hl. now apply in_rev.
Qed.

Lemma parse_value_sound fuel : forall ts,
  forallb sound_token ts = true ->
  (forall v r, parse_value fuel ts = Some (v, r) ->
     sound v = true /\ forallb sound_token r = true) /\
  (forall l r, parse_items fuel ts = Some (l, r) ->
     forallb sound l = true /\ forallb sound_token r = true) /\
  (forall l r, parse_members fuel ts = Some (l, r) ->
     forallb (fun kv => sound (snd kv)) l = true /\
     forallb sound_token r = true).
Proof.
  induction fuel as [|f IH]; intros ts Hts.
  - repeat split; discriminate.
  - split; [|split].
    + intros v r. cbn [parse_value].
      destruct ts as [|t ts]; [discriminate|].
      simpl in Hts. apply andb_true_iff in Hts as [Ht Hts].
      destruct t; try discriminate;
        try (intros E; inversion E; subst; now split).
      * destruct ts as [|t' ts'].
        -- destruct (parse_members f []) as [[l r']|] eqn:E; [|discriminate].
           destruct f; discriminate.
        -- assert (G : forall l r', parse_members f (t' :: ts') = Some (l, r') ->
                        sound (JObj (Obj.of_members l)) = true /\
                        forallb sound_token r' = true).
           { intros l r' E.
             destruct (proj2 (proj2 (IH (t' :: ts') Hts)) _ _ E) as [Hl Hr].
             split; [|exact Hr]. cbn [sound].
             destruct (of_members_spec (fun x => sound x = true) l)
               as (Hn & Ho & Hv).
             { apply Forall_forall. rewrite forallb_forall in Hl. exact Hl. }
             apply distinct_NoDup in Hn. unfold Obj.keys in *.
             rewrite Hn, Ho. cbn [andb]. apply forallb_forall.
             rewrite Forall_forall in Hv. exact Hv. }
           destruct t';
             try (destruct (parse_members f _) as [[l r']|] eqn:E;
                  [|discriminate];
                  intros E'; inversion E'; subst; exact (G _ _ eq_refl)).
           intros E'. inversion E'; subst. simpl in Hts. now split.
      * destruct ts as [|t' ts'].
        -- destruct (parse_items f []) as [[l r']|] eqn:E; [|discriminate].
           destruct f as [|[|f']]; discriminate.
        -- assert (G : forall l r', parse_items f (t' :: ts') = Some (l, r') ->
                        sound (JArr l) = true /\
                        forallb sound_token r' = true).
           { intros l r' E.
             exact (proj1 (proj2 (IH (t' :: ts') Hts)) _ _ E). }
           destruct t';
             try (destruct (parse_items f _) as [[l r']|] eqn:E;
                  [|discriminate];
                  intros E'; inversion E'; subst; exact (G _ _ eq_refl)).
           intros E'. inversion E'; subst. simpl in Hts. now split.
    + intros l r. cbn [parse_items].
      destruct (parse_value f ts) as [[v r1]|] eqn:E; [|discriminate].
      destruct (proj1 (IH ts Hts) _ _ E) as [Hv Hr1].
      destruct r1 as [|t r1]; [discriminate|].
      simpl in Hr1. apply andb_true_iff in Hr1 as [_ Hr1].
      destruct t; try discriminate.
      * intros E'. inversion E'; subst. simpl. now rewrite Hv.
      * destruct (parse_items f r1) as [[l' r2]|] eqn:E2; [|discriminate].
        destruct (proj1 (proj2 (IH r1 Hr1)) _ _ E2) as [Hl Hr2].
        intros E'. inversion E'; subst. simpl. now rewrite Hv, Hl.
    + intros l r. cbn [parse_members].
      destruct ts as [|t ts]; [discriminate|].
      destruct t; try discriminate.
      destruct ts as [|t ts]; [discriminate|].
      destruct t; try discriminate.
      simpl in Hts.
      destruct (parse_value f ts) as [[v r1]|] eqn:E; [|discriminate].
      destruct (proj1 (IH ts Hts) _ _ E) as [Hv Hr1].
      destruct r1 as [|t r1]; [discriminate|].
      simpl in Hr1. apply andb_true_iff in Hr1 as [_ Hr1].
      destruct t; try discriminate.
      * intros E'. inversion E'; subst. simpl. now rewrite Hv.
      * destruct (parse_members f r1) as [[l' r2]|] eqn:E2; [|discriminate].
        destruct (proj2 (proj2 (IH r1 Hr1)) _ _ E2) as [Hl Hr2].
        intros E'. inversion E'; subst. simpl. now rewrite Hv, Hl.
Qed.

(** What [JSON.parse] returns is a value of an object graph. *)
Theorem parse_sound text v : parse text = Returned v -> sound v = true.
Proof.
  unfold parse. destruct (lex text) as [ts|] eqn:E; [|discriminate].
  destruct (parse_value _ ts) as [[v' r]|] eqn:Ep; [|discriminate].
  destruct r; [|discriminate]. intros H. inversion H; subst.
  exact (proj1 (proj1 (parse_value_sound _ ts (lex_sound _ _ E)) _ _ Ep)).
Qed.

End JsonParse.

(** ** Base64: what is written is read back *)

Section Base64Facts.
Import Base64.

Lemma unchar_char (x : sextet) : unchar (char x) = Some x.
Proof.
  destruct x as [[[[[b5 b4] b3] b2] b1] b0].
  destruct b5, b4, b3, b2, b1, b0; reflexivity.
Qed.

Lemma char_is_b64 (x : sextet) :
  is_b64_char (char x) = true /\ Ascii.eqb (char x) "=" = false.
Proof.
  destruct x as [[[[[b5 b4] b3] b2] b1] b0].
  destruct b5, b4, b3, b2, b1, b0; split; reflexivity.
Qed.

Lemma sextets_of_chars l t :
  sextets_of_text (chars l ++ t) = (l ++ sextets_of_text t)%list.
Proof.
  induction l as [|x l IH]; [reflexivity|].
  cbn [chars append sextets_of_text].
  destruct (char_is_b64 x) as [_ ->]. rewrite unchar_char, IH. reflexivity.
Qed.

Lemma sextets_of_padding n : sextets_of_text (padding n) = [].
Proof. unfold padding. destruct (n mod 3) as [|[|[|k]]]; reflexivity. Qed.

(** Induction on a string, three units at a time. *)
Lemma string_by_three (P : string -> Prop) :
  P "" -> (forall a, P (String a "")) -> (forall a b, P (String a (String b ""))) ->
  (forall a b c r, P r -> P (String a (String b (String c r)))) ->
  forall s, P s.
Proof.
  intros H0 H1 H2 H3 s.
  assert (H : P s /\ (forall a, P (String a s))
              /\ (forall a b, P (String a (String b s)))).
  { induction s as [|c r (IH0 & IH1 & IH2)]; [auto|].
    repeat split; auto. }
  apply H.
Qed.

Lemma bytes_of_sextets_of_bytes s : bytes_of_sextets (sextets_of_bytes s) = s.
Proof.
  induction s as [| a | a b | a b c r IH] using string_by_three.
  - reflexivity.
  - now destruct a.
  - now destruct a, b.
  - destruct a, b, c. cbn [sextets_of_bytes bytes_of_sextets]. now rewrite IH.
Qed.

(** [new Buffer(buf.toString("base64"), "base64")] holds the bytes of
    [buf]. *)
Theorem decode_encode s : decode (encode s) = s.
Proof.
  unfold decode, encode.
  rewrite sextets_of_chars, sextets_of_padding, app_nil_r.
  apply bytes_of_sextets_of_bytes.
Qed.

Lemma chars_b64 l : Str.all is_b64_char (chars l) = true.
Proof.
  induction l as [|x l IH]; [reflexivity|]. simpl.
  destruct (char_is_b64 x) as [-> _]. exact IH.
Qed.

Lemma encode_b64 s : Str.all is_b64_char (encode s) = true.
Proof.
  unfold encode. rewrite all_append, chars_b64. unfold padding.
  destruct (String.length s mod 3) as [|[|[|k]]]; reflexivity.
Qed.

Lemma encode_starts s :
  s <> "" -> exists x t, encode s = String (char x) t.
Proof.
  intros Hs. unfold encode.
  destruct s as [|[a0 a1 a2 a3 a4 a5 a6 a7] [|[b0 b1 b2 b3 b4 b5 b6 b7] [|[c0 c1 c2 c3 c4 c5 c6 c7] r]]];
    [congruence| | |]; cbn [sextets_of_bytes chars append];
    do 2 eexists; reflexivity.
Qed.

End Base64Facts.

(** ** Signatures *)

Lemma id_char_plain c :
  is_id_char c = true ->
  is_colon c = false /\ is_semicolon c = false /\ line_terminator c = false.
Proof. ascii_cases c; intros H; try discriminate H; repeat split. Qed.

Lemma b64_char_no_colon c : is_b64_char c = true -> is_colon c = false.
Proof. ascii_cases c; intros H; try discriminate H; reflexivity. Qed.

Lemma urlsafe_cons c r :
  Keygrip.urlsafe (String c r)
  = Keygrip.urlsafe (String c "") ++ Keygrip.urlsafe r.
Proof. ascii_cases c; reflexivity. Qed.

Lemma urlsafe_char_id c :
  is_b64_char c = true ->
  Str.all is_id_char (Keygrip.urlsafe (String c "")) = true.
Proof. ascii_cases c; intros H; try discriminate H; reflexivity. Qed.

Lemma urlsafe_id t :
  Str.all is_b64_char t = true -> Str.all is_id_char (Keygrip.urlsafe t) = true.
Proof.
  induction t as [|c r IH]; [reflexivity|]. intros H.
  simpl in H. apply andb_true_iff in H as [Hc Hr].
  rewrite urlsafe_cons, all_append, (urlsafe_char_id _ Hc). now apply IH.
Qed.

Lemma urlsafe_starts x t :
  Str.nonempty (Keygrip.urlsafe (String (Base64.char x) t)) = true.
Proof.
  destruct x as [[[[[b5 b4] b3] b2] b1] b0].
  destruct b5, b4, b3, b2, b1, b0; reflexivity.
Qed.

Section KeygripFacts.
Variable srv : Server.

Lemma sign_with_id key x :
  Str.all is_id_char (Keygrip.sign_with srv key x) = true.
Proof. apply urlsafe_id, encode_b64. Qed.

Lemma sign_with_nonempty key x :
  hmac srv key x <> "" -> Str.nonempty (Keygrip.sign_with srv key x) = true.
Proof.
  intros H. unfold Keygrip.sign_with.
  destruct (encode_starts _ H) as (s & t & ->). apply urlsafe_starts.
Qed.

(** What the newest key signs verifies. *)
Lemma verify_sign x : Keygrip.verify srv x (Keygrip.sign srv x) = true.
Proof.
  unfold Keygrip.verify, Keygrip.index, getTextKeys, Keygrip.sign. simpl.
  now rewrite String.eqb_refl.
Qed.

Lemma index_from_spec keys i x digest :
  Keygrip.index_from srv keys i x digest <> None <->
  exists k, In k keys /\ digest = Keygrip.sign_with srv k x.
Proof.
  revert i. induction keys as [|k r IH]; intros i; simpl.
  - split; [congruence | intros (k & [] & _)].
  - destruct (String.eqb_spec digest (Keygrip.sign_with srv k x)) as [E|N].
    + split; [|congruence]. intros _. exists k. auto.
    + rewrite IH. split.
      * intros (k' & Hin & E). exists k'. auto.
      * intros (k' & [<-|Hin] & E); [contradiction|]. exists k'. auto.
Qed.

(** A digest verifies exactly when one of the keys signs the data to it. *)
Lemma verify_spec x digest :
  Keygrip.verify srv x digest = true <->
  exists k, In k (getTextKeys srv) /\ digest = Keygrip.sign_with srv k x.
Proof.
  unfold Keygrip.verify, Keygrip.index.
  rewrite <- (index_from_spec (getTextKeys srv) 0).
  destruct (Keygrip.index_from srv (getTextKeys srv) 0 x digest);
    split; intros H; try discriminate; try reflexivity.
  now elim H.
Qed.

End KeygripFacts.

(** ** The pattern of the header *)

Lemma match_auth_header_shape header g1 g2 g3 g4 :
  match_auth_header header = Some (g1, g2, g3, g4) <->
  auth_header_shape header g1 g2 g3 g4.
Proof.
  unfold match_auth_header, auth_header_shape. split.
  - destruct (Str.break is_colon header) as [a r1] eqn:B1.
    destruct r1 as [|c1 r1']; [discriminate|].
    destruct (Str.nonempty a) eqn:N1; [|discriminate]. cbn [negb].
    destruct (Str.break is_semicolon r1') as [b r2] eqn:B2.
    destruct (Str.nonempty b) eqn:N2; [|discriminate]. cbn [negb].
    destruct (Str.strip_prefix ";abTests=" r2) as [r3|] eqn:P; [|discriminate].
    destruct (Str.break is_colon r3) as [c r4] eqn:B3.
    destruct r4 as [|c4 g]; [discriminate|].
    destruct (Str.nonempty c) eqn:N3; [|discriminate].
    destruct (Str.all (fun c0 => negb (line_terminator c0)) g) eqn:L;
      [|discriminate].
    intros H. inversion H; subst; clear H.
    apply break_spec in B1 as (-> & A1 & C1).
    apply break_spec in B2 as (-> & A2 & _).
    apply strip_prefix_spec in P as ->.
    apply break_spec in B3 as (-> & A3 & C3).
    unfold is_colon in C1, C3. apply Ascii.eqb_eq in C1, C3. subst.
    repeat split; auto.
  - intros (-> & N1 & A1 & N2 & A2 & N3 & A3 & L).
    assert (E : forall t, Str.strip_prefix ";abTests=" (";abTests=" ++ t) = Some t)
      by reflexivity.
    cbn [append] in *.
    rewrite (break_append is_colon g1 ":" _ A1 eq_refl), N1. cbn [negb].
    rewrite (break_append is_semicolon g2 ";" _ A2 eq_refl), N2. cbn [negb].
    rewrite E.
    rewrite (break_append is_colon g3 ":" _ A3 eq_refl), N3, L. reflexivity.
Qed.

(** The groups of a header are determined by it. *)
Lemma auth_header_shape_unique header g1 g2 g3 g4 h1 h2 h3 h4 :
  auth_header_shape header g1 g2 g3 g4 ->
  auth_header_shape header h1 h2 h3 h4 ->
  (g1, g2, g3, g4) = (h1, h2, h3, h4).
Proof.
  intros G H. apply match_auth_header_shape in G, H. congruence.
Qed.

(** ** The credential codec *)

Lemma stringify_nonempty v : JSON.stringify v <> "".
Proof.
  destruct v as [| [|] | n | s | l | l]; try discriminate.
  cbn [JSON.stringify]. unfold JSON.number. intros E.
  destruct (Number.is_finite n); [|discriminate].
  pose proof (to_string_nonempty n) as H. now rewrite E in H.
Qed.

Lemma b64EncodeJson_plain v :
  Str.nonempty (b64EncodeJson v) = true /\
  Str.all (fun c => negb (is_colon c)) (b64EncodeJson v) = true.
Proof.
  unfold b64EncodeJson. split.
  - destruct (encode_starts _ (stringify_nonempty v)) as (x & t & ->).
    reflexivity.
  - apply (all_impl is_b64_char); [|apply encode_b64].
    intros c Hc. now rewrite (b64_char_no_colon _ Hc).
Qed.

Lemma b64DecodeJson_encode v :
  JSON.wf v = true -> b64DecodeJson (b64EncodeJson v) = Returned v.
Proof.
  intros H. unfold b64DecodeJson, b64EncodeJson.
  rewrite decode_encode. now apply parse_stringify.
Qed.

Lemma valid_deviceId_plain d :
  valid_deviceId d = true ->
  Str.nonempty d = true /\ Str.all (fun c => negb (is_colon c)) d = true.
Proof.
  unfold valid_deviceId. intros H. apply andb_true_iff in H as [N A].
  split; [exact N|]. revert A. apply all_impl. intros c Hc.
  now destruct (id_char_plain _ Hc) as (-> & _).
Qed.

Lemma sign_plain srv x :
  hmac srv (newestKey srv) x <> "" ->
  Str.nonempty (Keygrip.sign srv x) = true /\
  Str.all (fun c => negb (is_semicolon c)) (Keygrip.sign srv x) = true /\
  Str.all (fun c => negb (line_terminator c)) (Keygrip.sign srv x) = true.
Proof.
  intros H. unfold Keygrip.sign. split; [now apply sign_with_nonempty|].
  split; (apply (all_impl is_id_char); [|apply sign_with_id]);
    intros c Hc; destruct (id_char_plain _ Hc) as (_ & E1 & E2);
    now rewrite ?E1, ?E2.
Qed.

(** The header [sendAuthInfo] writes has the shape [decodeAuthHeader]
    looks for, with the four pieces as its groups. *)
Lemma authHeader_shape srv d a :
  hmac srv (newestKey srv) d <> "" ->
  hmac srv (newestKey srv) (b64EncodeJson a) <> "" ->
  valid_deviceId d = true ->
  auth_header_shape (authHeader srv d a)
    d (Keygrip.sign srv d) (b64EncodeJson a)
    (Keygrip.sign srv (b64EncodeJson a)).
Proof.
  intros H1 H2 Hd.
  destruct (valid_deviceId_plain _ Hd) as (Nd & Ad).
  destruct (sign_plain srv d H1) as (N1 & A1 & _).
  destruct (sign_plain srv _ H2) as (_ & _ & L2).
  destruct (b64EncodeJson_plain a) as (Ne & Ae).
  unfold auth_header_shape, authHeader. repeat split; assumption.
Qed.

Lemma decode_authHeader srv d a :
  hmac srv (newestKey srv) d <> "" ->
  hmac srv (newestKey srv) (b64EncodeJson a) <> "" ->
  valid_deviceId d = true -> JSON.wf a = true ->
  decodeAuthHeader srv (authHeader srv d a)
  = Returned {| ai_deviceId := Some d; ai_abTests := Some a |}.
Proof.
  intros H1 H2 Hd Ha. unfold decodeAuthHeader.
  rewrite (proj2 (match_auth_header_shape _ _ _ _ _)
             (authHeader_shape srv d a H1 H2 Hd)).
  rewrite !verify_sign. cbn [andb negb].
  now rewrite (b64DecodeJson_encode _ Ha).
Qed.

(** C1.  Credential round trip: for every device id that matches the
    identity pattern and every JSON value [a] (an AB-test mapping among
    them), the header [sendAuthInfo] builds from [(d, a)], which the client
    reads from the response, is decoded by [decodeAuthHeader] to exactly
    [(d, a)].  The keyed hash is any function whose digests of the two signed
    texts are not empty. *)
Theorem credential_roundtrip (srv : Server) (req : Request) (d : string)
    (a : json) :
  hmac srv (newestKey srv) d <> "" ->
  hmac srv (newestKey srv) (b64EncodeJson a) <> "" ->
  valid_deviceId d = true -> JSON.wf a = true ->
  roundtrips srv req d a.
Proof.
  intros H1 H2 Hd Ha. split; [now apply decode_authHeader|].
  unfold sendAuthInfo. rewrite Hd. cbn [negb].
  eexists _, _, _. split; [|split].
  - rewrite app_assoc. reflexivity.
  - apply parse_stringify.
    destruct (sentryPublicDSN (config srv)); simpl; now rewrite Ha.
  - destruct (sentryPublicDSN (config srv)); reflexivity.
Qed.

Lemma credential_roundtrip_witness :
  roundtrips demo_server bare_request "abc123" demo_abTests.
Proof.
  apply (credential_roundtrip demo_server bare_request "abc123" demo_abTests).
  - vm_compute. discriminate.
  - vm_compute. discriminate.
  - reflexivity.
  - reflexivity.
Defined.

(** ** Decoding fails closed *)

Lemma app_cancel_l (a x y : string) : a ++ x = a ++ y -> x = y.
Proof.
  induction a as [|c a IH]; simpl; intros H; [exact H|].
  inversion H. auto.
Qed.

(** A text is cut in one way only at the first unit of a class. *)
Lemma cut_unique p a a' c c' r r' :
  Str.all (fun x => negb (p x)) a = true ->
  Str.all (fun x => negb (p x)) a' = true ->
  p c = true -> p c' = true ->
  a ++ String c r = a' ++ String c' r' -> a = a' /\ c = c' /\ r = r'.
Proof.
  intros A A' C C' E.
  pose proof (break_append p a c r A C) as B.
  rewrite E, (break_append p a' c' r' A' C') in B.
  inversion B; subst. auto.
Qed.

Lemma tampered_differs s s' x y : tampered s s' -> s ++ x <> s' ++ y.
Proof.
  intros (a & c & c' & b & N & -> & ->) E.
  rewrite !append_assoc in E. apply app_cancel_l in E.
  simpl in E. inversion E. contradiction.
Qed.

Lemma tampered_neq s s' : tampered s s' -> s' <> s.
Proof.
  intros T E. apply (tampered_differs s s' "" "" T).
  now rewrite !append_nil_r.
Qed.

Lemma decode_closed srv header :
  malformed header \/ bad_signature srv header ->
  decodeAuthHeader srv header = Returned empty_auth.
Proof.
  intros H. unfold decodeAuthHeader.
  destruct (match_auth_header header) as [[[[g1 g2] g3] g4]|] eqn:M;
    [|reflexivity].
  apply match_auth_header_shape in M.
  destruct H as [H | (h1 & h2 & h3 & h4 & S & V)].
  - elim (H _ _ _ _ M).
  - pose proof (auth_header_shape_unique _ _ _ _ _ _ _ _ _ M S) as E.
    inversion E; subst.
    destruct V as [-> | ->]; [reflexivity|].
    now rewrite andb_false_r.
Qed.

Lemma closed_unauthenticated srv header :
  decodeAuthHeader srv header = Returned empty_auth -> fails_closed srv header.
Proof.
  intros D. split; [exact D|]. intros req Hh.
  unfold unauthenticated, auth_middleware, auth_info. rewrite Hh, D.
  eexists. split; [reflexivity|]. split; reflexivity.
Qed.

Lemma tampered_length s s' :
  tampered s s' -> String.length s' = String.length s.
Proof.
  intros (a & c & c' & b & _ & -> & ->). now rewrite !length_append.
Qed.

(** A text without units of a class, followed by one, is a prefix of
    whatever else is followed by one in the same text. *)
Lemma cut_prefix p : forall a c r b c' t,
  Str.all (fun x => negb (p x)) a = true -> p c' = true ->
  a ++ String c r = b ++ String c' t -> exists u, b = a ++ u.
Proof.
  induction a as [|x a IH]; intros c r b c' t A C' E.
  - now exists b.
  - simpl in A. apply andb_true_iff in A as [Hx A].
    destruct b as [|y b]; simpl in E; inversion E; subst.
    + rewrite C' in Hx. discriminate.
    + destruct (IH _ _ _ _ _ A C' H1) as (u & ->). now exists u.
Qed.

Lemma append_same_length a u :
  String.length (a ++ u) = String.length a -> u = "".
Proof.
  rewrite length_append. destruct u; simpl; [reflexivity | lia].
Qed.

Lemma verify_false srv x digest :
  not_signed_by_older srv x digest -> digest <> Keygrip.sign srv x ->
  Keygrip.verify srv x digest = false.
Proof.
  intros Ho Hn. destruct (Keygrip.verify srv x digest) eqn:V; [|reflexivity].
  apply verify_spec in V as (k & [<-|Hin] & E).
  - contradiction.
  - elim (Ho k Hin E).
Qed.

Lemma shape_or_malformed header :
  malformed header \/
  exists g1 g2 g3 g4, auth_header_shape header g1 g2 g3 g4.
Proof.
  destruct (match_auth_header header) as [[[[g1 g2] g3] g4]|] eqn:M.
  - right. exists g1, g2, g3, g4. now apply match_auth_header_shape.
  - left. intros g1 g2 g3 g4 S. apply match_auth_header_shape in S. congruence.
Qed.

Lemma sign_no_semicolon srv x :
  Str.all (fun c => negb (is_semicolon c)) (Keygrip.sign srv x) = true.
Proof.
  apply (all_impl is_id_char); [|apply sign_with_id].
  intros c Hc. now destruct (id_char_plain _ Hc) as (_ & -> & _).
Qed.

(** A header whose first signature has one unit changed is malformed or
    carries a signature that does not verify, unless an older key signs the
    device to what the change made. *)
Lemma tampered_first_signature srv d s' e s2 :
  valid_deviceId d = true ->
  signatures_of_one_length srv d -> not_signed_by_older srv d s' ->
  tampered (Keygrip.sign srv d) s' ->
  malformed (header_of d s' e s2) \/ bad_signature srv (header_of d s' e s2).
Proof.
  intros Hd Hl Ho T.
  destruct (shape_or_malformed (header_of d s' e s2))
    as [M | (g1 & g2 & g3 & g4 & S)]; [now left|].
  right. exists g1, g2, g3, g4. split; [exact S|]. left.
  destruct S as (E & _ & A1 & _ & A2 & _).
  destruct (valid_deviceId_plain _ Hd) as (_ & Ad).
  unfold header_of in E. cbn [append] in E.
  apply (cut_unique is_colon d g1 ":" ":" _ _ Ad A1 eq_refl eq_refl) in E
    as (<- & _ & E).
  symmetry in E.
  destruct (cut_prefix is_semicolon g2 _ _ s' ";"%char _ A2 eq_refl E)
    as (u & Hu).
  pose proof (tampered_length _ _ T) as Hlen.
  destruct (Keygrip.verify srv d g2) eqn:V; [|reflexivity].
  apply verify_spec in V as (k & [<-|Hin] & Eg).
  - (* the newest key: [s'] would be its signature *)
    fold (Keygrip.sign srv d) in Eg. subst g2.
    rewrite Hu in Hlen. apply append_same_length in Hlen. subst u.
    rewrite append_nil_r in Hu. elim (tampered_neq _ _ T Hu).
  - (* an older key *)
    pose proof (Hl k Hin) as Hk. rewrite <- Eg, <- Hlen, Hu in Hk.
    symmetry in Hk. apply append_same_length in Hk. subst u.
    rewrite append_nil_r in Hu. rewrite <- Hu in Eg. elim (Ho k Hin Eg).
Qed.

(** The same for the second signature. *)
Lemma tampered_second_signature srv d a s' :
  valid_deviceId d = true ->
  not_signed_by_older srv (b64EncodeJson a) s' ->
  tampered (Keygrip.sign srv (b64EncodeJson a)) s' ->
  malformed (header_of d (Keygrip.sign srv d) (b64EncodeJson a) s') \/
  bad_signature srv (header_of d (Keygrip.sign srv d) (b64EncodeJson a) s').
Proof.
  intros Hd Ho T.
  destruct (shape_or_malformed
              (header_of d (Keygrip.sign srv d) (b64EncodeJson a) s'))
    as [M | (g1 & g2 & g3 & g4 & S)]; [now left|].
  right. exists g1, g2, g3, g4. split; [exact S|]. right.
  destruct S as (E & _ & A1 & _ & A2 & _ & A3 & _).
  destruct (valid_deviceId_plain _ Hd) as (_ & Ad).
  destruct (b64EncodeJson_plain a) as (_ & Ae).
  unfold header_of in E. cbn [append] in E.
  apply (cut_unique is_colon d g1 ":" ":" _ _ Ad A1 eq_refl eq_refl) in E
    as (<- & _ & E).
  apply (cut_unique is_semicolon _ g2 ";" ";" _ _ (sign_no_semicolon srv d) A2
           eq_refl eq_refl) in E as (<- & _ & E).
  inversion E as [E']. clear E.
  apply (cut_unique is_colon _ g3 ":" ":" _ _ Ae A3 eq_refl eq_refl) in E'
    as (<- & _ & <-).
  apply (verify_false _ _ _ Ho). now apply tampered_neq.
Qed.

(** C2.  Decoding fails closed: a header that does not have the shape of
    the pattern, or one of whose two signatures does not verify, is decoded
    to the empty credential (no device id, no AB tests) without an
    exception, and the request that carries it goes on with no device and
    empty AB tests.  In particular so is the header of a credential in which
    one unit of the first or of the second signature was replaced by another,
    unless the replacement made the signature of the same text under an older
    key (with one key, always). *)
Theorem decode_fails_closed :
  (forall srv header,
      malformed header \/ bad_signature srv header ->
      fails_closed srv header) /\
  (forall srv d a s',
      valid_deviceId d = true ->
      signatures_of_one_length srv d -> not_signed_by_older srv d s' ->
      tampered (Keygrip.sign srv d) s' ->
      fails_closed srv
        (header_of d s' (b64EncodeJson a)
           (Keygrip.sign srv (b64EncodeJson a)))) /\
  (forall srv d a s',
      valid_deviceId d = true ->
      not_signed_by_older srv (b64EncodeJson a) s' ->
      tampered (Keygrip.sign srv (b64EncodeJson a)) s' ->
      fails_closed srv
        (header_of d (Keygrip.sign srv d) (b64EncodeJson a) s')).
Proof.
  split; [|split]; intros.
  - now apply closed_unauthenticated, decode_closed.
  - now apply closed_unauthenticated, decode_closed, tampered_first_signature.
  - now apply closed_unauthenticated, decode_closed, tampered_second_signature.
Qed.

Lemma decode_fails_closed_witness :
  fails_closed demo_server
    (header_of "abc123" "NCIg6EpnA8cYL9CGvF9iWZM97RN"
       (b64EncodeJson demo_abTests)
       (Keygrip.sign demo_server (b64EncodeJson demo_abTests))) /\
  fails_closed demo_server "abc123:no-signature".
Proof.
  split.
  - apply (proj1 (proj2 decode_fails_closed) demo_server "abc123"
             demo_abTests "NCIg6EpnA8cYL9CGvF9iWZM97RN").
    + reflexivity.
    + intros k [<-|[]]. vm_compute. reflexivity.
    + intros k [<-|[]]. vm_compute. discriminate.
    + exists "NCIg6EpnA8cYL9CGvF9iWZM97R", "M"%char, "N"%char, "".
      split; [discriminate|]. split; vm_compute; reflexivity.
  - apply (proj1 decode_fails_closed demo_server "abc123:no-signature").
    left. intros g1 g2 g3 g4 S. apply match_auth_header_shape in S.
    vm_compute in S. discriminate S.
Defined.

Example decode_tampered_second :
  decodeAuthHeader one_key_server
    (header_of "abc123" (Keygrip.sign one_key_server "abc123")
       (b64EncodeJson demo_abTests) "NqJD8sW7ZLWr0SX17lTMW1He_Lx")
  = Returned empty_auth.
Proof. vm_compute. reflexivity. Qed.

(** Outside the claim: a header whose signatures verify and whose payload
    is not JSON makes [decodeAuthHeader] throw. *)
Example decode_signed_garbage :
  decodeAuthHeader demo_server
    (header_of "abc123" (Keygrip.sign demo_server "abc123")
       "abc123" (Keygrip.sign demo_server "abc123"))
  = Threw (SyntaxError "Unexpected token in JSON").
Proof. vm_compute. reflexivity. Qed.

(** ** PUT /data/:id/:domain *)

Lemma body_member_text k req s :
  text_field k req = Some s -> body_member k req = Some (JStr s).
Proof. unfold body_member. now intros ->. Qed.

Lemma given_present k req s :
  present (text_field k req) = Some s ->
  given (body_member k req) = Some (JStr s).
Proof.
  unfold present. destruct (text_field k req) as [x|] eqn:E; [|discriminate].
  destruct (Str.nonempty x) eqn:N; [|discriminate].
  intros H. inversion H; subst. rewrite (body_member_text _ _ _ E).
  cbn [given truthy]. now rewrite N.
Qed.

Lemma given_some x v : given x = Some v -> x = Some v /\ truthy v = true.
Proof.
  unfold given. destruct x as [w|]; [|discriminate].
  destruct (truthy w) eqn:T; [|discriminate].
  intros H. inversion H; subst. now split.
Qed.

(** C3, the counterexample.  A server whose testing switch
    [config.testing.failSometimes] is set drops the request it draws: a body
    without a device id is then answered by an empty response, and not by
    400. *)
Lemma put_data_dropped_by_testing_switch :
  let t := put_data flaky_server 1 no_errors_content no_errors_attributes
             session_request (Returned None) (Returned None) in
  body_member "deviceId" session_request = None /\
  t = [ResEnd] /\ ~ answers t 400.
Proof.
  cbv zeta. split; [reflexivity|]. split; [reflexivity|].
  intros (m & H). discriminate H.
Qed.

(** C3, as amended.  PUT /data/:id/:domain checks the device of the body
    against the device of the session before anything is written.  When the
    testing switch that drops requests does not fire: a body without a device
    id (none, or a falsy one) is answered 400; else a request without a
    session device is answered 401; else a body device id that is a string
    different from the session device is answered 403; else content with
    validation errors is answered 400; and none of these asks the store to
    write.  Whatever the switch, the insert (and the update that may follow
    it) is attempted only for a request the switch lets through, for the
    session device, when the body has a device id which, if it is a string,
    is the session device, and the content has no error.  What the
    comparison makes of a device id that is no string is left out. *)
Theorem put_data_cross_check (srv : Server) (rnd : nat)
    (checkContent : option json -> list string)
    (checkAttributes : option json -> string -> list string)
    (req : Request) (inserted updated : completion (option (list json))) :
  let t := put_data srv rnd checkContent checkAttributes req inserted updated in
  let bodyDeviceId := body_member "deviceId" req in
  let session := present (deviceId req) in
  let errors := content_errors checkContent checkAttributes req in
  (fails_artificially srv rnd = false ->
     (given bodyDeviceId = None -> answers t 400 /\ writes_nothing t) /\
     (given bodyDeviceId <> None -> session = None ->
        answers t 401 /\ writes_nothing t) /\
     (forall b d, present (text_field "deviceId" req) = Some b ->
                  session = Some d -> d <> b ->
                  answers t 403 /\ writes_nothing t) /\
     (forall d, present (text_field "deviceId" req) = Some d ->
                session = Some d -> errors <> [] ->
                answers t 400 /\ writes_nothing t)) /\
  (existsb is_shot_write t = true ->
     fails_artificially srv rnd = false /\
     exists d, session = Some d /\ given bodyDeviceId <> None /\
               (forall b, text_field "deviceId" req = Some b -> b = d) /\
               errors = [] /\
               In (ShotInsert d (backend req) (shotId_of req)) t).
Proof.
  cbv zeta. unfold put_data. split.
  - intros ->. split; [|split; [|split]].
    + intros ->. split; [eexists|]; reflexivity.
    + intros H ->.
      destruct (given (body_member "deviceId" req)) as [v|]; [|congruence].
      split; [eexists|]; reflexivity.
    + intros b d Hb -> Hne.
      rewrite (given_present _ _ _ Hb). cbn [loosely_equal].
      apply String.eqb_neq in Hne. rewrite Hne.
      split; [eexists|]; reflexivity.
    + intros d Hb -> He.
      rewrite (given_present _ _ _ Hb). cbn [loosely_equal].
      rewrite String.eqb_refl.
      destruct (content_errors checkContent checkAttributes req);
        [congruence|]. split; [eexists|]; reflexivity.
  - destruct (fails_artificially srv rnd); [discriminate|].
    destruct (given (body_member "deviceId" req)) as [v|] eqn:Ev;
      [|discriminate].
    destruct (present (deviceId req)) as [d|]; [|discriminate].
    destruct (loosely_equal d v) as [[|]|err] eqn:Lv; try discriminate.
    destruct (content_errors checkContent checkAttributes req);
      [|discriminate].
    intros _. split; [reflexivity|]. exists d. repeat split.
    + discriminate.
    + intros b Hb. apply given_some in Ev as [Ev _].
      rewrite (body_member_text _ _ _ Hb) in Ev.
      inversion Ev; subst. cbn [loosely_equal] in Lv.
      inversion Lv as [E]. apply String.eqb_eq in E. now subst.
    + now left.
Qed.

Lemma put_data_cross_check_witness :
  let req := with_body session_request [("deviceId", "abc123")] in
  let t := put_data demo_server 0 no_errors_content no_errors_attributes req
             (Returned None) (Returned (Some [])) in
  In (ShotInsert "abc123" "https://shots.example" "xyz/example.com") t /\
  answers (put_data demo_server 0 no_errors_content no_errors_attributes
             (with_body session_request [("deviceId", "other")])
             (Returned None) (Returned (Some []))) 403.
Proof.
  cbv zeta. split.
  - destruct (proj2 (put_data_cross_check demo_server 0 no_errors_content
                       no_errors_attributes
                       (with_body session_request [("deviceId", "abc123")])
                       (Returned None) (Returned (Some []))) eq_refl)
      as (_ & d & Hs & _ & _ & _ & Hin).
    vm_compute in Hs. inversion Hs; subst d. exact Hin.
  - destruct (proj1 (put_data_cross_check demo_server 0 no_errors_content
                       no_errors_attributes
                       (with_body session_request [("deviceId", "other")])
                       (Returned None) (Returned (Some []))) eq_refl)
      as (_ & _ & H403 & _).
    apply (H403 "other" "abc123"); [reflexivity | reflexivity | discriminate].
Defined.

(** The cross-check on a device id that is no string: it compares with
    [!=], which converts its operands.  A body whose device id is an array of one
    string, the session device, is no string and is not the session device,
    and it passes: the shot is inserted for the session device. *)
Theorem put_data_compares_loosely (srv : Server) (rnd : nat)
    (checkContent : option json -> list string)
    (checkAttributes : option json -> string -> list string)
    (req : Request) (inserted updated : completion (option (list json)))
    (d : string) :
  fails_artificially srv rnd = false ->
  present (deviceId req) = Some d ->
  body_member "deviceId" req = Some (JArr [JStr d]) ->
  content_errors checkContent checkAttributes req = [] ->
  exists rest,
    put_data srv rnd checkContent checkAttributes req inserted updated
    = ShotInsert d (backend req) (shotId_of req) :: rest.
Proof.
  intros Hf Hd Hb He. unfold put_data. rewrite Hf, Hb, Hd.
  cbn [given truthy loosely_equal converts forallb andb ToString map
       JSON.join].
  rewrite String.eqb_refl, He. eexists. reflexivity.
Qed.

Lemma put_data_compares_loosely_witness :
  exists rest,
    put_data demo_server 0 no_errors_content no_errors_attributes
      (with_members session_request [("deviceId", JArr [JStr "abc123"])])
      (Returned (Some [])) (Returned None)
    = ShotInsert "abc123" "https://shots.example" "xyz/example.com" :: rest.
Proof.
  apply (put_data_compares_loosely demo_server 0 no_errors_content
           no_errors_attributes
           (with_members session_request [("deviceId", JArr [JStr "abc123"])])
           (Returned (Some [])) (Returned None) "abc123");
    reflexivity.
Defined.
(** ** POST /api/unload *)

Lemma delete_commute (A : Type) k k' (o : list (string * A)) :
  Obj.delete k (Obj.delete k' o) = Obj.delete k' (Obj.delete k o).
Proof.
  induction o as [|[k0 v0] r IH]; simpl; [reflexivity|].
  destruct (String.eqb k' k0) eqn:E', (String.eqb k k0) eqn:E; simpl;
    rewrite ?E, ?E', ?IH; reflexivity.
Qed.

Lemma get_delete (A : Type) k k' (o : list (string * A)) :
  Obj.get k (Obj.delete k' o)
  = if String.eqb k' k then None else Obj.get k o.
Proof.
  destruct (String.eqb_spec k' k) as [->|N].
  - apply get_delete_same.
  - now apply get_delete_other.
Qed.

(** C10.  POST /api/unload answers 200 and clears the four session cookies
    (user, user.sig, abtests, abtests.sig) exactly when the body holds a
    reason; when it holds none, the handler throws a TypeError while reading
    it, before any cookie is touched: the error middleware answers, and the
    cookies of the client are what they were. *)
Theorem unload_outcomes (req : Request) (jar : list (string * string)) :
  (forall reason, text_field "reason" req = Some reason ->
     unload req
       = Returned [CookieSet "user" None; CookieSet "user.sig" None;
                   CookieSet "abtests" None; CookieSet "abtests.sig" None;
                   SimpleResponse "Noted" 200] /\
     answers (handled (unload req)) 200 /\
     forall name, In name ["user"; "user.sig"; "abtests"; "abtests.sig"] ->
       Obj.get name (cookies_after (handled (unload req)) jar) = None) /\
  (text_field "reason" req = None ->
     (exists message, unload req = Threw (TypeError message)) /\
     (forall e, In e (handled (unload req)) ->
        match e with CookieSet _ _ => False | _ => True end) /\
     ~ answers (handled (unload req)) 200 /\
     cookies_after (handled (unload req)) jar = jar) /\
  (forall t, unload req = Returned t ->
     exists reason, text_field "reason" req = Some reason).
Proof.
  unfold unload. split; [|split].
  - intros reason ->. split; [reflexivity|]. split; [eexists; reflexivity|].
    intros name Hin. cbn [handled cookies_after fold_left].
    rewrite !get_delete.
    simpl in Hin. destruct Hin as [<-|[<-|[<-|[<-|[]]]]]; reflexivity.
  - intros ->. split; [eexists; reflexivity|]. split; [|split].
    + intros e [<-|[]]. exact I.
    + intros (m & H). discriminate H.
    + reflexivity.
  - intros t. destruct (text_field "reason" req) as [r|]; [|discriminate].
    intros _. now exists r.
Qed.

Lemma unload_outcomes_witness :
  answers (handled (unload (with_body session_request [("reason", "logout")])))
    200 /\
  cookies_after (handled (unload session_request))
    [("user", "abc123"); ("user.sig", "x")]
  = [("user", "abc123"); ("user.sig", "x")].
Proof.
  split.
  - apply (proj1 (unload_outcomes
                    (with_body session_request [("reason", "logout")]) [])
             "logout" eq_refl).
  - apply (proj1 (proj2 (unload_outcomes session_request
                           [("user", "abc123"); ("user.sig", "x")]))
             eq_refl).
Defined.

(** ** POST /api/login *)

(** The answer 401 "Invalid login" is never given: the branch that gives it
    comes after [if (x) ... else if (! x)]. *)
Theorem login_never_invalid_login srv req checked e :
  In e (login_then srv req checked) ->
  e <> SimpleResponse (json_error "Invalid login") 401 /\
  e <> RavenMessage "Invalid login".
Proof.
  unfold login_then. destruct checked as [v|err].
  - destruct (truthy v) eqn:T.
    + unfold sendAuthInfo.
      destruct (text_field "deviceId" req) as [d|].
      * destruct (valid_deviceId d); cbn [negb].
        -- intros Hin. rewrite <- !app_assoc in Hin.
           repeat (destruct Hin as [<- | Hin]; [split; discriminate|]).
           destruct (Str.nonempty (gaId (config srv))).
           ++ destruct Hin as [<-|[]]. split; discriminate.
           ++ destruct Hin.
        -- intros [<-|[]]. split; discriminate.
      * intros [<-|[]]. split; discriminate.
    + cbn [negb]. intros [<-|[]]. split; discriminate.
  - intros [<-|[]]. split; discriminate.
Qed.

Lemma login_never_invalid_login_witness :
  SimpleResponse (json_error "No such user") 404
    <> SimpleResponse (json_error "Invalid login") 401 /\
  SimpleResponse (json_error "No such user") 404
    <> RavenMessage "Invalid login".
Proof.
  apply (login_never_invalid_login demo_server wrong_secret_request
           (Returned JNull)).
  now left.
Defined.

(** C5, at the failing input: a known device with a wrong secret is
    answered 404 "No such user", as an unknown device is, and not 401
    "Invalid login". *)
Theorem login_wrong_secret_is_404 :
  login demo_server createHash demo_devices wrong_secret_request
  = Returned [CheckLogin (Some "abc123") (Some "guess") None;
              SimpleResponse (json_error "No such user") 404] /\
  login demo_server createHash demo_devices unknown_device_request
  = Returned [CheckLogin (Some "nobody") (Some "s3cr3t") None;
              SimpleResponse (json_error "No such user") 404] /\
  answers (handled (login demo_server createHash demo_devices
                      right_secret_request)) 200.
Proof.
  split; [|split].
  - vm_compute. reflexivity.
  - vm_compute. reflexivity.
  - eexists. vm_compute. reflexivity.
Qed.

(** ** POST /api/set-title/:id/:domain *)

(** C9, at the failing input: for a shot that does not exist, [Shot.get]
    gives null, reading its owner throws, and the answer is the generic
    error of [errorResponse], not a not-found answer. *)
Theorem set_title_missing_shot_is_error :
  set_title title_request (Returned None) (Returned tt)
  = [ShotGet "https://shots.example" "xyz/example.com";
     ErrorResponse "Error updating title"
       (TypeError "Cannot read property 'deviceId' of null")].
Proof. reflexivity. Qed.

(** The other outcomes of set-title are as the interface lists them: a
    body without a member [title] is answered 400; with one, whatever value
    it holds, a request without a session device is answered 401, a shot of
    another device 403, and the shot of the device is updated with that
    value as its title and answered 200. *)
Lemma set_title_outcomes (req : Request) (got : completion (option ShotRow))
    (updated : completion unit) :
  let t := set_title req got updated in
  (body_member "title" req = None -> answers t 400 /\ writes_nothing t) /\
  (forall title, body_member "title" req = Some title ->
     (present (deviceId req) = None -> answers t 401 /\ writes_nothing t) /\
     (forall d shot, present (deviceId req) = Some d ->
        got = Returned (Some shot) ->
        (shot_deviceId shot <> d -> answers t 403 /\ writes_nothing t) /\
        (shot_deviceId shot = d ->
           In (ShotUpdate d (backend req) (shot_id shot) (Some title)) t /\
           (forall u, updated = Returned u -> answers t 200)))).
Proof.
  cbv zeta. unfold set_title. split.
  - intros ->. split; [eexists|]; reflexivity.
  - intros title ->. split.
    + intros ->. split; [eexists|]; reflexivity.
    + intros d shot -> ->. split.
      * intros N. apply String.eqb_neq in N. rewrite N.
        split; [eexists|]; reflexivity.
      * intros E. rewrite E, String.eqb_refl. cbn [negb]. split.
        -- right. now left.
        -- intros u ->. eexists. reflexivity.
Qed.

Lemma set_title_outcomes_witness :
  answers (set_title title_request (Returned (Some foreign_shot))
             (Returned tt)) 403 /\
  writes_nothing (set_title title_request (Returned (Some foreign_shot))
                    (Returned tt)) /\
  In (ShotUpdate "abc123" "https://shots.example" "xyz/example.com"
        (Some (JStr "A new title")))
     (set_title title_request (Returned (Some owned_shot)) (Returned tt)).
Proof.
  destruct (proj2 (set_title_outcomes title_request
                     (Returned (Some foreign_shot)) (Returned tt))
              (JStr "A new title") eq_refl) as (_ & H).
  destruct (H "abc123" foreign_shot eq_refl eq_refl) as (H403 & _).
  destruct (proj2 (set_title_outcomes title_request
                     (Returned (Some owned_shot)) (Returned tt))
              (JStr "A new title") eq_refl) as (_ & H').
  destruct (H' "abc123" owned_shot eq_refl eq_refl) as (_ & Hown).
  split; [|split].
  - apply H403. discriminate.
  - apply H403. discriminate.
  - apply Hown. reflexivity.
Defined.

(** ** GET /proxy *)

(** C8, at the failing input: an upstream header named [constructor] is
    not in the whitelist and is passed on all the same, because the lookup
    [PROXY_HEADER_WHITELIST[h]] finds the property of that name that every
    object inherits. *)
Theorem proxy_passes_constructor_header :
  proxy demo_server demo_urlParse 0 demo_utc proxy_request
    (Returned demo_upstream)
  = Returned
      [SubRequest (Some "http:") "images.example" None (Some "/a.png") [];
       ResWriteHead 200 "OK"
         [("content-type", "image/png"); ("constructor", "anything");
          ("etag", "v1"); ("cache-control", "public, max-age=2592000");
          ("expires", "Sat, 31 Jan 1970 00:00:00 GMT")]] /\
  Obj.get "constructor" PROXY_HEADER_WHITELIST = None.
Proof. split; vm_compute; reflexivity. Qed.

(** ** parseInt and POST /api/set-expiration *)

Section ParseIntFacts.
Import ParseInt.

Lemma trim_start_digit c r :
  Number.is_digit c = true -> trim_start (String c r) = String c r.
Proof.
  intros H. ascii_cases c; try discriminate H;
    destruct r as [|b [|c' r']]; reflexivity.
Qed.

Lemma sign_and_rest_digit c r :
  Number.is_digit c = true -> sign_and_rest (String c r) = (false, String c r).
Proof. intros H. ascii_cases c; try discriminate H; reflexivity. Qed.

(** A run of digits is read as the Number nearest to the integer it
    writes. *)
Lemma parseInt_numeral s :
  is_numeral s = true ->
  parseInt s = Number.of_decimal false (Number.digits_value 0 s) 0.
Proof.
  unfold is_numeral. intros H. apply andb_true_iff in H as [Ne A].
  destruct s as [|c r]; [discriminate|]. unfold parseInt.
  pose proof A as A'. simpl in A'. apply andb_true_iff in A' as [Hc _].
  rewrite (trim_start_digit _ _ Hc), (sign_and_rest_digit _ _ Hc).
  rewrite break_all by (now apply all_not_not_digit).
  reflexivity.
Qed.

(** What is read is a Number of the embedding, or none. *)
Lemma parseInt_sound s :
  negb (Number.is_finite (parseInt s)) || Number.canonical (parseInt s) = true.
Proof.
  unfold parseInt. destruct (sign_and_rest (trim_start s)) as [neg r].
  destruct (Str.break Number.not_digit r) as [ds rest].
  destruct (Str.nonempty ds); [apply of_decimal_canonical | reflexivity].
Qed.

End ParseIntFacts.

(** An integer beyond [2^53] is read as the double nearest to it. *)
Example parseInt_rounds :
  ParseInt.parseInt "9007199254740993" = Number.of_N 9007199254740992 /\
  Number.to_string (ParseInt.parseInt "9007199254740993") = "9007199254740992".
Proof. split; vm_compute; reflexivity. Qed.

(** C6, at the failing input: the handler rejects an expiration that is
    no number (["abc"] is answered 400), and an expiration that starts with
    digits and goes on with other text passes that guard: it is accepted and
    stored, cut down to its leading digits. *)
Theorem set_expiration_truncates :
  set_expiration (expiration_request "abc") (Returned true)
  = [RavenMessage "Set expiration to non-number";
     SimpleResponse "Error: bad expiration (abc)" 400] /\
  is_numeral "12abc" = false /\
  set_expiration (expiration_request "12abc") (Returned true)
  = [ShotSetExpiration "https://shots.example" (Some (JStr "xyz/example.com"))
       "abc123" (Number.of_N 12);
     SimpleResponse "ok" 200] /\
  set_expiration (expiration_request "1.9") (Returned true)
  = [ShotSetExpiration "https://shots.example" (Some (JStr "xyz/example.com"))
       "abc123" (Number.of_N 1);
     SimpleResponse "ok" 200].
Proof. repeat split; vm_compute; reflexivity. Qed.

(** What the handler checks.  For an authenticated request, what decides is
    [parseInt(expiration, 10)], read from the text of whatever the body
    holds: when it is negative or NaN, the answer is 400 and the store is not
    asked to change anything; otherwise the store is asked, once, to set the
    expiration of the body's shot to that Number for the session device.  The
    store is never handed a negative Number or NaN. *)
Theorem set_expiration_validation (req : Request) (result : completion bool)
    (d : string) :
  present (deviceId req) = Some d ->
  let t := set_expiration req result in
  (forall text,
     text_of (body_member "expiration" req) = Returned text ->
     let n := ParseInt.parseInt text in
     (Number.negative n = true \/ Number.is_nan n = true ->
        answers t 400 /\ writes_nothing t) /\
     (Number.negative n = false -> Number.is_nan n = false ->
        exists rest,
          t = ShotSetExpiration (backend req) (body_member "id" req) d n
                :: rest
          /\ writes_nothing rest)) /\
  (forall backend shotId device x,
     In (ShotSetExpiration backend shotId device x) t ->
     Number.negative x = false /\ Number.is_nan x = false /\ device = d /\
     exists text,
       text_of (body_member "expiration" req) = Returned text /\
       x = ParseInt.parseInt text).
Proof.
  intros Hd. cbv zeta. unfold set_expiration. rewrite Hd. split.
  - intros text ->. split.
    + intros H. destruct (Number.negative (ParseInt.parseInt text)) eqn:Hn.
      * split; [eexists|]; reflexivity.
      * destruct H as [H|H]; [discriminate|]. rewrite H.
        split; [eexists|]; reflexivity.
    + intros -> ->. eexists. split; [reflexivity|].
      destruct result as [[|]|err]; reflexivity.
  - intros b i dev x.
    destruct (text_of (body_member "expiration" req)) as [text|err].
    + destruct (Number.negative (ParseInt.parseInt text)) eqn:Hn.
      * intros [H|[H|[]]]; discriminate H.
      * destruct (Number.is_nan (ParseInt.parseInt text)) eqn:Hx.
        -- intros [H|[H|[]]]; discriminate H.
        -- intros [H|H].
           ++ inversion H; subst. repeat split; auto. now exists text.
           ++ destruct result as [[|]|err]; simpl in H;
                repeat (destruct H as [H|H]; [discriminate H|]);
                contradiction.
    + intros [H|[]]. discriminate H.
Qed.

Lemma set_expiration_validation_witness :
  (exists rest,
     set_expiration (expiration_request "3600") (Returned true)
     = ShotSetExpiration "https://shots.example" (Some (JStr "xyz/example.com"))
         "abc123" (Number.of_N 3600) :: rest /\ writes_nothing rest) /\
  (exists rest,
     set_expiration
       (with_members session_request
          [("id", JStr "xyz/example.com");
           ("expiration", JNum (Number.of_N 3600))])
       (Returned true)
     = ShotSetExpiration "https://shots.example" (Some (JStr "xyz/example.com"))
         "abc123" (Number.of_N 3600) :: rest /\ writes_nothing rest) /\
  answers (set_expiration (expiration_request "-1") (Returned true)) 400 /\
  answers (set_expiration (expiration_request "abc") (Returned true)) 400.
Proof.
  split; [|split; [|split]].
  - apply (proj2 (proj1
      (set_expiration_validation (expiration_request "3600") (Returned true)
         "abc123" eq_refl) "3600" eq_refl)); vm_compute; reflexivity.
  - apply (proj2 (proj1
      (set_expiration_validation
         (with_members session_request
            [("id", JStr "xyz/example.com");
             ("expiration", JNum (Number.of_N 3600))])
         (Returned true) "abc123" eq_refl) "3600" ltac:(vm_compute; reflexivity)));
      vm_compute; reflexivity.
  - apply (proj1 (proj1
      (set_expiration_validation (expiration_request "-1") (Returned true)
         "abc123" eq_refl) "-1" eq_refl)). left. vm_compute. reflexivity.
  - apply (proj1 (proj1
      (set_expiration_validation (expiration_request "abc") (Returned true)
         "abc123" eq_refl) "abc" eq_refl)). right. vm_compute. reflexivity.
Defined.
(** ** GET /data/:id/:domain *)

Lemma NoDup_delete (A : Type) k (o : list (string * A)) :
  NoDup (Obj.keys o) -> NoDup (Obj.keys (Obj.delete k o)).
Proof.
  induction o as [|[k' v'] r IH]; simpl; intros D; [constructor|].
  inversion D as [|? ? Hn Hr]; subst.
  destruct (String.eqb k k'); [now apply IH|].
  simpl. constructor; [|now apply IH].
  intros Hin. apply Hn. now apply (keys_delete_incl k r k').
Qed.

Lemma forallb_delete (A : Type) (p : A -> bool) k (o : list (string * A)) :
  forallb (fun kv => p (snd kv)) o = true ->
  forallb (fun kv => p (snd kv)) (Obj.delete k o) = true.
Proof.
  induction o as [|[k' v'] r IH]; simpl; intros F; [reflexivity|].
  apply andb_true_iff in F as [Fv F].
  destruct (String.eqb k k'); [now apply IH|].
  simpl. rewrite Fv. now apply IH.
Qed.

Lemma sound_delete k members :
  JSON.sound (JObj members) = true ->
  JSON.sound (JObj (Obj.delete k members)) = true.
Proof.
  cbn [JSON.sound]. intros H. apply andb_true_iff in H as [H F].
  apply andb_true_iff in H as [D O]. apply distinct_NoDup in D.
  rewrite (forallb_delete _ JSON.sound _ _ F), andb_true_r.
  apply andb_true_iff. split.
  - apply distinct_NoDup. now apply NoDup_delete.
  - now apply ordered_delete.
Qed.

Lemma wf_delete k members :
  JSON.wf (JObj members) = true ->
  JSON.wf (JObj (Obj.delete k members)) = true.
Proof.
  cbn [JSON.wf]. intros H. apply andb_true_iff in H as [H F].
  apply andb_true_iff in H as [D O]. apply distinct_NoDup in D.
  rewrite (forallb_delete _ JSON.wf _ _ F), andb_true_r.
  apply andb_true_iff. split.
  - apply distinct_NoDup. now apply NoDup_delete.
  - now apply ordered_delete.
Qed.

Lemma join_ext (A : Type) (f g : A -> string) sep l :
  (forall x, In x l -> f x = g x) ->
  JSON.join sep (map f l) = JSON.join sep (map g l).
Proof. intros H. f_equal. now apply map_ext_in. Qed.

(** A JSON text holds of a value what [JSON.finite] leaves of it. *)
Lemma stringify_finite v : JSON.stringify (JSON.finite v) = JSON.stringify v.
Proof.
  induction v as [| b | n | s | l IH | l IH] using json_induction;
    try reflexivity; cbn [JSON.finite JSON.stringify].
  - unfold JSON.number. destruct (Number.is_finite n) eqn:E.
    + cbn [JSON.stringify]. unfold JSON.number. now rewrite E.
    + reflexivity.
  - do 2 f_equal. rewrite map_map. apply join_ext. now apply Forall_forall.
  - do 2 f_equal. rewrite map_map. apply join_ext. intros [k x] Hx. simpl.
    rewrite Forall_forall in IH. pose proof (IH _ Hx) as E. simpl in E.
    now rewrite E.
Qed.

(** C7.  Public read of a shot: for every stored text that holds an object,
    GET /data/:id/:domain sends that object without its [deviceId] member and
    with every other member as stored; the device of the caller plays no
    part; with the [format] parameter what is sent is the same value,
    indented: both texts are read back as one value, the one the plain text
    holds; a shot that is not there is answered 404. *)
Theorem get_data_redacts_owner (req : Request) (value : string)
    (members : list (string * json)) :
  JSON.parse value = Returned (JObj members) ->
  let public := JObj (Obj.delete "deviceId" members) in
  let shown := JSON.finite public in
  (Obj.has "format" (query req) = false ->
     get_data req (Returned (Some value))
     = [ShotGetRawValue (shotId_of req);
        ResSendJson (JSON.stringify public)]) /\
  (Obj.has "format" (query req) = true ->
     get_data req (Returned (Some value))
     = [ShotGetRawValue (shotId_of req);
        ResSendJson (JSON.stringify_pretty "  " shown)]) /\
  JSON.stringify public = JSON.stringify shown /\
  JSON.parse (JSON.stringify shown) = Returned shown /\
  JSON.parse (JSON.stringify_pretty "  " shown) = Returned shown /\
  (JSON.wf (JObj members) = true -> shown = public) /\
  Obj.get "deviceId" (Obj.delete "deviceId" members) = None /\
  (forall k, k <> "deviceId" ->
     Obj.get k (Obj.delete "deviceId" members) = Obj.get k members) /\
  (forall caller,
     get_data (with_deviceId req caller) (Returned (Some value))
     = get_data req (Returned (Some value))) /\
  get_data req (Returned None)
  = [ShotGetRawValue (shotId_of req); SimpleResponse "No such shot" 404].
Proof.
  intros Hp. cbv zeta.
  pose proof (sound_delete "deviceId" members (parse_sound _ _ Hp)) as Hs.
  pose proof (wf_finite _ Hs) as Hwf.
  pose proof (parse_stringify_sound _ Hs) as Hr.
  unfold get_data, public_value. rewrite Hp. cbn [bindc delete_deviceId].
  repeat split.
  - now intros ->.
  - intros ->. rewrite Hr. reflexivity.
  - symmetry. apply stringify_finite.
  - now apply parse_stringify.
  - now apply parse_stringify_pretty.
  - intros H. apply finite_wf. now apply wf_delete.
  - apply get_delete_same.
  - intros k N. apply get_delete_other. congruence.
Qed.

Lemma get_data_redacts_owner_witness :
  get_data session_request (Returned (Some demo_stored))
  = [ShotGetRawValue "xyz/example.com";
     ResSendJson
       (JSON.stringify
          (JObj [("1", JNum (Number.of_N 300));
                 ("2", JNum (Number.Num false 25 (-1)));
                 ("title", JStr "A page")]))].
Proof.
  apply (proj1 (get_data_redacts_owner session_request demo_stored
                  [("1", JNum (Number.of_N 300));
                   ("2", JNum (Number.Num false 25 (-1)));
                   ("title", JStr "A page"); ("deviceId", JStr "owner-1")]
                  ltac:(vm_compute; reflexivity))).
  reflexivity.
Defined.
(** ** Who a request is from *)

Lemma present_some x s : present x = Some s -> x = Some s.
Proof.
  unfold present. destruct x as [y|]; [|discriminate].
  destruct (Str.nonempty y); congruence.
Qed.

Lemma decodeAuthHeader_device srv header info d :
  decodeAuthHeader srv header = Returned info ->
  ai_deviceId info = Some d ->
  exists g2 g3 g4,
    auth_header_shape header d g2 g3 g4 /\
    Keygrip.verify srv d g2 = true /\ Keygrip.verify srv g3 g4 = true.
Proof.
  unfold decodeAuthHeader.
  destruct (match_auth_header header) as [[[[g1 g2] g3] g4]|] eqn:M.
  - apply match_auth_header_shape in M.
    destruct (Keygrip.verify srv g1 g2) eqn:V1;
      [destruct (Keygrip.verify srv g3 g4) eqn:V2|]; cbn [andb negb].
    + destruct (b64DecodeJson g3); cbn [bindc]; [|discriminate].
      intros E Hd. inversion E; subst. simpl in Hd. inversion Hd; subst.
      now exists g2, g3, g4.
    + intros E Hd. inversion E; subst. discriminate Hd.
    + intros E Hd. inversion E; subst. discriminate Hd.
  - intros E Hd. inversion E; subst. discriminate Hd.
Qed.

Lemma cookies_get_signed_user srv req d :
  cookies_get_signed srv req "user" = Some d ->
  Obj.get "user" (cookies req) = Some d /\
  exists sig, Obj.get "user.sig" (cookies req) = Some sig /\
              Keygrip.verify srv ("user=" ++ d) sig = true.
Proof.
  unfold cookies_get_signed.
  destruct (Obj.get "user" (cookies req)) as [v|]; [|discriminate].
  change ("user" ++ ".sig") with "user.sig".
  destruct (present (Obj.get "user.sig" (cookies req))) as [sig|] eqn:P;
    [|discriminate].
  apply present_some in P.
  destruct (Keygrip.verify srv ("user" ++ "=" ++ v) sig) eqn:V;
    [|discriminate].
  intros E. inversion E; subst. split; [reflexivity|]. now exists sig.
Qed.

Lemma auth_middleware_device srv req req' d :
  deviceId req = None ->
  auth_middleware srv req = Returned req' ->
  deviceId req' = Some d ->
  verified_credential srv req d.
Proof.
  intros Hnone. unfold auth_middleware, auth_info.
  destruct (present (Obj.get "x-pageshot-auth" (headers req)))
    as [header|] eqn:Hh.
  - destruct (decodeAuthHeader srv header) as [info|err] eqn:D;
      cbn [bindc]; [|discriminate].
    intros E Hd. inversion E; subst. cbn [deviceId with_auth] in Hd.
    destruct (present (ai_deviceId info)) as [d'|] eqn:P; [|congruence].
    inversion Hd; subst. apply present_some in P.
    destruct (decodeAuthHeader_device _ _ _ _ D P) as (g2 & g3 & g4 & S & V).
    left. now exists header, g2, g3, g4.
  - assert (C : forall info,
              ai_deviceId info = cookies_get_signed srv req "user" ->
              Returned (with_auth req
                 match present (ai_deviceId info) with
                 | Some d0 => Some d0
                 | None => deviceId req
                 end (abTests_or_empty (ai_abTests info))
                 (protocol req ++ "://" ++ host req)) = Returned req' ->
              deviceId req' = Some d ->
              verified_credential srv req d).
    { intros info Hi E Hd. inversion E; subst. cbn [deviceId with_auth] in Hd.
      destruct (present (ai_deviceId info)) as [d'|] eqn:P; [|congruence].
      inversion Hd; subst. apply present_some in P. rewrite Hi in P.
      right. split; [exact Hh|]. now apply cookies_get_signed_user. }
    destruct (present (cookies_get_signed srv req "abtests")) as [a|].
    + destruct (b64DecodeJson a) as [v|err]; cbn [bindc]; [|discriminate].
      now apply C.
    + cbn [bindc]. now apply C.
Qed.

(** The device of a request, after the two middlewares: that of a
    credential whose signatures verify, or the one a holder of a key
    names. *)
Lemma middleware_device srv req req' d :
  deviceId req = None ->
  middleware srv req = Returned req' ->
  deviceId req' = Some d ->
  verified_credential srv req d \/ magic_credential srv req d.
Proof.
  intros Hnone. unfold middleware.
  destruct (auth_middleware srv req) as [r|err] eqn:A; cbn [bindc];
    [|discriminate].
  assert (Hh : headers r = headers req).
  { unfold auth_middleware in A. destruct (auth_info srv req); cbn [bindc] in A;
      [|discriminate]. inversion A. reflexivity. }
  unfold magic_auth_middleware. rewrite Hh.
  destruct (present (Obj.get "x-magic-auth" (headers req))) as [m|] eqn:Pm.
  - destruct (existsb (String.eqb m) (getTextKeys srv)) eqn:K.
    + intros E Hd. inversion E; subst. cbn [deviceId with_deviceId with_auth] in Hd.
      right. exists m. split; [exact Pm|]. split; [|exact Hd].
      apply existsb_exists in K as (k & Hin & Ek).
      apply String.eqb_eq in Ek. now subst.
    + intros E Hd. inversion E; subst. left.
      now apply (auth_middleware_device srv req req').
  - intros E Hd. inversion E; subst. left.
    now apply (auth_middleware_device srv req req').
Qed.

(** *** The handlers act for the device of the request *)

Lemma put_data_acts_for_session srv rnd cc ca req i u :
  acts_for_session req (put_data srv rnd cc ca req i u).
Proof.
  unfold put_data. intros e d Hin Ha.
  destruct (fails_artificially srv rnd); [each_effect Hin Ha|].
  destruct (given (body_member "deviceId" req)) as [v|];
    [|each_effect Hin Ha].
  destruct (present (deviceId req)) as [d'|] eqn:P; [|each_effect Hin Ha].
  apply present_some in P.
  destruct (loosely_equal d' v) as [[|]|err];
    [| each_effect Hin Ha | each_effect Hin Ha].
  destruct (content_errors cc ca req); [|each_effect Hin Ha].
  destruct i as [[c|]|err]; [| destruct u as [c|err] |];
    each_effect Hin Ha; exact P.
Qed.

Lemma delete_shot_acts_for_session req r :
  acts_for_session req (delete_shot req r).
Proof.
  unfold delete_shot. intros e d Hin Ha.
  destruct (present (deviceId req)) as [d'|] eqn:P; [|each_effect Hin Ha].
  apply present_some in P.
  destruct r as [[|]|err]; each_effect Hin Ha; exact P.
Qed.

Lemma set_title_acts_for_session req got u :
  acts_for_session req (set_title req got u).
Proof.
  unfold set_title. intros e d Hin Ha.
  destruct (body_member "title" req); [|each_effect Hin Ha].
  destruct (present (deviceId req)) as [d'|] eqn:P; [|each_effect Hin Ha].
  apply present_some in P.
  destruct got as [[shot|]|err]; [| each_effect Hin Ha | each_effect Hin Ha].
  destruct (String.eqb_spec (shot_deviceId shot) d') as [E|N]; cbn [negb] in Hin;
    [|each_effect Hin Ha].
  destruct u as [x|err]; each_effect Hin Ha; congruence.
Qed.

Lemma set_expiration_acts_for_session req r :
  acts_for_session req (set_expiration req r).
Proof.
  unfold set_expiration. intros e d Hin Ha.
  destruct (present (deviceId req)) as [d'|] eqn:P; [|each_effect Hin Ha].
  apply present_some in P.
  cbv zeta in Hin.
  destruct (text_of _) as [text|err]; [|each_effect Hin Ha].
  destruct (Number.negative _); [each_effect Hin Ha|].
  destruct (Number.is_nan _); [each_effect Hin Ha|].
  destruct r as [[|]|err]; each_effect Hin Ha; exact P.
Qed.

Lemma update_acts_for_session req r : acts_for_session req (update req r).
Proof.
  unfold update. intros e d Hin Ha.
  destruct (present (deviceId req)) as [d'|] eqn:P; [|each_effect Hin Ha].
  apply present_some in P.
  destruct r as [[|]|err]; each_effect Hin Ha; exact P.
Qed.

Lemma leave_acts_for_session req r : acts_for_session req (leave req r).
Proof.
  unfold leave. intros e d Hin Ha. apply in_app_or in Hin as [Hin|Hin].
  - destruct (present (deviceId req)); each_effect Hin Ha.
  - destruct r as [x|err]; each_effect Hin Ha; reflexivity.
Qed.

(** C4, the counterexample: a request that shows a key of the server in
    [x-magic-auth] acts as the device its [x-device-id] header names, with no
    signed credential, and POST /leave then deletes what that device has. *)
Lemma magic_auth_names_the_device :
  exists req',
    middleware demo_server magic_request = Returned req' /\
    deviceId req' = Some "victim" /\
    ~ verified_credential demo_server magic_request "victim" /\
    In (ShotDeleteEverythingForDevice "https://shots.example" (Some "victim"))
       (leave req' (Returned tt)).
Proof.
  eexists. split; [vm_compute; reflexivity|]. split; [reflexivity|]. split.
  - intros [(h & g2 & g3 & g4 & P & _) | (_ & C & _)]; discriminate.
  - now left.
Qed.

(** Outside the amended claim: POST /leave answers 403 to a request with
    no device and goes on to call the store, with no device. *)
Example leave_without_device :
  leave bare_request (Returned tt)
  = [ResStatusSend 403 "You must have the addon installed to leave";
     ShotDeleteEverythingForDevice "" None;
     ResRedirect "/leave-screenshots/?complete"].
Proof. reflexivity. Qed.

(** C4, as amended.  The device of a request, which the middleware sets, is
    the device of a credential whose signatures verify (in the header, or
    else in the cookies), or, when the request shows one of the server's keys
    in [x-magic-auth], the device its [x-device-id] header names.  The
    handlers of the shot store and of the profile (PUT /data, delete-shot,
    set-title, set-expiration, update, leave) call the stores for that device
    and no other. *)
Theorem device_of_request_is_verified_or_keyed :
  (forall srv req req' d,
      deviceId req = None ->
      middleware srv req = Returned req' ->
      deviceId req' = Some d ->
      verified_credential srv req d \/ magic_credential srv req d) /\
  (forall srv rnd cc ca req i u,
      acts_for_session req (put_data srv rnd cc ca req i u)) /\
  (forall req r, acts_for_session req (delete_shot req r)) /\
  (forall req got u, acts_for_session req (set_title req got u)) /\
  (forall req r, acts_for_session req (set_expiration req r)) /\
  (forall req r, acts_for_session req (update req r)) /\
  (forall req r, acts_for_session req (leave req r)).
Proof.
  repeat split.
  - apply middleware_device.
  - apply put_data_acts_for_session.
  - apply delete_shot_acts_for_session.
  - apply set_title_acts_for_session.
  - apply set_expiration_acts_for_session.
  - apply update_acts_for_session.
  - apply leave_acts_for_session.
Qed.

Lemma device_of_request_witness :
  verified_credential demo_server
    (with_headers bare_request
       [("x-pageshot-auth", authHeader demo_server "abc123" demo_abTests)])
    "abc123"
  \/ magic_credential demo_server
       (with_headers bare_request
          [("x-pageshot-auth", authHeader demo_server "abc123" demo_abTests)])
       "abc123".
Proof.
  apply (proj1 device_of_request_is_verified_or_keyed demo_server
           (with_headers bare_request
              [("x-pageshot-auth",
                authHeader demo_server "abc123" demo_abTests)])
           (with_auth
              (with_headers bare_request
                 [("x-pageshot-auth",
                   authHeader demo_server "abc123" demo_abTests)])
              (Some "abc123") demo_abTests "https://undefined")).
  - reflexivity.
  - vm_compute. reflexivity.
  - reflexivity.
Defined.

(** ** GET /proxy: what holds of the gate and of the headers *)

Lemma keys_set (A : Type) k (v : A) o x :
  In x (Obj.keys (Obj.set k v o)) <-> x = k \/ In x (Obj.keys o).
Proof.
  unfold Obj.set. destruct (Obj.has k o) eqn:E.
  - rewrite keys_replace. apply has_spec in E. intuition (subst; auto).
  - apply keys_insert.
Qed.

Lemma get_set (A : Type) k (v : A) o x :
  Obj.get x (Obj.set k v o) = if String.eqb x k then Some v else Obj.get x o.
Proof.
  unfold Obj.set. destruct (Obj.has k o) eqn:E.
  - apply get_replace. now apply has_spec.
  - apply get_insert. intros Hin. apply has_spec in Hin. congruence.
Qed.

Lemma passed_names up : forall (acc : list (string * string)) x,
  In x (Obj.keys
          (fold_left
             (fun hs kv =>
                if literal_truthy PROXY_HEADER_WHITELIST (fst kv)
                then Obj.assign (fst kv) (snd kv) hs else hs)
             up acc))
  <-> In x (Obj.keys acc)
      \/ (In x (Obj.keys up)
          /\ literal_truthy PROXY_HEADER_WHITELIST x = true
          /\ x <> "__proto__").
Proof.
  induction up as [|[k v] r IH]; intros acc x; simpl.
  - intuition.
  - rewrite IH. destruct (literal_truthy PROXY_HEADER_WHITELIST k) eqn:T.
    + unfold Obj.assign. destruct (String.eqb_spec k "__proto__") as [->|N].
      * intuition (subst; try congruence; auto).
      * rewrite keys_set. intuition (subst; auto).
    + intuition (subst; try congruence; auto).
Qed.

(** The names of the headers of a proxied response: the two cache headers,
    and the upstream names the whitelist lookup lets through, [__proto__]
    apart, which the lookup lets through and the assignment drops.  The two
    cache headers have the forced values. *)
Lemma proxy_headers_names now utc up x :
  (In x (Obj.keys (proxy_headers now utc up))
   <-> x = "expires" \/ x = "cache-control"
       \/ (In x (Obj.keys up)
           /\ literal_truthy PROXY_HEADER_WHITELIST x = true
           /\ x <> "__proto__")) /\
  literal_truthy PROXY_HEADER_WHITELIST "__proto__" = true /\
  Obj.get "cache-control" (proxy_headers now utc up)
    = Some "public, max-age=2592000" /\
  Obj.get "expires" (proxy_headers now utc up)
    = Some (utc (now + 2592000000)%Z).
Proof.
  unfold proxy_headers. split; [|split; [|split]].
  - rewrite !keys_set, passed_names. simpl. intuition.
  - reflexivity.
  - rewrite !get_set. reflexivity.
  - rewrite !get_set. reflexivity.
Qed.

(** A signature that does not verify is answered 403, and nothing is
    fetched. *)
Lemma proxy_bad_signature srv urlParse now utc req upstream target :
  Obj.get "url" (query req) = Some target ->
  match Obj.get "sig" (query req) with
  | Some sig => Keygrip.verify srv target sig
  | None => false
  end = false ->
  proxy srv urlParse now utc req upstream
  = Returned [RavenMessage "Bad signature on proxy";
              SimpleResponse "Bad signature" 403].
Proof. unfold proxy. now intros -> ->. Qed.

Lemma proxy_bad_signature_witness :
  proxy demo_server demo_urlParse 0 demo_utc unsigned_proxy_request
    (Returned demo_upstream)
  = Returned [RavenMessage "Bad signature on proxy";
              SimpleResponse "Bad signature" 403].
Proof.
  apply (proxy_bad_signature demo_server demo_urlParse 0 demo_utc
           unsigned_proxy_request (Returned demo_upstream) proxied_url).
  - reflexivity.
  - vm_compute. reflexivity.
Defined.


(** ** The credential, by cookie and by an older key *)

Lemma sign_with_plain srv k x :
  hmac srv k x <> "" ->
  Str.nonempty (Keygrip.sign_with srv k x) = true /\
  Str.all (fun c => negb (is_semicolon c)) (Keygrip.sign_with srv k x) = true /\
  Str.all (fun c => negb (line_terminator c)) (Keygrip.sign_with srv k x)
  = true.
Proof.
  intros H. split; [now apply sign_with_nonempty|].
  split; (apply (all_impl is_id_char); [|apply sign_with_id]);
    intros c Hc; destruct (id_char_plain _ Hc) as (_ & E1 & E2);
    now rewrite ?E1, ?E2.
Qed.

Lemma present_nonempty s : Str.nonempty s = true -> present (Some s) = Some s.
Proof. unfold present. now intros ->. Qed.

Lemma sendAuthInfo_cookies srv req d a t jar :
  sendAuthInfo srv req (Some d) a = Returned t ->
  valid_deviceId d = true /\
  cookies_after t jar
  = Obj.set "abtests.sig" (Keygrip.sign srv ("abtests=" ++ b64EncodeJson a))
      (Obj.set "abtests" (b64EncodeJson a)
         (Obj.set "user.sig" (Keygrip.sign srv ("user=" ++ d))
            (Obj.set "user" d jar))).
Proof.
  unfold sendAuthInfo. destruct (valid_deviceId d); cbn [negb];
    [|discriminate].
  intros E. injection E as <-. split; reflexivity.
Qed.

(** The cookies [sendAuthInfo] sets, sent back with no credential in the
    header, give the request the device and the AB tests they were set for:
    the client's jar, whatever it held, then holds [user], [abtests] and
    their signatures, and the middleware reads them back. *)
Theorem cookie_credential_roundtrip (srv : Server) (req next : Request)
    (d : string) (a : json) (jar : list (string * string))
    (t : list effect) :
  hmac srv (newestKey srv) ("user=" ++ d) <> "" ->
  hmac srv (newestKey srv) ("abtests=" ++ b64EncodeJson a) <> "" ->
  JSON.wf a = true ->
  sendAuthInfo srv req (Some d) a = Returned t ->
  present (Obj.get "x-pageshot-auth" (headers next)) = None ->
  cookies next = cookies_after t jar ->
  auth_middleware srv next
  = Returned (with_auth next (Some d) (abTests_or_empty (Some a))
                (protocol next ++ "://" ++ host next)).
Proof.
  intros H1 H2 Ha Ht Hh Hc.
  destruct (sendAuthInfo_cookies _ _ _ _ _ jar Ht) as (Hd & Ej).
  rewrite Ej in Hc. clear Ej Ht.
  destruct (valid_deviceId_plain _ Hd) as (Nd & _).
  destruct (b64EncodeJson_plain a) as (Ne & _).
  pose proof (sign_with_nonempty srv _ _ H1) as N1.
  pose proof (sign_with_nonempty srv _ _ H2) as N2.
  fold (Keygrip.sign srv ("user=" ++ d)) in N1.
  fold (Keygrip.sign srv ("abtests=" ++ b64EncodeJson a)) in N2.
  unfold auth_middleware, auth_info. rewrite Hh.
  assert (Gu : cookies_get_signed srv next "user" = Some d).
  { unfold cookies_get_signed. rewrite Hc, !get_set.
    cbn [String.eqb Ascii.eqb Bool.eqb append].
    change (String "u" (String "s" (String "e" (String "r" (String "=" d)))))
      with ("user=" ++ d).
    now rewrite (present_nonempty _ N1), verify_sign. }
  assert (Ga : cookies_get_signed srv next "abtests"
               = Some (b64EncodeJson a)).
  { unfold cookies_get_signed. rewrite Hc, !get_set.
    cbn [String.eqb Ascii.eqb Bool.eqb append].
    change (String "a" (String "b" (String "t" (String "e" (String "s"
              (String "t" (String "s" (String "=" (b64EncodeJson a)))))))))
      with ("abtests=" ++ b64EncodeJson a).
    now rewrite (present_nonempty _ N2), verify_sign. }
  rewrite Gu, Ga, (present_nonempty _ Ne), (b64DecodeJson_encode _ Ha).
  cbn [bindc ai_deviceId ai_abTests]. now rewrite (present_nonempty _ Nd).
Qed.

Lemma cookie_credential_roundtrip_witness :
  auth_middleware demo_server (with_cookies bare_request demo_jar)
  = Returned
      (with_auth (with_cookies bare_request demo_jar)
         (Some "abc123") demo_abTests "https://shots.example").
Proof.
  refine (cookie_credential_roundtrip demo_server bare_request
            (with_cookies bare_request demo_jar)
            "abc123" demo_abTests [("theme", "dark")] _ _ _ _ _ _ _).
  - vm_compute. discriminate.
  - vm_compute. discriminate.
  - reflexivity.
  - vm_compute. reflexivity.
  - reflexivity.
  - vm_compute. reflexivity.
Defined.

(** A credential signed before the keys were rotated still decodes: each of
    its two signatures may be that of any key the server holds, the newest
    or an older one, and not the same for both. *)
Theorem credential_of_any_key (srv : Server) (d : string) (a : json)
    (k1 k2 : string) :
  In k1 (getTextKeys srv) -> In k2 (getTextKeys srv) ->
  hmac srv k1 d <> "" -> hmac srv k2 (b64EncodeJson a) <> "" ->
  valid_deviceId d = true -> JSON.wf a = true ->
  decodeAuthHeader srv
    (header_of d (Keygrip.sign_with srv k1 d)
       (b64EncodeJson a) (Keygrip.sign_with srv k2 (b64EncodeJson a)))
  = Returned {| ai_deviceId := Some d; ai_abTests := Some a |}.
Proof.
  intros I1 I2 H1 H2 Hd Ha.
  destruct (valid_deviceId_plain _ Hd) as (Nd & Ad).
  destruct (sign_with_plain srv k1 d H1) as (N1 & A1 & _).
  destruct (sign_with_plain srv k2 _ H2) as (_ & _ & L2).
  destruct (b64EncodeJson_plain a) as (Ne & Ae).
  assert (S : auth_header_shape
                (header_of d (Keygrip.sign_with srv k1 d)
                   (b64EncodeJson a)
                   (Keygrip.sign_with srv k2 (b64EncodeJson a)))
                d (Keygrip.sign_with srv k1 d) (b64EncodeJson a)
                (Keygrip.sign_with srv k2 (b64EncodeJson a))).
  { unfold auth_header_shape, header_of. repeat split; assumption. }
  unfold decodeAuthHeader.
  rewrite (proj2 (match_auth_header_shape _ _ _ _ _) S).
  rewrite (proj2 (verify_spec srv d _)) by (exists k1; auto).
  rewrite (proj2 (verify_spec srv (b64EncodeJson a) _)) by (exists k2; auto).
  cbn [andb negb]. now rewrite (b64DecodeJson_encode _ Ha).
Qed.

Lemma credential_of_any_key_witness :
  decodeAuthHeader demo_server
    (header_of "abc123" (Keygrip.sign_with demo_server "key-1" "abc123")
       (b64EncodeJson demo_abTests)
       (Keygrip.sign_with demo_server "key-2" (b64EncodeJson demo_abTests)))
  = Returned {| ai_deviceId := Some "abc123";
                ai_abTests := Some demo_abTests |}.
Proof.
  apply (credential_of_any_key demo_server "abc123" demo_abTests
           "key-1" "key-2").
  - right. left. reflexivity.
  - left. reflexivity.
  - vm_compute. discriminate.
  - vm_compute. discriminate.
  - reflexivity.
  - reflexivity.
Defined.

(** ** What a request without a session cannot do *)

(** Without a device, the handlers that write to the stores call none of
    them: delete-shot, set-expiration, and PUT /data and set-title once their
    body is in order, answer 401, and update passes the missing-session error
    on. *)
Theorem session_required (req : Request) :
  present (deviceId req) = None ->
  (forall srv rnd cc ca i u,
      no_store_call (put_data srv rnd cc ca req i u) /\
      (fails_artificially srv rnd = false ->
       present (text_field "deviceId" req) <> None ->
       answers (put_data srv rnd cc ca req i u) 401)) /\
  (forall r,
      no_store_call (delete_shot req r) /\ answers (delete_shot req r) 401) /\
  (forall got u,
      no_store_call (set_title req got u) /\
      (text_field "title" req <> None ->
       answers (set_title req got u) 401)) /\
  (forall r,
      no_store_call (set_expiration req r) /\
      answers (set_expiration req r) 401) /\
  (forall r, update req r = [NextError "missingSession"]).
Proof.
  intros P. repeat split.
  - unfold put_data. destruct (fails_artificially srv rnd); [reflexivity|].
    destruct (given (body_member "deviceId" req)) as [v|]; [|reflexivity].
    now rewrite P.
  - unfold put_data. intros -> Hb.
    destruct (present (text_field "deviceId" req)) as [b|] eqn:Eb;
      [|congruence].
    rewrite (given_present _ _ _ Eb), P. eexists. reflexivity.
  - unfold delete_shot. now rewrite P.
  - unfold delete_shot. rewrite P. eexists. reflexivity.
  - unfold set_title. destruct (body_member "title" req); [|reflexivity].
    now rewrite P.
  - unfold set_title. intros Ht.
    destruct (text_field "title" req) as [title|] eqn:Et; [|congruence].
    rewrite (body_member_text _ _ _ Et), P. eexists. reflexivity.
  - unfold set_expiration. now rewrite P.
  - unfold set_expiration. rewrite P. eexists. reflexivity.
  - unfold update. now rewrite P.
Qed.

Lemma session_required_witness :
  no_store_call
    (delete_shot (with_body bare_request [("id", "xyz/example.com")])
       (Returned true)) /\
  answers
    (delete_shot (with_body bare_request [("id", "xyz/example.com")])
       (Returned true)) 401.
Proof.
  apply (proj1 (proj2 (session_required
                         (with_body bare_request [("id", "xyz/example.com")])
                         eq_refl))).
Defined.

(** POST /leave is the exception: its 403 to a request without a device is
    not followed by a return, and the store is asked to delete everything
    for the device the request does not have. *)
Theorem leave_deletes_without_session (req : Request)
    (deleted : completion unit) :
  present (deviceId req) = None ->
  first_response (leave req deleted)
  = Some (ResStatusSend 403 "You must have the addon installed to leave") /\
  In (ShotDeleteEverythingForDevice (backend req) (deviceId req))
     (leave req deleted).
Proof.
  intros P. unfold leave. rewrite P. split; [reflexivity|].
  right. left. reflexivity.
Qed.

Lemma leave_deletes_without_session_witness :
  first_response (leave bare_request (Returned tt))
  = Some (ResStatusSend 403 "You must have the addon installed to leave") /\
  In (ShotDeleteEverythingForDevice "" None) (leave bare_request (Returned tt)).
Proof.
  apply (leave_deletes_without_session bare_request (Returned tt)).
  reflexivity.
Defined.

(** ** Registration and login *)






(** ** GET /proxy: what is fetched, and with what *)

Lemma proxy_sub_request srv urlParse now utc req upstream t p h port path hdrs :
  proxy srv urlParse now utc req upstream = Returned t ->
  In (SubRequest p h port path hdrs) t ->
  exists target sig,
    Obj.get "url" (query req) = Some target /\
    Obj.get "sig" (query req) = Some sig /\
    Keygrip.verify srv target sig = true /\
    hdrs = passthrough req /\
    p = url_protocol (urlParse target) /\
    port = url_port (urlParse target) /\
    path = url_path (urlParse target) /\
    exists h', url_host (urlParse target) = Some h' /\
               h = fst (Str.break is_colon h').
Proof.
  unfold proxy. destruct (Obj.get "url" (query req)) as [target|];
    [|discriminate].
  destruct (Obj.get "sig" (query req)) as [sig|]; cbn [negb].
  - destruct (Keygrip.verify srv target sig) eqn:V; cbn [negb].
    + destruct (url_host (urlParse target)) as [h'|] eqn:Hh; [|discriminate].
      intros E Hin. injection E as <-.
      destruct Hin as [E|Hin].
      * injection E as <- <- <- <- <-. exists target, sig.
        repeat split; try reflexivity; try assumption.
        exists h'. now split.
      * destruct upstream; destruct Hin as [E|[]]; discriminate E.
    + intros E Hin. injection E as <-.
      destruct Hin as [E|[E|[]]]; discriminate E.
  - intros E Hin. injection E as <-.
    destruct Hin as [E|[E|[]]]; discriminate E.
Qed.

(** The proxy fetches only what the server signed: a sub-request is made
    only for a URL that comes with the signature one of the server's keys
    gives it; any other request is answered without one. *)
Theorem proxy_fetches_only_signed (srv : Server) (urlParse : string -> Url)
    (now : Z) (utc : Z -> string) (req : Request)
    (upstream : completion Upstream) (t : list effect)
    (p : option string) (h : string) (port path : option string)
    (hdrs : list (string * string)) :
  proxy srv urlParse now utc req upstream = Returned t ->
  In (SubRequest p h port path hdrs) t ->
  exists target sig k,
    Obj.get "url" (query req) = Some target /\
    Obj.get "sig" (query req) = Some sig /\
    In k (getTextKeys srv) /\ sig = Keygrip.sign_with srv k target.
Proof.
  intros E Hin.
  destruct (proxy_sub_request _ _ _ _ _ _ _ _ _ _ _ _ E Hin)
    as (target & sig & Hu & Hs & V & _).
  apply verify_spec in V as (k & Hk & Es).
  exists target, sig, k. auto.
Qed.

Lemma proxy_fetches_only_signed_witness :
  exists target sig k,
    Obj.get "url" (query proxy_request) = Some target /\
    Obj.get "sig" (query proxy_request) = Some sig /\
    In k (getTextKeys demo_server) /\
    sig = Keygrip.sign_with demo_server k target.
Proof.
  apply (proxy_fetches_only_signed demo_server demo_urlParse 0 demo_utc
           proxy_request (Returned demo_upstream)
           [SubRequest (Some "http:") "images.example" None (Some "/a.png") [];
            ResWriteHead 200 "OK"
              (proxy_headers 0 demo_utc (up_headers demo_upstream))]
           (Some "http:") "images.example" None (Some "/a.png") []).
  - vm_compute. reflexivity.
  - left. reflexivity.
Defined.

Lemma passthrough_fold req names : forall acc k v,
  NoDup names ->
  (forall x, In x (Obj.keys acc) -> ~ In x names) ->
  (Obj.get k
     (fold_left
        (fun hs k =>
           match present (Obj.get k (headers req)) with
           | Some v => Obj.set k v hs
           | None => hs
           end)
        names acc) = Some v
   <-> Obj.get k acc = Some v
       \/ (In k names /\ present (Obj.get k (headers req)) = Some v)).
Proof.
  induction names as [|n r IH]; intros acc k v ND Hacc; cbn [fold_left].
  - simpl. tauto.
  - inversion ND as [|? ? Hn ND']; subst.
    rewrite IH; [|exact ND'|].
    + destruct (present (Obj.get n (headers req))) as [w|] eqn:P.
      * rewrite get_set. destruct (String.eqb_spec k n) as [->|N].
        -- split.
           ++ intros [E|[Hin _]]; [|contradiction].
              right. split; [now left | congruence].
           ++ intros [E|[_ E]].
              ** exfalso. apply (Hacc n); [|now left].
                 unfold Obj.keys. clear - E.
                 induction acc as [|[k' v'] acc IHa]; [discriminate|].
                 simpl in E |- *.
                 destruct (String.eqb_spec n k'); [now left|].
                 right. now apply IHa.
              ** left. congruence.
        -- split.
           ++ intros [E|[Hin E]]; [now left|]. right. split; [now right|exact E].
           ++ intros [E|[[E'|Hin] E]]; [now left|congruence|].
              right. now split.
      * split.
        -- intros [E|[Hin E]]; [now left|]. right. split; [now right|exact E].
        -- intros [E|[[<-|Hin] E]]; [now left|congruence|]. right. now split.
    + intros x Hx Hr.
      destruct (present (Obj.get n (headers req))).
      * apply keys_set in Hx as [->|Hx]; [contradiction|].
        apply (Hacc x Hx). now right.
      * apply (Hacc x Hx). now right.
Qed.

(** The proxy forwards three of the client's headers and nothing else:
    [user-agent], [if-modified-since] and [if-none-match], each when the
    client sent it with a value.  The client's cookies and its credential
    never reach the host that is fetched. *)
Theorem proxy_forwards_three_headers (srv : Server)
    (urlParse : string -> Url) (now : Z) (utc : Z -> string) (req : Request)
    (upstream : completion Upstream) (t : list effect)
    (p : option string) (h : string) (port path : option string)
    (hdrs : list (string * string)) :
  proxy srv urlParse now utc req upstream = Returned t ->
  In (SubRequest p h port path hdrs) t ->
  forall k v,
    Obj.get k hdrs = Some v <->
    In k ["user-agent"; "if-modified-since"; "if-none-match"] /\
    present (Obj.get k (headers req)) = Some v.
Proof.
  intros E Hin k v.
  destruct (proxy_sub_request _ _ _ _ _ _ _ _ _ _ _ _ E Hin)
    as (_ & _ & _ & _ & _ & -> & _).
  unfold passthrough. rewrite passthrough_fold.
  - simpl. split; [intros [D|H]; [discriminate D | exact H] | now right].
  - repeat constructor; simpl; intuition discriminate.
  - intros x [].
Qed.

Lemma proxy_forwards_three_headers_witness :
  Obj.get "user-agent" [("user-agent", "Firefox")] = Some "Firefox" <->
  In "user-agent" ["user-agent"; "if-modified-since"; "if-none-match"] /\
  present
    (Obj.get "user-agent"
       (headers
          (with_headers proxy_request
             [("host", "shots.example"); ("user-agent", "Firefox");
              ("cookie", "user=abc123"); ("x-pageshot-auth", "secret")])))
  = Some "Firefox".
Proof.
  apply (proxy_forwards_three_headers demo_server demo_urlParse 0 demo_utc
           (with_headers proxy_request
              [("host", "shots.example"); ("user-agent", "Firefox");
               ("cookie", "user=abc123"); ("x-pageshot-auth", "secret")])
           (Returned demo_upstream)
           [SubRequest (Some "http:") "images.example" None (Some "/a.png")
              [("user-agent", "Firefox")];
            ResWriteHead 200 "OK"
              (proxy_headers 0 demo_utc (up_headers demo_upstream))]
           (Some "http:") "images.example" None (Some "/a.png")
           [("user-agent", "Firefox")]).
  - vm_compute. reflexivity.
  - left. reflexivity.
Defined.

(** ** POST /error: what the description shows of a value *)

Section ErrorReportFacts.
Import ErrorReport.

Lemma single_spaced_cons a r :
  single_spaced (String a r)
  = negb ((code a =? 32) && starts_with_space r) && single_spaced r.
Proof. destruct r; simpl; [now rewrite andb_false_r | reflexivity]. Qed.

Lemma single_spaced_tail a r :
  single_spaced (String a r) = true -> single_spaced r = true.
Proof.
  rewrite single_spaced_cons. intros H. now apply andb_true_iff in H as [_ H].
Qed.

Lemma not_ws1_not_space a : ParseInt.ws1 (code a) = false -> (code a =? 32) = false.
Proof.
  unfold ParseInt.ws1. intros H. apply orb_false_iff in H as [_ H]. exact H.
Qed.

(** Every run of white space is squeezed to one space. *)
Lemma squeeze_spaced n : forall s after,
  String.length s <= n ->
  single_spaced (squeeze after s) = true /\
  (after = true -> starts_with_space (squeeze after s) = false).
Proof.
  induction n as [|n IH]; intros s after Hn.
  - destruct s; [|simpl in Hn; lia]. split; reflexivity.
  - assert (Run : forall r, String.length r <= n ->
              single_spaced ((if after then "" else " ") ++ squeeze true r)
              = true /\
              (after = true ->
               starts_with_space
                 ((if after then "" else " ") ++ squeeze true r) = false)).
    { intros r Hr. destruct (IH r true Hr) as (S1 & S2).
      destruct after; cbn [append].
      - split; [exact S1 | intros _; now apply S2].
      - split; [|discriminate].
        rewrite single_spaced_cons, S1, (S2 eq_refl), andb_false_r.
        reflexivity. }
    assert (Keep : forall a r, ParseInt.ws1 (code a) = false ->
              String.length r <= n ->
              single_spaced (String a (squeeze false r)) = true /\
              (after = true ->
               starts_with_space (String a (squeeze false r)) = false)).
    { intros a r Ha Hr. destruct (IH r false Hr) as (S1 & _).
      apply not_ws1_not_space in Ha.
      rewrite single_spaced_cons, S1, Ha. cbn [starts_with_space].
      rewrite Ha. split; [reflexivity | intros _; reflexivity]. }
    destruct s as [|a r]; [split; reflexivity|].
    cbn [String.length] in Hn. cbn [squeeze].
    destruct (ParseInt.ws1 (code a)) eqn:W1; [apply Run; lia|].
    destruct r as [|b r2].
    + apply not_ws1_not_space in W1. cbn. rewrite W1.
      split; [reflexivity | intros _; reflexivity].
    + cbn [String.length] in Hn.
      destruct (ParseInt.ws2 (code a) (code b)); [apply Run; lia|].
      destruct r2 as [|c r3].
      * apply (Keep a (String b "") W1). cbn [String.length]. lia.
      * cbn [String.length] in Hn.
        destruct (ParseInt.ws3 (code a) (code b) (code c)); [apply Run; lia|].
        apply (Keep a (String b (String c r3)) W1). cbn [String.length]. lia.
Qed.

Lemma mask_unit_cases k c :
  (exists x, mask_unit k c = (String x "", 0) /\ allowed x = true /\
             ((code x =? 32) = (code c =? 32)))
  \/ (exists k', mask_unit k c = ("", k') /\ (code c =? 32) = false)
  \/ (exists k', mask_unit k c = ("?", k') /\ (code c =? 32) = false)
  \/ (exists k', mask_unit k c = ("??", k') /\ (code c =? 32) = false).
Proof.
  unfold mask_unit.
  destruct (code c <? 128) eqn:L1.
  - left. destruct (allowed c) eqn:A.
    + exists c. auto.
    + exists "?"%char. repeat split.
      destruct (Nat.eqb_spec (code c) 32) as [E|N]; [|reflexivity].
      unfold allowed in A. rewrite E in A. discriminate A.
  - apply Nat.ltb_ge in L1.
    assert (N32 : (code c =? 32) = false) by (apply Nat.eqb_neq; lia).
    destruct (code c <? 192).
    + destruct k as [|k0].
      * right. right. left. now exists 0.
      * right. left. now exists k0.
    + destruct (code c <? 224); [right; right; left; now exists 1|].
      destruct (code c <? 240); [right; right; left; now exists 2|].
      right. right. right. now exists 3.
Qed.

Lemma mask_allowed s : forall k, Str.all allowed (mask k s) = true.
Proof.
  induction s as [|c r IH]; intros k; [reflexivity|]. cbn [mask].
  destruct (mask_unit_cases k c)
    as [(x & -> & A & _) | [(k' & -> & _) | [(k' & -> & _) | (k' & -> & _)]]];
    cbn [append Str.all]; rewrite ?A, IH; reflexivity.
Qed.

Lemma mask_spaced s : forall k,
  single_spaced s = true ->
  single_spaced (mask k s) = true /\
  (k = 0 -> starts_with_space s = false ->
   starts_with_space (mask k s) = false).
Proof.
  induction s as [|c r IH]; intros k Hs; [split; reflexivity|].
  pose proof (single_spaced_tail _ _ Hs) as Hr.
  rewrite single_spaced_cons in Hs. apply andb_true_iff in Hs as [Hc _].
  cbn [mask starts_with_space].
  destruct (mask_unit_cases k c)
    as [(x & E & _ & Ex) | [(k' & E & N) | [(k' & E & N) | (k' & E & N)]]];
    rewrite E; cbn [append].
  - destruct (IH 0 Hr) as (S1 & S2). split.
    + rewrite single_spaced_cons, S1, Ex.
      destruct (code c =? 32); [|reflexivity].
      cbn [andb negb] in Hc |- *.
      rewrite S2; [reflexivity | reflexivity |].
      now destruct (starts_with_space r).
    + intros _ Hn. cbn [starts_with_space]. congruence.
  - destruct (IH k' Hr) as (S1 & _). split; [exact S1|].
    intros -> _. unfold mask_unit in E.
    destruct (code c <? 128); [destruct (allowed c); discriminate E|].
    destruct (code c <? 192); [discriminate E|].
    destruct (code c <? 224); [discriminate E|].
    destruct (code c <? 240); discriminate E.
  - destruct (IH k' Hr) as (S1 & _). split.
    + now rewrite single_spaced_cons, S1.
    + reflexivity.
  - destruct (IH k' Hr) as (S1 & _). split.
    + now rewrite !single_spaced_cons, S1.
    + reflexivity.
Qed.

Lemma substring_length n : forall s, String.length (substring 0 n s) <= n.
Proof.
  induction n as [|n IH]; intros [|c r]; simpl; try lia.
  specialize (IH r). lia.
Qed.

Lemma substring_all p n : forall s,
  Str.all p s = true -> Str.all p (substring 0 n s) = true.
Proof.
  induction n as [|n IH]; intros [|c r]; simpl; try reflexivity.
  intros H. apply andb_true_iff in H as [-> H]. now apply IH.
Qed.

Lemma substring_spaced n : forall s,
  single_spaced s = true -> single_spaced (substring 0 n s) = true.
Proof.
  induction n as [|n IH]; intros [|c r]; try reflexivity.
  intros H. cbn [substring].
  pose proof (single_spaced_tail _ _ H) as Hr.
  rewrite single_spaced_cons in H |- *. rewrite (IH r Hr), andb_true_r.
  apply andb_true_iff in H as [H _].
  destruct (code c =? 32); [|reflexivity]. cbn [andb negb] in H |- *.
  destruct n, r; try reflexivity. exact H.
Qed.

Lemma substring_whole n : forall s,
  String.length s <= n -> substring 0 n s = s.
Proof.
  induction n as [|n IH]; intros [|c r]; simpl; try reflexivity; try lia.
  intros H. rewrite IH; [reflexivity | lia].
Qed.

Lemma sanitize_is_clean value : clean (sanitize value).
Proof.
  unfold clean, sanitize. split; [|split].
  - apply substring_all, mask_allowed.
  - apply substring_spaced, mask_spaced.
    apply (squeeze_spaced (String.length (blank_tabs (slash_newlines value)))).
    lia.
  - apply substring_length.
Qed.

Lemma allowed_plain c :
  allowed c = true ->
  (code c <? 128) = true /\ (code c =? 10) = false /\
  (code c =? 9) = false /\ (code c =? 13) = false /\
  ParseInt.ws1 (code c) = (code c =? 32).
Proof. ascii_cases c; intros H; try discriminate H; repeat split. Qed.

Lemma slash_newlines_allowed s :
  Str.all allowed s = true -> slash_newlines s = s.
Proof.
  induction s as [|c r IH]; [reflexivity|]. simpl. intros H.
  apply andb_true_iff in H as [Hc Hr].
  destruct (allowed_plain _ Hc) as (_ & -> & _). now rewrite IH.
Qed.

Lemma blank_tabs_allowed s :
  Str.all allowed s = true -> blank_tabs s = s.
Proof.
  induction s as [|c r IH]; [reflexivity|]. simpl. intros H.
  apply andb_true_iff in H as [Hc Hr].
  destruct (allowed_plain _ Hc) as (_ & _ & -> & -> & _). now rewrite IH.
Qed.

Lemma mask_allowed_id s : Str.all allowed s = true -> mask 0 s = s.
Proof.
  induction s as [|c r IH]; [reflexivity|]. simpl. intros H.
  apply andb_true_iff in H as [Hc Hr].
  destruct (allowed_plain _ Hc) as (L & _). unfold mask_unit.
  rewrite L, Hc. cbn [append]. now rewrite IH.
Qed.

Lemma space_is_space c : (code c =? 32) = true -> c = " "%char.
Proof.
  intros H. apply Nat.eqb_eq in H. unfold code in H.
  rewrite <- (ascii_nat_embedding c), H. reflexivity.
Qed.

Lemma small_not_wide a b c :
  (code a <? 128) = true ->
  ParseInt.ws2 (code a) (code b) = false /\
  ParseInt.ws3 (code a) (code b) (code c) = false.
Proof.
  intros H. apply Nat.ltb_lt in H. unfold ParseInt.ws2, ParseInt.ws3.
  assert (E1 : (code a =? 194) = false) by (apply Nat.eqb_neq; lia).
  assert (E2 : (code a =? 225) = false) by (apply Nat.eqb_neq; lia).
  assert (E3 : (code a =? 226) = false) by (apply Nat.eqb_neq; lia).
  assert (E4 : (code a =? 227) = false) by (apply Nat.eqb_neq; lia).
  assert (E5 : (code a =? 239) = false) by (apply Nat.eqb_neq; lia).
  now rewrite E1, E2, E3, E4, E5.
Qed.

Lemma squeeze_allowed_id s : forall after,
  Str.all allowed s = true -> single_spaced s = true ->
  (after = true -> starts_with_space s = false) ->
  squeeze after s = s.
Proof.
  induction s as [|a r IH]; intros after Ha Hs Hf; [reflexivity|].
  cbn [Str.all] in Ha. apply andb_true_iff in Ha as [Hc Hr].
  pose proof (single_spaced_tail _ _ Hs) as Hs'.
  rewrite single_spaced_cons in Hs. apply andb_true_iff in Hs as [Hcs _].
  destruct (allowed_plain _ Hc) as (L & _ & _ & _ & W).
  cbn [squeeze]. rewrite W. cbn [starts_with_space] in Hf.
  destruct (code a =? 32) eqn:E.
  - destruct after; [now specialize (Hf eq_refl)|].
    cbn [append]. rewrite (space_is_space _ E). f_equal.
    apply IH; try assumption. intros _. cbn [andb negb] in Hcs.
    now destruct (starts_with_space r).
  - destruct r as [|b r2]; [reflexivity|].
    destruct r2 as [|c r3].
    + destruct (small_not_wide a b b L) as (-> & _).
      f_equal. apply IH; try assumption. discriminate.
    + destruct (small_not_wide a b c L) as (-> & ->).
      f_equal. apply IH; try assumption. discriminate.
Qed.

Lemma sanitize_clean_id value : clean value -> sanitize value = value.
Proof.
  intros (Ha & Hs & Hl). unfold sanitize.
  rewrite (slash_newlines_allowed _ Ha), (blank_tabs_allowed _ Ha).
  rewrite (squeeze_allowed_id _ false Ha Hs) by discriminate.
  rewrite (mask_allowed_id _ Ha). now apply substring_whole.
Qed.

End ErrorReportFacts.

(** What POST /error shows of the value of an attribute holds only units of
    the class [[a-zA-Z0-9_\-=+{}().,/?:\[\]| ]], among them no line break and
    no tab, has no two spaces in a row, and is a hundred units long at
    most, whatever the value was.  The description lists the attributes of
    the body other than [name], [help] and [version], each as its name, a
    colon, two spaces and such a value. *)
Theorem sanitize_clean :
  (forall value, ErrorReport.clean (ErrorReport.sanitize value)) /\
  (forall bodyObj item,
      In item (ErrorReport.attrs bodyObj) ->
      exists attr value shown,
        In (attr, value) bodyObj /\
        attr <> "name" /\ attr <> "help" /\ attr <> "version" /\
        item = attr ++ ":  " ++ shown /\ ErrorReport.clean shown).
Proof.
  split; [apply sanitize_is_clean|].
  intros bodyObj item Hin. unfold ErrorReport.attrs in Hin.
  apply in_map_iff in Hin as ([attr value] & <- & Hf).
  apply filter_In in Hf as (Hin & Hk). cbn [fst snd] in *.
  apply negb_true_iff in Hk. apply orb_false_iff in Hk as [Hk Hv].
  apply orb_false_iff in Hk as [Hn Hh].
  exists attr, value, (ErrorReport.sanitize (ErrorReport.to_text value)).
  repeat split; try (now apply String.eqb_neq); try exact Hin;
    apply sanitize_is_clean.
Qed.

Lemma sanitize_clean_witness :
  exists attr value shown,
    In (attr, value)
       [("name", JStr "TypeError"); ("stack", JStr "a@b.js:1")] /\
    attr <> "name" /\ attr <> "help" /\ attr <> "version" /\
    "stack:  a?b.js:1" = attr ++ ":  " ++ shown /\ ErrorReport.clean shown.
Proof.
  apply (proj2 sanitize_clean
           [("name", JStr "TypeError"); ("stack", JStr "a@b.js:1")]
           "stack:  a?b.js:1").
  left. reflexivity.
Defined.

(** A value that is clean already is shown as it is, and so sanitizing
    twice changes nothing more. *)
Theorem sanitize_keeps_clean :
  (forall value, ErrorReport.clean value -> ErrorReport.sanitize value = value) /\
  (forall value,
      ErrorReport.sanitize (ErrorReport.sanitize value)
      = ErrorReport.sanitize value).
Proof.
  split.
  - apply sanitize_clean_id.
  - intros value. apply sanitize_clean_id, sanitize_is_clean.
Qed.

Lemma sanitize_keeps_clean_witness :
  ErrorReport.sanitize "TypeError: x is undefined (main.js:12)"
  = "TypeError: x is undefined (main.js:12)".
Proof.
  apply (proj1 sanitize_keeps_clean "TypeError: x is undefined (main.js:12)").
  split; [reflexivity | split; [reflexivity | simpl; lia]].
Defined.

(** ** The security headers and the cross-origin gate *)

Lemma after_line_cons a r :
  (nat_of_ascii a =? 10) = false -> (nat_of_ascii a =? 13) = false ->
  (nat_of_ascii a =? 226) = false ->
  after_line (String a r) = after_line r.
Proof.
  intros E1 E2 E3. cbn [after_line]. rewrite E1, E2, E3. cbn [orb andb].
  destruct r as [|b [|c r']]; reflexivity.
Qed.

Lemma after_line_step a r :
  after_line (String a r)
  = if (nat_of_ascii a =? 10) || (nat_of_ascii a =? 13) then String a r
    else
      match r with
      | String b (String c _) =>
          if (nat_of_ascii a =? 226) && (nat_of_ascii b =? 128)
             && ((nat_of_ascii c =? 168) || (nat_of_ascii c =? 169))
          then String a r else after_line r
      | _ => after_line r
      end.
Proof. reflexivity. Qed.

(** Two texts without a line end, with a slash between them, have none. *)
Lemma after_line_slash host path :
  after_line host = "" -> after_line path = "" ->
  after_line (host ++ String "/" path) = "".
Proof.
  intros Hl Hp. induction host as [|a r IH].
  - cbn [append]. now rewrite after_line_cons by reflexivity.
  - rewrite after_line_step in Hl. cbn [append]. rewrite after_line_step.
    destruct ((nat_of_ascii a =? 10) || (nat_of_ascii a =? 13));
      [discriminate Hl|].
    destruct r as [|b [|c r']]; cbn [append] in IH |- *.
    + destruct path as [|c p]; [now apply IH|].
      change (nat_of_ascii "/" =? 128) with false.
      rewrite andb_false_r. now apply IH.
    + change (nat_of_ascii "/" =? 168) with false.
      change (nat_of_ascii "/" =? 169) with false.
      rewrite andb_false_r. now apply IH.
    + destruct ((nat_of_ascii a =? 226) && (nat_of_ascii b =? 128)
                && ((nat_of_ascii c =? 168) || (nat_of_ascii c =? 169)));
        [discriminate Hl|].
      now apply IH.
Qed.

Lemma strip_path_at_slash host rest :
  Str.all (fun c => negb (is_slash c)) host = true ->
  strip_path (host ++ String "/" rest) = host ++ after_line rest.
Proof.
  intros H. unfold strip_path. now rewrite (break_append is_slash _ "/" rest H).
Qed.

Lemma strip_path_none host :
  Str.all (fun c => negb (is_slash c)) host = true -> strip_path host = host.
Proof.
  intros H. unfold strip_path.
  destruct (Str.break is_slash host) as [a b] eqn:B.
  destruct (break_spec _ _ _ _ B) as (E & _ & Hb).
  destruct b as [|c b']; [reflexivity|].
  exfalso. subst host. rewrite all_append in H.
  apply andb_true_iff in H as [_ H]. simpl in H. rewrite Hb in H.
  discriminate H.
Qed.

Lemma strip_credentials_key scheme key rest :
  scheme = "http://" \/ scheme = "https://" ->
  Str.all (fun c => negb (is_at c)) key = true ->
  strip_credentials (scheme ++ key ++ String "@" rest) = rest.
Proof.
  intros [->| ->] H; unfold strip_credentials; cbn;
    now rewrite (break_append is_at _ "@" rest H).
Qed.

Lemma strip_credentials_none scheme rest :
  scheme = "http://" \/ scheme = "https://" ->
  Str.all (fun c => negb (is_at c)) rest = true ->
  strip_credentials (scheme ++ rest) = scheme ++ rest.
Proof.
  intros Hs H.
  assert (B : snd (Str.break is_at rest) = "").
  { destruct (Str.break is_at rest) as [a b] eqn:B.
    destruct (break_spec _ _ _ _ B) as (E & _ & Hb).
    destruct b as [|c b']; [reflexivity|].
    exfalso. subst rest. rewrite all_append in H.
    apply andb_true_iff in H as [_ H]. simpl in H. rewrite Hb in H.
    discriminate H. }
  destruct Hs as [->| ->]; unfold strip_credentials; cbn; now rewrite B.
Qed.

(** The policy names the host of the DSN, without the public key that
    stands before the [@] and without the path: for
    [https://key@host/path] the scripts may connect to [host].  A DSN that
    has no [@] is cut at the slashes of its scheme, and the policy then
    names the scheme alone, [https:] or [http:]. *)
Theorem csp_connect_origin (scheme key host path : string) :
  scheme = "http://" \/ scheme = "https://" ->
  Str.all (fun c => negb (is_at c)) key = true ->
  Str.all (fun c => negb (is_slash c)) host = true ->
  after_line path = "" ->
  connect_origin (Some (scheme ++ key ++ "@" ++ host ++ "/" ++ path)) = host /\
  connect_origin (Some (scheme ++ key ++ "@" ++ host)) = host /\
  (Str.all (fun c => negb (is_at c)) (host ++ "/" ++ path) = true ->
   after_line host = "" ->
   connect_origin (Some (scheme ++ host ++ "/" ++ path))
   = (if String.eqb scheme "https://" then "https:" else "http:")).
Proof.
  intros Hs Hk Hh Hp.
  assert (P : forall x, present (Some (scheme ++ x)) = Some (scheme ++ x)).
  { intros x. destruct Hs as [->| ->]; reflexivity. }
  unfold connect_origin. rewrite !P. split; [|split].
  - change (key ++ "@" ++ host ++ "/" ++ path)
      with (key ++ String "@" (host ++ String "/" path)).
    rewrite (strip_credentials_key _ _ _ Hs Hk), (strip_path_at_slash _ _ Hh).
    now rewrite Hp, append_nil_r.
  - change (key ++ "@" ++ host) with (key ++ String "@" host).
    rewrite (strip_credentials_key _ _ _ Hs Hk). now apply strip_path_none.
  - intros Ha Hl.
    rewrite (strip_credentials_none _ _ Hs Ha).
    assert (L : after_line (String "/" (host ++ "/" ++ path)) = "").
    { rewrite after_line_cons by reflexivity.
      now apply after_line_slash. }
    destruct Hs as [->| ->].
    + change ("http://" ++ host ++ "/" ++ path)
        with ("http:" ++ String "/" (String "/" (host ++ "/" ++ path))).
      rewrite strip_path_at_slash by reflexivity. now rewrite L.
    + change ("https://" ++ host ++ "/" ++ path)
        with ("https:" ++ String "/" (String "/" (host ++ "/" ++ path))).
      rewrite strip_path_at_slash by reflexivity. now rewrite L.
Qed.

Lemma csp_connect_origin_witness :
  connect_origin (Some "https://abc123@sentry.example.com/42")
  = "sentry.example.com" /\
  connect_origin (Some "https://abc123@sentry.example.com")
  = "sentry.example.com" /\
  (Str.all (fun c => negb (is_at c)) "sentry.example.com/42" = true ->
   after_line "sentry.example.com" = "" ->
   connect_origin (Some "https://sentry.example.com/42") = "https:").
Proof.
  apply (csp_connect_origin "https://" "abc123" "sentry.example.com" "42").
  - right. reflexivity.
  - reflexivity.
  - reflexivity.
  - reflexivity.
Defined.

Lemma starts_with_spec p s :
  starts_with p s = true <-> exists rest, s = p ++ rest.
Proof.
  unfold starts_with. split.
  - destruct (Str.strip_prefix p s) as [r|] eqn:E; [|discriminate].
    intros _. exists r. now apply strip_prefix_spec.
  - intros (r & ->). now rewrite strip_prefix_append.
Qed.

(** The API is what is open to other origins: a URL that starts with
    [/api] (so [/api/login], and [/apiary] too), and the URL [/event] alone,
    not [/event?x=1].  A request for such a URL gets the three
    Access-Control headers, and when its method is OPTIONS it is answered
    here, with an empty text, and goes no further; every other request goes
    on to the next middleware. *)
Theorem cors_scope :
  (forall url,
      isApiUrl url = true
      <-> (exists rest, url = "/api" ++ rest) \/ url = "/event") /\
  (forall method req,
      In (ResHeader "Access-Control-Allow-Origin" "*") (cors method req)
      <-> isApiUrl (url req) = true) /\
  (forall method req,
      In Next (cors method req)
      <-> ~ (isApiUrl (url req) = true /\ method = "OPTIONS")) /\
  (forall method req,
      In (ResSend "") (cors method req)
      <-> isApiUrl (url req) = true /\ method = "OPTIONS").
Proof.
  split; [|split; [|split]].
  - intros url. unfold isApiUrl. rewrite orb_true_iff, starts_with_spec.
    now rewrite String.eqb_eq.
  - intros method req. unfold cors. destruct (isApiUrl (url req)).
    + split; [reflexivity | intros _; now left].
    + split; [intros [E|[]]; discriminate E | discriminate].
  - intros method req. unfold cors. destruct (isApiUrl (url req)).
    + destruct (String.eqb_spec method "OPTIONS") as [->|N]; cbn [app].
      * split.
        -- intros H. repeat (destruct H as [E|H]; [discriminate E|]).
           destruct H.
        -- intros H. elim H. now split.
      * split; [intros _ [_ E]; contradiction|].
        intros _. do 3 right. now left.
    + split; [intros _ [E _]; discriminate E | intros _; now left].
  - intros method req. unfold cors. destruct (isApiUrl (url req)).
    + destruct (String.eqb_spec method "OPTIONS") as [->|N]; cbn [app].
      * split; [now split | intros _; do 4 right; now left].
      * split; [|intros [_ E]; contradiction].
        intros H. repeat (destruct H as [E|H]; [discriminate E|]).
        destruct H.
    + split; [intros [E|[]]; discriminate E | intros [E _]; discriminate E].
Qed.

(** ** POST /event *)

(** The category, action, label and value of an event are those of the
    body, there or not: whatever the [options] of the body hold under [ec],
    [ea], [el] or [ev] is overwritten, and so is [ua] by the User-Agent
    header when the request has one.  The event is counted for the UUID of
    the server's newest key followed by the device id; a request without a
    device is counted for the UUID of the key followed by [undefined], the
    same for all such requests. *)
Theorem event_fields (srv : Server) (uuid5 : string -> completion string)
    (req : Request) (options : list (string * json)) :
  Obj.get "ec" (event_params req options) = Some (body_member "event" req) /\
  Obj.get "ea" (event_params req options) = Some (body_member "action" req) /\
  Obj.get "el" (event_params req options) = Some (body_member "label" req) /\
  Obj.get "ev" (event_params req options)
  = Some (body_member "eventValue" req) /\
  (forall userAgent,
      present (Obj.get "user-agent" (headers req)) = Some userAgent ->
      Obj.get "ua" (event_params req options) = Some (Some (JStr userAgent))) /\
  (forall userUuid,
      deviceId req = None ->
      uuid5 (newestKey srv ++ "undefined") = Returned userUuid ->
      event srv uuid5 req options
      = [GaEventParams userUuid (event_params req options);
         Res (SimpleResponse "OK" 200)]).
Proof.
  unfold event_params.
  repeat split;
    try (destruct (present (Obj.get "user-agent" (headers req)));
         cbn [fold_left fst snd]; rewrite !get_set; reflexivity).
  - intros userAgent ->. now rewrite get_set.
  - intros userUuid Hd Hu. unfold event, hashUserId. rewrite Hd.
    cbn [ParseInt.to_string]. now rewrite Hu.
Qed.

Lemma event_fields_witness :
  event demo_server (fun userKey => Returned ("uuid-of-" ++ userKey))
    (with_body bare_request [("event", "addon"); ("action", "click")])
    [("ec", JStr "forged"); ("cd1", JStr "x")]
  = [GaEventParams "uuid-of-key-2undefined"
       (event_params
          (with_body bare_request [("event", "addon"); ("action", "click")])
          [("ec", JStr "forged"); ("cd1", JStr "x")]);
     Res (SimpleResponse "OK" 200)].
Proof.
  apply (proj2 (proj2 (proj2 (proj2 (proj2
           (event_fields demo_server
              (fun userKey => Returned ("uuid-of-" ++ userKey))
              (with_body bare_request
                 [("event", "addon"); ("action", "click")])
              [("ec", JStr "forged"); ("cd1", JStr "x")])))))
           "uuid-of-key-2undefined"); reflexivity.
Defined.

(** ** GET /redirect *)

Lemma strip_angle_app a b :
  strip_angle (a ++ b) = strip_angle a ++ strip_angle b.
Proof.
  induction a as [|c a IH]; [reflexivity|]. simpl.
  destruct (is_angle c); simpl; now rewrite IH.
Qed.

Lemma strip_angle_clear s :
  Str.all (fun c => negb (is_angle c)) (strip_angle s) = true.
Proof.
  induction s as [|c r IH]; [reflexivity|]. simpl.
  destruct (is_angle c) eqn:E; [exact IH|]. simpl. now rewrite E, IH.
Qed.

Lemma strip_angle_escape_char c :
  strip_angle (JSON.escape_char c)
  = if is_angle c then "" else JSON.escape_char c.
Proof. ascii_cases c; reflexivity. Qed.

Lemma strip_angle_escape s :
  strip_angle (JSON.escape s) = JSON.escape (strip_angle s).
Proof.
  induction s as [|c r IH]; [reflexivity|].
  cbn [JSON.escape strip_angle].
  rewrite strip_angle_app, strip_angle_escape_char, IH.
  destruct (is_angle c); reflexivity.
Qed.

Lemma redirectUrlJs_quote url :
  redirectUrlJs url = JSON.stringify (JStr (strip_angle url)).
Proof.
  unfold redirectUrlJs. cbn [JSON.stringify]. unfold JSON.quote.
  rewrite !strip_angle_app, strip_angle_escape. reflexivity.
Qed.

(** The page of GET /redirect sets [window.location] from a literal that
    holds no [<] and no [>], so that nothing in it ends the script, and that
    reads back as the URL without its [<] and [>]: as the URL itself when it
    has none.  The page is sent only for a URL that [validUrl.isUri]
    accepts. *)
Theorem redirect_script :
  (forall url,
      Str.all (fun c => negb (is_angle c)) (redirectUrlJs url) = true /\
      JSON.parse (redirectUrlJs url) = Returned (JStr (strip_angle url))) /\
  (forall escapeHtml isUri nonce req body,
      In (ResSend body) (redirect escapeHtml isUri nonce req) ->
      exists url,
        present (Obj.get "to" (query req)) = Some url /\
        isUri url = true /\
        body = redirect_page escapeHtml nonce url).
Proof.
  split.
  - intros url. split; [apply strip_angle_clear|].
    rewrite redirectUrlJs_quote. now apply parse_stringify.
  - intros escapeHtml isUri nonce req body. unfold redirect.
    destruct (present (Obj.get "to" (query req))) as [url|].
    + destruct (isUri url) eqn:V; cbn [negb app].
      * intros [E|[E|[E|[]]]]; try discriminate E.
        injection E as <-. now exists url.
      * intros [E|[E|[E|[E|[]]]]]; discriminate E.
    + intros [E|[E|[]]]; discriminate E.
Qed.

Lemma redirect_script_witness :
  exists url,
    present
      (Obj.get "to"
         (query (with_query bare_request [("to", "https://example.com/")])))
    = Some url /\
    (fun _ : string => true) url = true /\
    redirect_page (fun s => s) "nonce-1" "https://example.com/"
    = redirect_page (fun s => s) "nonce-1" url.
Proof.
  apply (proj2 redirect_script (fun s => s) (fun _ => true) "nonce-1"
           (with_query bare_request [("to", "https://example.com/")])
           (redirect_page (fun s => s) "nonce-1" "https://example.com/")).
  do 2 right. left. reflexivity.
Defined.

(** ** GET /images/:imageid *)

Lemma string_of_bytes_length l :
  String.length (SHA1.string_of_bytes l) = List.length l.
Proof. induction l as [|b r IH]; simpl; congruence. Qed.

Lemma digest_bytes_length m : List.length (SHA1.digest_bytes m) = 20.
Proof.
  unfold SHA1.digest_bytes.
  destruct (SHA1.blocks _ _ _) as [[[[h0 h1] h2] h3] h4]. reflexivity.
Qed.

Lemma hex_length s : String.length (SHA1.hex s) = 2 * String.length s.
Proof. induction s as [|c r IH]; simpl; [reflexivity|]. rewrite IH. lia. Qed.

Lemma hex_char c : Str.all is_lower_hex (SHA1.hex (String c "")) = true.
Proof. ascii_cases c; reflexivity. Qed.

Lemma hex_digits s : Str.all is_lower_hex (SHA1.hex s) = true.
Proof.
  induction s as [|c r IH]; [reflexivity|].
  pose proof (hex_char c) as H. cbn [SHA1.hex Str.all] in H |- *.
  rewrite andb_true_r in H. apply andb_true_iff in H as [-> ->].
  exact IH.
Qed.

Lemma substring_exact n : forall s,
  n <= String.length s -> String.length (substring 0 n s) = n.
Proof.
  induction n as [|n IH]; intros [|c r]; simpl; try reflexivity; try lia.
  intros H. rewrite IH; [reflexivity | lia].
Qed.

Lemma lower_hex_unreserved c : is_lower_hex c = true -> unreserved c = true.
Proof. ascii_cases c; intros H; try discriminate H; reflexivity. Qed.

Lemma encodeURIComponent_hex s :
  Str.all is_lower_hex s = true -> encodeURIComponent s = s.
Proof.
  induction s as [|c r IH]; [reflexivity|]. simpl. intros H.
  apply andb_true_iff in H as [Hc Hr].
  now rewrite (lower_hex_unreserved _ Hc), (IH Hr).
Qed.

(** A view of an image is counted under a path that does not show the id
    of the image: [/images/hash] (or [/images/embedded/hash]) and the first
    fifteen hexadecimal digits of the SHA-1 of the id, whatever the id holds.
    A view whose referrer starts with the backend of the request is not
    counted at all; the image is sent all the same. *)
Theorem image_view_path :
  (forall embedded imageid,
      exists h,
        analyticsUrl embedded imageid
        = "/images/"
            ++ (match embedded with Some _ => "embedded/" | None => "" end)
            ++ "hash" ++ h /\
        h = substring 0 15 (SHA1.hex (SHA1.sha1 imageid)) /\
        String.length h = 15 /\ Str.all is_lower_hex h = true) /\
  (forall userAnalytics req found referer,
      present (Obj.get "referer" (headers req)) = Some referer ->
      starts_with (backend req) referer = true ->
      counts_no_view (images userAnalytics req found) /\
      forall obj,
        found = Returned (Some obj) ->
        In (ResSend (clip_data obj)) (images userAnalytics req found)).
Proof.
  split.
  - intros embedded imageid.
    exists (substring 0 15 (SHA1.hex (SHA1.sha1 imageid))).
    assert (D : Str.all is_lower_hex
                  (substring 0 15 (SHA1.hex (SHA1.sha1 imageid))) = true)
      by apply substring_all, hex_digits.
    repeat split.
    + unfold analyticsUrl. now rewrite (encodeURIComponent_hex _ D).
    + apply substring_exact. unfold SHA1.sha1.
      rewrite hex_length, string_of_bytes_length, digest_bytes_length. lia.
    + exact D.
  - intros userAnalytics req found referer Hr Hl. unfold images.
    rewrite Hr, Hl. split.
    + intros cid dp dh referrer userAgent label [E|Hin]; [discriminate E|].
      destruct found as [[obj|]|err]; cbn [app] in Hin.
      * destruct Hin as [E|[E|[E|[]]]]; discriminate E.
      * destruct Hin as [E|[]]; discriminate E.
      * destruct Hin.
    + intros obj ->. cbn [app]. do 3 right. now left.
Qed.

Lemma image_view_path_witness :
  counts_no_view
    (images None
       (with_headers session_request
          [("host", "shots.example");
           ("referer", "https://shots.example/xyz/example.com")])
       (Returned (Some {| contentType := "image/png"; clip_data := "PNG" |})))
  /\
  forall obj,
    Returned (Some {| contentType := "image/png"; clip_data := "PNG" |})
    = Returned (Some obj) ->
    In (ResSend (clip_data obj))
       (images None
          (with_headers session_request
             [("host", "shots.example");
              ("referer", "https://shots.example/xyz/example.com")])
          (Returned
             (Some {| contentType := "image/png"; clip_data := "PNG" |}))).
Proof.
  apply (proj2 image_view_path None
           (with_headers session_request
              [("host", "shots.example");
               ("referer", "https://shots.example/xyz/example.com")])
           (Returned (Some {| contentType := "image/png"; clip_data := "PNG" |}))
           "https://shots.example/xyz/example.com"); reflexivity.
Defined.

(** ** GET /oembed *)

Lemma skip_slashes_run slashes s :
  Str.all is_slash slashes = true ->
  skip_slashes (slashes ++ s) = skip_slashes s.
Proof.
  induction slashes as [|c r IH]; [reflexivity|]. simpl. intros H.
  apply andb_true_iff in H as [-> Hr]. now apply IH.
Qed.

Lemma skip_slashes_group g s :
  Str.nonempty g = true ->
  Str.all (fun c => negb (is_slash c)) g = true ->
  skip_slashes (g ++ s) = g ++ s.
Proof.
  destruct g as [|c r]; [discriminate|]. intros _ H. simpl in H |- *.
  apply andb_true_iff in H as [H _]. apply negb_true_iff in H.
  now rewrite H.
Qed.

Lemma break_slash_group g rest :
  Str.all (fun c => negb (is_slash c)) g = true ->
  rest = "" \/ (exists r, rest = String "/" r) ->
  Str.break is_slash (g ++ rest) = (g, rest).
Proof.
  intros Hg [->|(r & ->)].
  - rewrite append_nil_r. now apply break_all.
  - now apply break_append.
Qed.

(** The path of a shot is read back as its id: slashes, the id, a slash
    and the domain, and whatever follows the next slash. *)
Lemma match_shot_url_path slashes id domain rest :
  Str.all is_slash slashes = true ->
  Str.nonempty id = true ->
  Str.all (fun c => negb (is_slash c)) id = true ->
  Str.nonempty domain = true ->
  Str.all (fun c => negb (is_slash c)) domain = true ->
  rest = "" \/ (exists r, rest = String "/" r) ->
  match_shot_url (slashes ++ id ++ String "/" (domain ++ rest))
  = Some (id, domain).
Proof.
  intros Hs Ni Ai Nd Ad Hr. unfold match_shot_url.
  rewrite (skip_slashes_run _ _ Hs), (skip_slashes_group _ _ Ni Ai).
  rewrite (break_append is_slash id "/" _ Ai eq_refl), Ni. cbn [negb].
  now rewrite (break_slash_group _ _ Ad Hr), Nd.
Qed.

(** GET /oembed looks up the shot a shot URL names: for a URL that is the
    backend of the request, slashes, an id, a slash and a domain (and
    nothing more, or more after a further slash), with [http://] and
    [https://] taken as the same scheme on both sides, [Shot.get] is called
    for [id/domain] on the backend. *)
Theorem oembed_looks_up_the_shot (req : Request)
    (oembedJson : ShotRow -> option Number.t -> option Number.t -> string)
    (misdirected : completion unit) (got : completion (option ShotRow))
    (url slashes id domain rest : string) :
  present (Obj.get "url" (query req)) = Some url ->
  present (Obj.get "format" (query req)) = None
  \/ present (Obj.get "format" (query req)) = Some "json" ->
  https_scheme url
  = https_scheme (backend req) ++ slashes ++ id ++ "/" ++ domain ++ rest ->
  Str.all is_slash slashes = true ->
  Str.nonempty id = true ->
  Str.all (fun c => negb (is_slash c)) id = true ->
  Str.nonempty domain = true ->
  Str.all (fun c => negb (is_slash c)) domain = true ->
  rest = "" \/ (exists r, rest = String "/" r) ->
  exists t,
    oembed req oembedJson misdirected got
    = Res (ShotGet (backend req) (id ++ "/" ++ domain)) :: t.
Proof.
  intros Hu Hf E Hs Ni Ai Nd Ad Hr. unfold oembed. rewrite Hu.
  assert (F : negb (String.eqb
                      match present (Obj.get "format" (query req)) with
                      | Some f => f
                      | None => "json"
                      end "json") = false).
  { destruct Hf as [->| ->]; reflexivity. }
  rewrite F, E, strip_prefix_append.
  change (slashes ++ id ++ "/" ++ domain ++ rest)
    with (slashes ++ id ++ String "/" (domain ++ rest)).
  rewrite (match_shot_url_path _ _ _ _ Hs Ni Ai Nd Ad Hr).
  eexists. reflexivity.
Qed.

Lemma oembed_looks_up_the_shot_witness :
  exists t,
    oembed
      (with_query session_request
         [("url", "HTTP://shots.example/xyz/example.com/extra")])
      (fun _ _ _ => "{}") (Returned tt) (Returned (Some owned_shot))
    = Res (ShotGet "https://shots.example" ("xyz" ++ "/" ++ "example.com"))
        :: t.
Proof.
  apply (oembed_looks_up_the_shot
           (with_query session_request
              [("url", "HTTP://shots.example/xyz/example.com/extra")])
           (fun _ _ _ => "{}") (Returned tt) (Returned (Some owned_shot))
           "HTTP://shots.example/xyz/example.com/extra"
           "/" "xyz" "example.com" "/extra"); try reflexivity.
  - left. reflexivity.
  - right. exists "extra". reflexivity.
Defined.

(** A request to GET /oembed without a [url] is not answered 400: the
    refusal is handed the request where the response belongs.  When that call
    throws, the error goes to the last middleware and the answer is the
    general error; when it returns, nothing is written on the response.  A
    request with a [url] is left unanswered only when [Shot.get] fails. *)
Theorem oembed_without_url (req : Request)
    (oembedJson : ShotRow -> option Number.t -> option Number.t -> string)
    (misdirected : completion unit) (got : completion (option ShotRow)) :
  let t := oembed req oembedJson misdirected got in
  (present (Obj.get "url" (query req)) = None ->
   (forall message status, ~ In (Res (SimpleResponse message status)) t) /\
   (forall err, misdirected = Threw err ->
      t = [OnRequest (SimpleResponse "No ?url given" 400);
           Res (ErrorResponse "General error:" err)]) /\
   (forall u, misdirected = Returned u ->
      existsb writes_response t = false)) /\
  (forall url, present (Obj.get "url" (query req)) = Some url ->
     existsb writes_response t = false -> exists err, got = Threw err).
Proof.
  cbv zeta. unfold oembed. split.
  - intros ->. split; [|split].
    + intros message status.
      destruct misdirected as [u|err]; simpl; intuition discriminate.
    + now intros err ->.
    + now intros u ->.
  - intros url ->.
    destruct (negb (String.eqb _ "json")); [discriminate|].
    destruct (Str.strip_prefix _ _) as [path|]; [|discriminate].
    destruct (match_shot_url path) as [[id domain]|]; [|discriminate].
    destruct got as [[shot|]|err]; try discriminate.
    intros _. now exists err.
Qed.

Lemma oembed_without_url_witness :
  oembed session_request (fun _ _ _ => "{}")
    (Threw (TypeError "req.status is not a function"))
    (Returned (Some owned_shot))
  = [OnRequest (SimpleResponse "No ?url given" 400);
     Res (ErrorResponse "General error:"
            (TypeError "req.status is not a function"))].
Proof.
  apply (proj1 (proj2 (proj1 (oembed_without_url session_request
                         (fun _ _ _ => "{}")
                         (Threw (TypeError "req.status is not a function"))
                         (Returned (Some owned_shot))) eq_refl))).
  reflexivity.
Defined.

(** ** The OAuth handlers *)

(** The OAuth handlers do nothing for a request without a device, and keep
    their order: the [state] of GET /api/fxa-oauth/params is sent only once
    [setState] has stored it for the device of the request; POST
    /api/fxa-oauth/token trades the code only when [checkState] accepts the
    state for that device, and sends the access token only once
    [registerAccount] has bound it, and the account it belongs to, to that
    device. *)
Theorem oauth_gates (oAuth : OAuth) (req : Request) :
  (forall stateBytes inserted members,
      In (ResSendObject members) (fxa_params oAuth req stateBytes inserted) ->
      exists d state,
        present (deviceId req) = Some d /\
        stateBytes = Returned state /\ inserted = Returned true /\
        In (SetState d state) (fxa_params oAuth req stateBytes inserted) /\
        Obj.get "state" members = Some (JStr state)) /\
  (forall isValid traded account registered code,
      In (TradeCode code) (fxa_token req isValid traded account registered) ->
      exists d,
        present (deviceId req) = Some d /\ isValid = Returned true /\
        In (CheckState d (body_member "state" req))
           (fxa_token req isValid traded account registered)) /\
  (forall isValid traded account registered members,
      In (ResSendObject members)
         (fxa_token req isValid traded account registered) ->
      exists d accessToken accountId,
        present (deviceId req) = Some d /\ isValid = Returned true /\
        traded = Returned accessToken /\ account = Returned accountId /\
        registered = Returned tt /\
        In (RegisterAccount d accountId accessToken)
           (fxa_token req isValid traded account registered) /\
        members = [("access_token", JStr accessToken)]) /\
  (present (deviceId req) = None ->
   forall stateBytes inserted isValid traded account registered,
     fxa_params oAuth req stateBytes inserted
     = [Res (NextError "missingSession")] /\
     fxa_token req isValid traded account registered
     = [Res (NextError "missingSession")]).
Proof.
  split; [|split; [|split]].
  - intros stateBytes inserted members. unfold fxa_params.
    destruct (present (deviceId req)) as [d|];
      [|intros [E|[]]; discriminate E].
    destruct stateBytes as [state|err]; [|intros [E|[]]; discriminate E].
    destruct inserted as [[|]|err]; intros [E|[E|[]]]; try discriminate E.
    injection E as <-. exists d, state. repeat split. now left.
  - intros isValid traded account registered code. unfold fxa_token.
    destruct (present (deviceId req)) as [d|];
      [|intros [E|[]]; discriminate E].
    destruct isValid as [[|]|err];
      try (intros [E|[E|[]]]; discriminate E).
    intros _. exists d. repeat split. now left.
  - intros isValid traded account registered members. unfold fxa_token.
    destruct (present (deviceId req)) as [d|];
      [|intros [E|[]]; discriminate E].
    destruct isValid as [[|]|err];
      try (intros [E|[E|[]]]; discriminate E).
    destruct traded as [accessToken|err];
      [|intros [E|[E|[E|[]]]]; discriminate E].
    destruct account as [accountId|err];
      [|intros [E|[E|[E|[E|[]]]]]; discriminate E].
    destruct registered as [[]|err];
      intros [E|[E|[E|[E|[E|[]]]]]]; try discriminate E.
    injection E as <-. exists d, accessToken, accountId.
    repeat split. do 3 right. now left.
  - intros P. unfold fxa_params, fxa_token. rewrite P. now split.
Qed.

Lemma oauth_gates_witness :
  fxa_params
    {| profileServer := "p"; oAuthServer := "o"; clientId := "c";
       contentServer := "s" |} bare_request (Returned "5f3a")
    (Returned true)
  = [Res (NextError "missingSession")] /\
  fxa_token bare_request (Returned true) (Returned "token")
    (Returned "uid") (Returned tt)
  = [Res (NextError "missingSession")].
Proof.
  apply (proj2 (proj2 (proj2
           (oauth_gates
              {| profileServer := "p"; oAuthServer := "o"; clientId := "c";
                 contentServer := "s" |} bare_request)))).
  reflexivity.
Defined.

(** ** Start-up *)

(** At start-up the search index is upgraded only once the tables and the
    keys are there, and the keys are made only once the tables are (or
    without them, when this server leaves the tables to another).  A step
    that fails is reported and ends the process with status 1.  When a
    database version is forced nothing else is done, and the process ends
    with status 0, or 2 when forcing failed: the server never runs. *)
Theorem initDatabase_order (forceDbVersion : nat)
    (disableControllerTasks : bool)
    (forced tables keygrip search : completion unit) :
  let t := initDatabase forceDbVersion disableControllerTasks forced tables
             keygrip search in
  (In UpgradeSearch t ->
   forceDbVersion = 0 /\ disableControllerTasks = false /\
   tables = Returned tt /\ keygrip = Returned tt) /\
  (In CreateKeygrip t ->
   forceDbVersion = 0 /\
   (disableControllerTasks = true \/ tables = Returned tt)) /\
  (In (Exit 1) t <->
   forceDbVersion = 0 /\
   ((disableControllerTasks = true /\ exists e, keygrip = Threw e) \/
    (disableControllerTasks = false /\
     ((exists e, tables = Threw e) \/
      (tables = Returned tt /\ exists e, keygrip = Threw e) \/
      (tables = Returned tt /\ keygrip = Returned tt /\
       exists e, search = Threw e))))) /\
  (forceDbVersion <> 0 ->
   t = [ForceDbVersion forceDbVersion;
        Exit (match forced with Threw _ => 2 | Returned _ => 0 end)]).
Proof.
  cbv zeta. unfold initDatabase.
  destruct (Nat.eqb_spec forceDbVersion 0) as [->|N]; cbn [negb].
  - split; [|split; [|split]].
    + destruct disableControllerTasks;
        destruct tables as [[]|e1], keygrip as [[]|e2], search as [[]|e3];
        cbn [chain app]; intros H; boot_cases H; repeat split.
    + destruct disableControllerTasks;
        destruct tables as [[]|e1], keygrip as [[]|e2], search as [[]|e3];
        cbn [chain app]; intros H; boot_cases H; split; auto.
    + destruct disableControllerTasks;
        destruct tables as [[]|e1], keygrip as [[]|e2], search as [[]|e3];
        cbn [chain app];
        (split;
         [ intros H; boot_cases H; (split; [reflexivity | eauto 10])
         | intros (_ & [(D & e & E)
                       |(D & [(e & E)|[(T & e & E)|(T & K & e & E)]])]);
           try discriminate D; try discriminate E; try discriminate T;
           try discriminate K; simpl; tauto ]).
    + intros H. now elim H.
  - split; [|split; [|split]].
    + intros [E|[E|[]]]; discriminate E.
    + intros [E|[E|[]]]; discriminate E.
    + split.
      * intros [E|[E|[]]]; [discriminate E|].
        destruct forced; discriminate E.
      * intros (E & _). contradiction.
    + reflexivity.
Qed.

Lemma initDatabase_order_witness :
  initDatabase 7 false (Threw (Error "no such version")) (Returned tt)
    (Returned tt) (Returned tt)
  = [ForceDbVersion 7; Exit 2].
Proof.
  apply (proj2 (proj2 (proj2
           (initDatabase_order 7 false (Threw (Error "no such version"))
              (Returned tt) (Returned tt) (Returned tt))))).
  discriminate.
Defined.

(** ** The patched console *)

Lemma join_cons sep x r :
  r <> [] -> JSON.join sep (x :: r) = x ++ sep ++ JSON.join sep r.
Proof. destruct r; [congruence | reflexivity]. Qed.

Lemma log_step_message msg stack a :
  fst (log_step (msg, stack) a)
  = (if Str.nonempty msg then msg ++ " " else msg) ++ log_text a.
Proof. unfold log_step. now destruct a. Qed.

Lemma join_absorb msg a l :
  JSON.join " " (((msg ++ " ") ++ a) :: l) = JSON.join " " (msg :: a :: l).
Proof.
  destruct l as [|y l].
  - cbn [JSON.join]. now rewrite append_assoc.
  - rewrite (join_cons " " ((msg ++ " ") ++ a)) by discriminate.
    rewrite (join_cons " " msg), (join_cons " " a) by discriminate.
    now rewrite !append_assoc.
Qed.

Lemma fold_log_step args : forall msg stack,
  fst (fold_left log_step args (msg, stack))
  = if Str.nonempty msg then JSON.join " " (msg :: map log_text args)
    else JSON.join " " (drop_empty (map log_text args)).
Proof.
  induction args as [|a r IH]; intros msg stack.
  - cbn [fold_left fst map JSON.join drop_empty]. now destruct msg.
  - cbn [fold_left map].
    destruct (log_step (msg, stack) a) as [msg' stack'] eqn:E.
    pose proof (log_step_message msg stack a) as M. rewrite E in M.
    cbn [fst] in M. rewrite IH, M. clear E M IH.
    destruct (Str.nonempty msg) eqn:N.
    + rewrite (nonempty_append_l _ (log_text a)
                 (nonempty_append_l _ " " N)).
      apply join_absorb.
    + destruct msg; [|discriminate N]. cbn [append].
      destruct (log_text a) as [|c t]; reflexivity.
Qed.

Lemma log_step_stack msg stack a :
  snd (log_step (msg, stack) a)
  = match log_stack a, stack with
    | Some s, Some x =>
        Some (JStr (ErrorReport.to_text x ++ blank_line
                      ++ ErrorReport.to_text s))
    | Some s, None => Some s
    | None, _ => stack
    end.
Proof.
  unfold log_step, blank_line. destruct a; reflexivity.
Qed.

Lemma fold_log_stack args : forall msg x,
  snd (fold_left log_step args (msg, Some x))
  = match stacks_of args with
    | [] => Some x
    | l =>
        Some (JStr (JSON.join blank_line
                      (ErrorReport.to_text x :: map ErrorReport.to_text l)))
    end.
Proof.
  induction args as [|a r IH]; intros msg x; [reflexivity|].
  cbn [fold_left]. destruct (log_step (msg, Some x) a) as [msg' st] eqn:E.
  pose proof (log_step_stack msg (Some x) a) as S. rewrite E in S.
  cbn [snd] in S. subst st. unfold stacks_of. cbn [flat_map].
  fold (stacks_of r). destruct (log_stack a) as [s|]; cbn [app].
  - rewrite IH. cbn [map].
    change (ErrorReport.to_text
              (JStr (ErrorReport.to_text x ++ blank_line
                       ++ ErrorReport.to_text s)))
      with (ErrorReport.to_text x ++ blank_line ++ ErrorReport.to_text s).
    destruct (stacks_of r) as [|y l].
    + reflexivity.
    + rewrite (join_cons blank_line (_ ++ _)) by discriminate.
      rewrite (join_cons blank_line (ErrorReport.to_text x)) by discriminate.
      rewrite (join_cons blank_line (ErrorReport.to_text s)) by discriminate.
      now rewrite !append_assoc.
  - apply IH.
Qed.

(** The message the patched console hands to the logger is the texts of
    its arguments joined by single spaces, a string as it is and any other
    value as its JSON text, except that empty texts before the first text
    that is not empty leave no space.  The stack it hands over is that of
    the one argument that has a stack, or the stacks of all that have one,
    in their order, with a blank line between them. *)
Theorem logFactory_joins (arguments : list log_arg) :
  fst (logFactory arguments)
  = JSON.join " " (drop_empty (map log_text arguments)) /\
  snd (logFactory arguments)
  = match stacks_of arguments with
    | [] => None
    | [s] => Some s
    | l => Some (JStr (JSON.join blank_line (map ErrorReport.to_text l)))
    end.
Proof.
  unfold logFactory. split; [now rewrite fold_log_step|].
  generalize "" at 1. induction arguments as [|a r IH]; intros msg;
    [reflexivity|].
  cbn [fold_left]. destruct (log_step (msg, None) a) as [msg' st] eqn:E.
  pose proof (log_step_stack msg None a) as S. rewrite E in S.
  cbn [snd] in S. subst st. unfold stacks_of. cbn [flat_map].
  fold (stacks_of r). destruct (log_stack a) as [s|]; cbn [app].
  - rewrite fold_log_stack. now destruct (stacks_of r).
  - apply IH.
Qed.

(** ** PUT /data: what a request in order stores, and what it is told *)

Lemma wf_filter (p : json -> bool) l :
  forallb JSON.wf l = true -> forallb JSON.wf (filter p l) = true.
Proof.
  induction l as [|v r IH]; [reflexivity|]. simpl. intros H.
  apply andb_true_iff in H as [Hv Hr].
  destruct (p v); simpl; rewrite ?Hv; now apply IH.
Qed.

Lemma updates_json_parse commands :
  forallb JSON.wf commands = true ->
  JSON.parse (updates_json (Some commands))
  = Returned (JObj [("updates", JArr (filter truthy commands))]).
Proof.
  intros H. unfold updates_json. apply parse_stringify.
  cbn [JSON.wf map fst snd JSON.distinct Obj.ordered existsb negb andb
       forallb].
  now rewrite (wf_filter truthy _ H).
Qed.

(** A PUT whose body names the device of the session and whose content has
    no error inserts the shot for that device under [id/domain]; it updates
    it only when the insert reports that the shot is there already; and when
    the store succeeds the answer is 200 with a JSON text that reads as
    [{updates: [...]}], holding the commands of the store that are truthy,
    in their order. *)
Theorem put_data_stores (srv : Server) (rnd : nat)
    (checkContent : option json -> list string)
    (checkAttributes : option json -> string -> list string)
    (req : Request) (d : string)
    (inserted updated : completion (option (list json))) :
  fails_artificially srv rnd = false ->
  present (text_field "deviceId" req) = Some d ->
  present (deviceId req) = Some d ->
  content_errors checkContent checkAttributes req = [] ->
  (exists rest,
      put_data srv rnd checkContent checkAttributes req inserted updated
      = ShotInsert d (backend req) (shotId_of req) :: rest) /\
  (In (ShotUpdate d (backend req) (shotId_of req) None)
      (put_data srv rnd checkContent checkAttributes req inserted updated)
   <-> inserted = Returned None) /\
  (forall commands,
      inserted = Returned (Some commands)
      \/ (inserted = Returned None /\ updated = Returned (Some commands)) ->
      forallb JSON.wf commands = true ->
      exists body,
        first_response
          (put_data srv rnd checkContent checkAttributes req inserted updated)
        = Some (SimpleResponse body 200) /\
        JSON.parse body
        = Returned (JObj [("updates", JArr (filter truthy commands))])).
Proof.
  intros Hf Hb Hs He. unfold put_data.
  rewrite Hf, (given_present _ _ _ Hb), Hs. cbn [loosely_equal].
  rewrite String.eqb_refl, He.
  split; [eexists; reflexivity|]. split.
  - destruct inserted as [[c|]|err].
    + split; [|discriminate].
      intros [E|[E|[]]]; discriminate E.
    + split; [reflexivity|]. intros _. right. now left.
    + split; [|discriminate].
      intros [E|[E|[]]]; discriminate E.
  - intros commands [->|[-> ->]] Hw; eexists;
      (split; [reflexivity | now apply updates_json_parse]).
Qed.

Lemma put_data_stores_witness :
  exists body,
    first_response
      (put_data demo_server 0 no_errors_content no_errors_attributes
         (with_body session_request [("deviceId", "abc123")])
         (Returned None)
         (Returned (Some [JNull; JObj [("op", JStr "replace")]])))
    = Some (SimpleResponse body 200) /\
    JSON.parse body
    = Returned
        (JObj [("updates",
                JArr (filter truthy [JNull; JObj [("op", JStr "replace")]]))]).
Proof.
  apply (proj2 (proj2
           (put_data_stores demo_server 0 no_errors_content
              no_errors_attributes
              (with_body session_request [("deviceId", "abc123")])
              "abc123" (Returned None)
              (Returned (Some [JNull; JObj [("op", JStr "replace")]]))
              eq_refl eq_refl eq_refl eq_refl))
           [JNull; JObj [("op", JStr "replace")]]).
  - right. split; reflexivity.
  - reflexivity.
Defined.

(** ** Unloading ends the session *)

(** Once the client has taken in the answer of POST /api/unload, a request
    that carries its cookies and no credential in the header has no device
    and no AB tests, whatever the cookie jar held before: the cookies
    [sendAuthInfo] had set are gone. *)
Theorem unload_ends_the_session (srv : Server) (req next : Request)
    (jar : list (string * string)) (t : list effect) :
  unload req = Returned t ->
  present (Obj.get "x-pageshot-auth" (headers next)) = None ->
  cookies next = cookies_after t jar ->
  auth_middleware srv next
  = Returned (with_auth next (deviceId next) (JObj [])
                (protocol next ++ "://" ++ host next)).
Proof.
  unfold unload. destruct (text_field "reason" req); [|discriminate].
  intros E Hh Hc. injection E as <-.
  cbn [cookies_after fold_left] in Hc.
  unfold auth_middleware, auth_info. rewrite Hh.
  assert (Gu : cookies_get_signed srv next "user" = None).
  { unfold cookies_get_signed. now rewrite Hc, !get_delete. }
  assert (Ga : cookies_get_signed srv next "abtests" = None).
  { unfold cookies_get_signed. now rewrite Hc, !get_delete. }
  rewrite Gu, Ga. reflexivity.
Qed.

Lemma unload_ends_the_session_witness :
  auth_middleware demo_server
    (with_cookies bare_request (cookies_after unload_trace demo_jar))
  = Returned
      (with_auth
         (with_cookies bare_request (cookies_after unload_trace demo_jar))
         None (JObj []) "https://shots.example").
Proof.
  exact (unload_ends_the_session demo_server
           (with_body session_request [("reason", "logout")])
           (with_cookies bare_request (cookies_after unload_trace demo_jar))
           demo_jar unload_trace eq_refl eq_refl eq_refl).
Defined.

(** ** The key of the server goes before the credential *)

Lemma auth_middleware_headers srv req req' :
  auth_middleware srv req = Returned req' -> headers req' = headers req.
Proof.
  unfold auth_middleware. destruct (auth_info srv req); cbn [bindc];
    [|discriminate].
  intros E. injection E as <-. reflexivity.
Qed.

(** For a request that shows one of the server's keys in [x-magic-auth],
    the device is the one its [x-device-id] header names, whatever the
    credential of its header or of its cookies says; when it names none, the
    request goes on without a device. *)
Theorem magic_auth_takes_precedence (srv : Server) (req req' : Request)
    (magicAuth : string) :
  present (Obj.get "x-magic-auth" (headers req)) = Some magicAuth ->
  In magicAuth (getTextKeys srv) ->
  middleware srv req = Returned req' ->
  deviceId req' = Obj.get "x-device-id" (headers req).
Proof.
  intros Pm Hk. unfold middleware.
  destruct (auth_middleware srv req) as [r|err] eqn:A; cbn [bindc];
    [|discriminate].
  pose proof (auth_middleware_headers _ _ _ A) as Hh.
  unfold magic_auth_middleware. rewrite Hh, Pm.
  assert (K : existsb (String.eqb magicAuth) (getTextKeys srv) = true).
  { apply existsb_exists. exists magicAuth. split; [exact Hk|].
    apply String.eqb_refl. }
  rewrite K. intros E. injection E as <-. reflexivity.
Qed.

Lemma magic_auth_takes_precedence_witness :
  deviceId
    (with_auth
       (with_headers bare_request
          [("x-pageshot-auth", authHeader demo_server "abc123" demo_abTests);
           ("x-magic-auth", "key-1")])
       None demo_abTests "https://undefined")
  = Obj.get "x-device-id"
      (headers
         (with_headers bare_request
            [("x-pageshot-auth", authHeader demo_server "abc123" demo_abTests);
             ("x-magic-auth", "key-1")])).
Proof.
  apply (magic_auth_takes_precedence demo_server
           (with_headers bare_request
              [("x-pageshot-auth",
                authHeader demo_server "abc123" demo_abTests);
               ("x-magic-auth", "key-1")])
           (with_auth
              (with_headers bare_request
                 [("x-pageshot-auth",
                   authHeader demo_server "abc123" demo_abTests);
                  ("x-magic-auth", "key-1")])
              None demo_abTests "https://undefined")
           "key-1").
  - reflexivity.
  - right. left. reflexivity.
  - vm_compute. reflexivity.
Defined.
